(** * Agentic-RAG: the vector store, the numeric tool and the chunker

    A shallow embedding of
      - [src/vector_store/faiss_store.py]  (class [FAISSStore]),
      - [src/agents/tool_executor.py]      ([compute_growth_rate], [execute]),
      - [src/ingestion/chunker.py]         ([chunk_text] and its helpers),
    together with the properties the specification states about them.

    Python objects are modelled as follows.  A method of [FAISSStore] is a
    computation in a state-and-exception monad over the store record, so
    that "this method does not touch the store" is a theorem and not a
    typing accident.  A [dict] is a [gmap] with string keys.  A numpy
    matrix is its column count together with its rows.  The scalars held
    by the index are kept abstract (class [Scalar]): the store only
    subtracts, multiplies, adds and compares them; [float32] and the
    rationals are instances.  A Python [float] is an IEEE 754 binary64
    number.  What the operating system and the faiss file format decide
    is a parameter of [save] and [load]. *)

From Stdlib Require Import ZArith QArith Qround Qabs Lqa String Ascii List Lia.
From Stdlib Require Import SpecFloat.
From stdpp Require Import base option list sorting gmap strings pretty.

#[local] Open Scope Z_scope.
#[local] Open Scope string_scope.
#[local] Open Scope list_scope.

(** ** Exceptions and results *)

(** The Python exception classes the embedded code can raise. *)
Inductive exn : Set :=
| ValueError
| AssertionError
| IndexError
| FileNotFoundError
| FileExistsError
| RuntimeError
| JSONDecodeError
| OverflowError.

Inductive result (A : Type) : Type :=
| Ok (a : A)
| Raise (e : exn).
Arguments Ok {A} a.
Arguments Raise {A} e.

#[global] Instance result_ret : MRet result := fun _ a => Ok a.
#[global] Instance result_bind : MBind result := fun _ _ f r =>
  match r with Ok a => f a | Raise e => Raise e end.

(** ** Python floats *)

(** A Python [float] is an IEEE 754 binary64 number: 53 bits of
    precision, rounding to nearest with ties to even. *)
Module Binary64.

Definition float : Type := spec_float.
Definition prec : Z := 53.
Definition emax : Z := 1024.

Definition sub : float -> float -> float := SFsub prec emax.
Definition mul : float -> float -> float := SFmul prec emax.
Definition div : float -> float -> float := SFdiv prec emax.
Definition eqb : float -> float -> bool := SFeqb.

Definition zero : float := S754_zero false.
Definition nan : float := S754_nan.

Definition is_nan (x : float) : bool :=
  match x with S754_nan => true | _ => false end.

Definition is_infinite (x : float) : bool :=
  match x with S754_infinity _ => true | _ => false end.

(** The double nearest to an integer; an infinity beyond the range. *)
Definition of_Z (n : Z) : float := binary_normalize prec emax n 0 false.

(** The double nearest to [n * 10^e], with the sign [s]; an infinity
    beyond the range. *)
Definition of_decimal (s : bool) (n : positive) (e : Z) : float :=
  match e with
  | Zneg p => SFdiv prec emax (S754_finite s n 0)
                              (S754_finite false (Pos.pow 10 p) 0)
  | _ => binary_normalize prec emax (cond_Zopp s (Zpos n * 10 ^ e)) 0 false
  end.

(** The value of a finite double. *)
Definition to_Q (x : float) : Q :=
  match x with
  | S754_finite s m e =>
      let v := match e with
               | Zneg p => Zpos m # Pos.pow 2 p
               | _ => inject_Z (Zpos m * 2 ^ e)
               end in
      if s then Qopp v else v
  | _ => 0%Q
  end.

End Binary64.

(** ** [float(str)] *)

Module FloatLiteral.

(** The whitespace [float] strips, among the code points below 256. *)
Definition is_space (c : ascii) : bool :=
  let n := nat_of_ascii c in
  ((9 <=? n) && (n <=? 13) || (n =? 32) || (n =? 133) || (n =? 160))%nat.

Definition is_digit (c : ascii) : bool :=
  let n := nat_of_ascii c in ((48 <=? n) && (n <=? 57))%nat.

Definition digit_value (c : ascii) : Z := Z.of_nat (nat_of_ascii c) - 48.

Fixpoint lstrip (s : string) : string :=
  match s with
  | EmptyString => ""
  | String c rest => if is_space c then lstrip rest else s
  end.

Fixpoint rstrip (s : string) : string :=
  match s with
  | EmptyString => ""
  | String c rest =>
      match rstrip rest with
      | EmptyString => if is_space c then "" else String c ""
      | r => String c r
      end
  end.

(** The underscores of a literal: allowed between two digits only, and
    removed.  [prev] is the character before. *)
Fixpoint drop_underscores (prev : ascii) (s : string) : option string :=
  match s with
  | EmptyString => if Ascii.eqb prev "_" then None else Some ""
  | String c rest =>
      if Ascii.eqb c "_" then
        if is_digit prev then drop_underscores c rest else None
      else if Ascii.eqb prev "_" && negb (is_digit c) then None
      else String c <$> drop_underscores c rest
  end.

(** The longest prefix of digits, as a number and a count, and what
    follows it. *)
Fixpoint digits (acc : Z) (count : Z) (s : string) : Z * Z * string :=
  match s with
  | String c rest =>
      if is_digit c then digits (10 * acc + digit_value c) (count + 1) rest
      else (acc, count, s)
  | EmptyString => (acc, count, s)
  end.

Definition lower (c : ascii) : ascii :=
  let n := nat_of_ascii c in
  if ((65 <=? n) && (n <=? 90))%nat then ascii_of_nat (n + 32) else c.

Fixpoint lower_all (s : string) : string :=
  match s with
  | EmptyString => ""
  | String c rest => String (lower c) (lower_all rest)
  end.

(** An optional sign: whether it is a minus, and what follows it. *)
Definition sign (s : string) : bool * string :=
  match s with
  | String "-" rest => (true, rest)
  | String "+" rest => (false, rest)
  | _ => (false, s)
  end.

(** The exponent part, which may be absent. *)
Definition exponent (s : string) : option Z :=
  match s with
  | EmptyString => Some 0
  | String c rest =>
      if Ascii.eqb (lower c) "e" then
        let '(neg, rest) := sign rest in
        let '(e, count, rest) := digits 0 0 rest in
        if (count =? 0)%Z || negb (String.eqb rest "") then None
        else Some (if neg then - e else e)
      else None
  end.

(** [float(s)] for a string: the double nearest to the literal, or
    nothing when the string is no literal. *)
Definition parse (s : string) : option Binary64.float :=
  s ← drop_underscores "000" (rstrip (lstrip s));
  let '(neg, body) := sign s in
  let word := lower_all body in
  if String.eqb word "inf" || String.eqb word "infinity"
  then Some (S754_infinity neg)
  else if String.eqb word "nan" then Some S754_nan
  else
    let '(int_part, int_count, rest) := digits 0 0 body in
    let '(mantissa, frac_count, rest) :=
      match rest with
      | String "." rest' =>
          let '(m, count, rest'') := digits int_part 0 rest' in
          (m, count, rest'')
      | _ => (int_part, 0, rest)
      end in
    if (int_count + frac_count =? 0)%Z then None
    else
      e ← exponent rest;
      Some match mantissa with
           | Zpos m => Binary64.of_decimal neg m (e - frac_count)
           | _ => S754_zero neg
           end.

End FloatLiteral.

(** ** Scalars *)

(** What the index needs from its number type ([float32] in the source):
    the arithmetic of a squared difference, a comparison, and the value
    the index pads distance rows with. *)
Class Scalar (F : Type) := {
  fzero : F;
  fadd : F -> F -> F;
  fsub : F -> F -> F;
  fmul : F -> F -> F;
  fleb : F -> F -> bool;
  fpad : F
}.

(** The comparison is a total preorder.  It is one on the rationals and on
    the floating-point numbers that are not NaN. *)
Class ScalarOrder (F : Type) `{Scalar F} : Prop := {
  fleb_total : forall x y : F, fleb x y = true \/ fleb y x = true;
  fleb_trans : forall x y z : F,
      fleb x y = true -> fleb y z = true -> fleb x z = true
}.

(** The comparison is a total preorder on the scalars of a list.  On
    floating-point numbers this says that none of them is a NaN. *)
Definition comparable {F} `{Scalar F} (ds : list F) : Prop :=
  (forall x y, x ∈ ds -> y ∈ ds -> fleb x y = true \/ fleb y x = true) /\
  (forall x y z, x ∈ ds -> y ∈ ds -> z ∈ ds ->
     fleb x y = true -> fleb y z = true -> fleb x z = true).

(** A numpy array of rank two: [shape = (length rows, ncols)]. *)
Record ndarray (F : Type) : Type := Ndarray {
  ncols : nat;
  rows : list (list F)
}.
Arguments Ndarray {F} ncols rows.
Arguments ncols {F} n.
Arguments rows {F} n.

Definition shape0 {F} (a : ndarray F) : nat := length (rows a).

(** Every row of a numpy matrix has the matrix's column count. *)
Definition rectangular {F} (a : ndarray F) : Prop :=
  Forall (fun r => length r = ncols a) (rows a).

(** ** Python values held in payloads *)

(** The values a payload is made of: the ones [json.dump] accepts, with
    dicts keyed by strings.  All but the tuple are what [json.load]
    returns. *)

#[warnings="-register-all"]
Inductive pyval : Type :=
| PyNone
| PyBool (b : bool)
| PyInt (z : Z)
| PyFloat (x : Binary64.float)
| PyStr (s : string)
| PyList (l : list pyval)
| PyDict (m : gmap string pyval)
| PyTuple (l : list pyval).

(** A JSON document, as [json.dump] writes it and [json.load] reads it:
    the members of an object come in the order of the text. *)
#[warnings="-register-all"]
Inductive json : Type :=
| JNull
| JBool (b : bool)
| JInt (z : Z)
| JFloat (x : Binary64.float)
| JStr (s : string)
| JArr (l : list json)
| JObj (kvs : list (string * json)).

(** The encoder of [json.dump]: a tuple is written as an array. *)
Fixpoint to_json (v : pyval) : json :=
  match v with
  | PyNone => JNull
  | PyBool b => JBool b
  | PyInt z => JInt z
  | PyFloat x => JFloat x
  | PyStr s => JStr s
  | PyList l => JArr (map to_json l)
  | PyDict m => JObj (map_to_list (to_json <$> m))
  | PyTuple l => JArr (map to_json l)
  end.

(** The decoder of [json.load]; of two members with one name the later
    one stays. *)
Fixpoint of_json (j : json) : pyval :=
  match j with
  | JNull => PyNone
  | JBool b => PyBool b
  | JInt z => PyInt z
  | JFloat x => PyFloat x
  | JStr s => PyStr s
  | JArr l => PyList (map of_json l)
  | JObj kvs =>
      PyDict (list_to_map
                (reverse (map (fun kv => (fst kv, of_json (snd kv))) kvs)))
  end.

(** The number of constructors of a value, the measure of the induction
    on nested values. *)
Fixpoint pyval_size (v : pyval) : nat :=
  match v with
  | PyList l | PyTuple l =>
      S (foldr (fun x acc => pyval_size x + acc)%nat 0%nat l)
  | PyDict m => S (map_fold (fun _ x acc => pyval_size x + acc)%nat 0%nat m)
  | _ => 1%nat
  end.

(** The values [json.load] can return: no tuple at any depth. *)
Fixpoint json_value (v : pyval) : bool :=
  match v with
  | PyList l => forallb json_value l
  | PyDict m => map_fold (fun _ x acc => json_value x && acc) true m
  | PyTuple _ => false
  | _ => true
  end.

(** A payload all of whose values [json.load] can return. *)
Definition json_payload (m : gmap string pyval) : bool :=
  json_value (PyDict m).

Definition dict_to_json (m : gmap string pyval) : list (string * json) :=
  map_to_list (to_json <$> m).

Definition dict_of_json (kvs : list (string * json)) : gmap string pyval :=
  list_to_map (reverse (map (fun kv => (fst kv, of_json (snd kv))) kvs)).

(** [os.path.join(directory, name)] for a relative [name]. *)
Definition path_join (directory name : string) : string :=
  match get (String.length directory - 1) directory with
  | None => name
  | Some c =>
      if Ascii.eqb c "/"%char then directory ++ name
      else directory ++ "/" ++ name
  end.

(** [seq[i]] on a Python list: negative indices count from the end, and an
    index outside [-len, len) raises [IndexError]. *)
Definition py_getitem {A} (l : list A) (i : Z) : result A :=
  let n := Z.of_nat (length l) in
  let j := if decide (i < 0) then i + n else i in
  if decide (0 <= j < n) then
    match l !! Z.to_nat j with
    | Some a => Ok a
    | None => Raise IndexError
    end
  else Raise IndexError.

(** ** The flat L2 index *)

Module Faiss.
Section Index.
Context {F : Type} `{Scalar F}.

(** Modelled from the spec: [faiss.IndexFlatL2] is a library the store
    calls and is not part of the repository.  The model follows the
    spec's section 4.1: an index configured for squared Euclidean
    distance over vectors of a fixed length, which keeps the vectors
    in insertion order, searches them exhaustively, and fills a result
    row with the label -1 where it has no neighbour left.  The shape
    assertions are the ones of the library's Python wrapper. *)
Record IndexFlatL2 : Type := {
  d : nat;
  xb : list (list F)
}.

(** Modelled from the spec: [faiss.IndexFlatL2(dim)], "an empty index
    configured for L2 distance over vectors of length d". *)
Definition new (dim : nat) : IndexFlatL2 := {| d := dim; xb := [] |}.

(** Modelled from the spec: [index.ntotal], the "number of vectors
    currently stored". *)
Definition ntotal (ix : IndexFlatL2) : nat := length (xb ix).

(** Modelled from the spec: the squared Euclidean distance of the index,
    accumulated from the left. *)
Definition fvec_L2sqr (x y : list F) : F :=
  fold_left (fun acc ab => fadd acc (fmul (fsub (fst ab) (snd ab))
                                          (fsub (fst ab) (snd ab))))
            (zip x y) fzero.

(** Modelled from the spec: [index.add(x)] asserts the column count,
    then appends the rows after the ones it holds. *)
Definition add (ix : IndexFlatL2) (x : ndarray F) : result IndexFlatL2 :=
  if decide (ncols x = d ix)
  then Ok {| d := d ix; xb := xb ix ++ rows x |}
  else Raise AssertionError.

(** Modelled from the spec: the exhaustive search orders the hits by
    distance.  This is the insertion of a (distance, label) pair into a
    list sorted by distance; on equal distances the pair inserted goes
    first, one deterministic choice among those the spec leaves open. *)
Fixpoint insert_hit (h : F * Z) (l : list (F * Z)) : list (F * Z) :=
  match l with
  | [] => [h]
  | h' :: l' =>
      if fleb (fst h) (fst h') then h :: l else h' :: insert_hit h l'
  end.

(** Modelled from the spec: the hits in ascending order of distance. *)
Definition sort_hits (l : list (F * Z)) : list (F * Z) :=
  foldr insert_hit [] l.

(** Modelled from the spec: the distance from the query to every stored
    vector, with the position of the vector as its label. *)
Definition all_hits (ix : IndexFlatL2) (q : list F) : list (F * Z) :=
  imap (fun i v => (fvec_L2sqr q v, Z.of_nat i)) (xb ix).

(** Modelled from the spec: the [k] nearest stored vectors, closest
    first; a row the index cannot fill is padded with the label -1. *)
Definition knn (ix : IndexFlatL2) (q : list F) (k : nat) : list (F * Z) :=
  take k (sort_hits (all_hits ix q))
    ++ replicate (k - ntotal ix) (fpad, -1).

(** The order of a result row: by distance, whatever the labels. *)
Definition hit_le (a b : F * Z) : Prop := fleb (fst a) (fst b) = true.

(** Modelled from the spec: [index.search(x, k)] asserts the column
    count and a positive [k], and returns one row of distances and one
    row of labels per query row. *)
Definition search (ix : IndexFlatL2) (x : ndarray F) (k : Z)
  : result (list (list F) * list (list Z)) :=
  if decide (ncols x = d ix) then
    if decide (0 < k) then
      let res := map (fun q => knn ix q (Z.to_nat k)) (rows x) in
      Ok (map (map fst) res, map (map snd) res)
    else Raise AssertionError
  else Raise AssertionError.

End Index.
Arguments IndexFlatL2 F : clear implicits.
End Faiss.

(** ** FAISSStore *)

Module FAISSStore.
Section Store.
Context {F : Type} `{Scalar F}.

(** The attributes of a [FAISSStore] object. *)
Record store : Type := Store {
  dimension : nat;
  index : Faiss.IndexFlatL2 F;
  chunks : list (gmap string pyval)
}.

(** A method body: it may read and update [self], and may raise. *)
Definition M (A : Type) : Type := store -> result A * store.

Definition ret {A} (a : A) : M A := fun s => (Ok a, s).
Definition raise {A} (e : exn) : M A := fun s => (Raise e, s).
Definition bind {A B} (m : M A) (k : A -> M B) : M B := fun s =>
  match m s with
  | (Ok a, s') => k a s'
  | (Raise e, s') => (Raise e, s')
  end.
Definition lift {A} (r : result A) : M A := fun s => (r, s).

Definition get_index : M (Faiss.IndexFlatL2 F) := fun s => (Ok (index s), s).
Definition get_chunks : M (list (gmap string pyval)) :=
  fun s => (Ok (chunks s), s).
Definition set_index (ix : Faiss.IndexFlatL2 F) : M unit := fun s =>
  (Ok tt, {| dimension := dimension s; index := ix; chunks := chunks s |}).
Definition set_chunks (cs : list (gmap string pyval)) : M unit := fun s =>
  (Ok tt, {| dimension := dimension s; index := index s; chunks := cs |}).

Notation "'let*' x ':=' m 'in' k" := (bind m (fun x => k))
  (at level 10, x name, m at level 100, k at level 200).
Notation "'do' m 'in' k" := (bind m (fun _ => k))
  (at level 10, m at level 100, k at level 200).

(** [FAISSStore(dimension)] *)
Definition __init__ (dim : nat) : store :=
  {| dimension := dim; index := Faiss.new dim; chunks := [] |}.

(** [count]: [return self.index.ntotal] *)
Definition count : M nat :=
  let* ix := get_index in
  ret (Faiss.ntotal ix).

(** [add]: the count check, then [self.index.add], then
    [self.chunks.extend]. *)
Definition add (embeddings : ndarray F) (cs : list (gmap string pyval))
  : M unit :=
  if decide (shape0 embeddings <> length cs) then raise ValueError
  else
    let* ix := get_index in
    let* ix' := lift (Faiss.add ix embeddings) in
    do set_index ix' in
    let* old := get_chunks in
    set_chunks (old ++ cs).

(** The argument of [search]: "a 1-D or 2-D array". *)
Inductive query_embedding : Type :=
| Query1 (v : list F)
| Query2 (m : ndarray F).

(** [np.array(q, dtype=np.float32)], reshaped to one row when 1-D. *)
Definition as_matrix (q : query_embedding) : ndarray F :=
  match q with
  | Query1 v => Ndarray (length v) [v]
  | Query2 m => m
  end.

(** One element of the list [search] returns. *)
Record Match : Type := {
  text : pyval;
  metadata : pyval;
  score : F
}.

(** The [for dist, idx in zip(distances[0], indices[0])] loop, with
    [results] as its accumulator. *)
Fixpoint search_loop (hits : list (F * Z)) (results : list Match)
  : M (list Match) :=
  match hits with
  | [] => ret results
  | (dist, idx) :: rest =>
      if decide (idx = -1) then search_loop rest results
      else
        let* cs := get_chunks in
        let* chunk := lift (py_getitem cs idx) in
        search_loop rest
          (results ++ [ {| text := default (PyStr "") (chunk !! "text");
                           metadata := default (PyDict ∅) (chunk !! "metadata");
                           score := dist |} ])
  end.

(** [search] *)
Definition search (q : query_embedding) (top_k : Z) : M (list Match) :=
  let* ix := get_index in
  if decide (Faiss.ntotal ix = 0%nat) then ret []
  else
    let query := as_matrix q in
    let top_k := Z.min top_k (Z.of_nat (Faiss.ntotal ix)) in
    let* found := lift (Faiss.search ix query top_k) in
    let* distances0 := lift (py_getitem (fst found) 0) in
    let* indices0 := lift (py_getitem (snd found) 0) in
    search_loop (zip distances0 indices0) [].

(** What the constructor establishes and [add] keeps: the index has the
    store's dimension and as many vectors as the store has payloads. *)
Definition well_formed (s : store) : Prop :=
  Faiss.d (index s) = dimension s /\
  length (chunks s) = Faiss.ntotal (index s).

(** The stores built by the constructor followed by [add] calls whose
    preconditions hold, together with the (vector, payload) pairs in the
    order in which they were added. *)
Inductive reach : list (list F * gmap string pyval) -> store -> Prop :=
| reach_init (dim : nat) : reach [] (__init__ dim)
| reach_add log s embeddings cs :
    reach log s ->
    shape0 embeddings = length cs ->
    rectangular embeddings ->
    ncols embeddings = dimension s ->
    reach (log ++ zip (rows embeddings) cs) (snd (add embeddings cs s)).

(** The match [search] builds from a hit of the index. *)
Definition match_of (cs : list (gmap string pyval)) (hit : F * Z) : Match :=
  let chunk := cs !!! Z.to_nat (snd hit) in
  {| text := default (PyStr "") (chunk !! "text");
     metadata := default (PyDict ∅) (chunk !! "metadata");
     score := fst hit |}.

(** *** Persistence *)

Section Persistence.

(** What [faiss.write_index] leaves in a file is an [image] of the
    index, in a format of the library's own: [write_image] is the
    library's encoder and [read_image] its decoder. *)
Variable image : Type.
Variable write_image : Faiss.IndexFlatL2 F -> image.
Variable read_image : image -> result (Faiss.IndexFlatL2 F).

(** The two artifacts of a saved store: the image of the index, and the
    JSON document of the payloads. *)
Inductive file : Type :=
| IndexFile (img : image)
| ChunksFile (doc : list (list (string * json))).

(** The files, by path. *)
Record filesystem : Type := {
  files : gmap string file
}.

(** The calls [save] and [load] make to the operating system:
    [os.makedirs(directory, exist_ok=True)], the opening of a file by
    [faiss.write_index] and [faiss.read_index], and [open(path, "w")]
    and [open(path, "r")]. *)
Inductive syscall : Type :=
| Makedirs (directory : string)
| WriteIndex (path : string)
| ReadIndex (path : string)
| OpenWrite (path : string)
| OpenRead (path : string).

(** The exception a call ends with when the operating system refuses
    it: an empty name, a file where a directory is needed, a missing
    directory or permission, a full disk.  Which calls are refused is
    not decided here. *)
Variable refused : syscall -> filesystem -> option exn.

(** [os.makedirs(directory, exist_ok=True)] *)
Definition makedirs (directory : string) (fs : filesystem)
  : result unit * filesystem :=
  match refused (Makedirs directory) fs with
  | Some e => (Raise e, fs)
  | None => (Ok tt, fs)
  end.

(** [faiss.write_index(index, path)] *)
Definition write_index (ix : Faiss.IndexFlatL2 F) (path : string)
    (fs : filesystem) : result unit * filesystem :=
  match refused (WriteIndex path) fs with
  | Some e => (Raise e, fs)
  | None =>
      (Ok tt, {| files := <[path := IndexFile (write_image ix)]> (files fs) |})
  end.

(** [open(path, "w")] followed by [json.dump(chunks, f)] *)
Definition dump_chunks (cs : list (gmap string pyval)) (path : string)
    (fs : filesystem) : result unit * filesystem :=
  match refused (OpenWrite path) fs with
  | Some e => (Raise e, fs)
  | None =>
      (Ok tt,
       {| files := <[path := ChunksFile (map dict_to_json cs)]> (files fs) |})
  end.

(** [faiss.read_index(path)] *)
Definition read_index (path : string) (fs : filesystem)
  : result (Faiss.IndexFlatL2 F) :=
  match refused (ReadIndex path) fs with
  | Some e => Raise e
  | None =>
      match files fs !! path with
      | Some (IndexFile img) => read_image img
      | Some (ChunksFile _) => Raise RuntimeError
      | None => Raise RuntimeError
      end
  end.

(** [open(path, "r")] followed by [json.load(f)] *)
Definition read_chunks (path : string) (fs : filesystem)
  : result (list (gmap string pyval)) :=
  match refused (OpenRead path) fs with
  | Some e => Raise e
  | None =>
      match files fs !! path with
      | Some (ChunksFile doc) => Ok (map dict_of_json doc)
      | Some (IndexFile _) => Raise JSONDecodeError
      | None => Raise FileNotFoundError
      end
  end.

(** [save] *)
Definition save (s : store) (directory : string) (fs : filesystem)
  : result unit * filesystem :=
  match makedirs directory fs with
  | (Raise e, fs) => (Raise e, fs)
  | (Ok _, fs) =>
      match write_index (index s) (path_join directory "index.faiss") fs with
      | (Raise e, fs) => (Raise e, fs)
      | (Ok _, fs) =>
          dump_chunks (chunks s) (path_join directory "chunks.json") fs
      end
  end.

(** [load] *)
Definition load (directory : string) (dim : nat) (fs : filesystem)
  : result store :=
  let st := __init__ dim in
  ix ← read_index (path_join directory "index.faiss") fs;
  let st := {| dimension := dimension st; index := ix;
               chunks := chunks st |} in
  cs ← read_chunks (path_join directory "chunks.json") fs;
  Ok {| dimension := dimension st; index := index st; chunks := cs |}.

End Persistence.

End Store.
Arguments store F : clear implicits.
Arguments Match F : clear implicits.
Arguments query_embedding F : clear implicits.
Arguments IndexFile {image} img.
Arguments ChunksFile {image} doc.
Arguments files {image} f.
Arguments makedirs {image} refused directory fs.
Arguments write_index {F image} write_image refused ix path fs.
Arguments dump_chunks {image} refused cs path fs.
Arguments read_index {F image} read_image refused path fs.
Arguments read_chunks {image} refused path fs.
Arguments save {F image} write_image refused s directory fs.
Arguments load {F image} read_image refused directory dim fs.
End FAISSStore.

(** ** The numeric tool *)

Module ToolExecutor.
Import Binary64.

(** What a cell of a column holds: a float, an integer, a boolean or a
    string. *)
Inductive value : Type :=
| VFloat (x : float)
| VInt (n : Z)
| VBool (b : bool)
| VStr (s : string).

(** A cell is a value or [None], and a [DataFrame] maps its column names
    to their cells. *)
Definition cell : Type := option value.
Abbreviation DataFrame := (gmap string (list cell)).

(** The values of the dict a tool returns. *)
Inductive tval : Type :=
| TStr (s : string)
| TFloat (x : float).

(** [series.dropna()]: [None] and NaN are null. *)
Definition notna (c : cell) : option value :=
  match c with
  | None | Some (VFloat S754_nan) => None
  | Some v => Some v
  end.

Definition dropna (series : list cell) : list value :=
  omap notna series.

(** [float(v)] *)
Definition py_float (v : value) : result float :=
  match v with
  | VFloat x => Ok x
  | VInt n =>
      let x := of_Z n in
      if is_infinite x then Raise OverflowError else Ok x
  | VBool b => Ok (of_Z (if b then 1 else 0))
  | VStr s =>
      match FloatLiteral.parse s with
      | Some x => Ok x
      | None => Raise ValueError
      end
  end.

(** Rounding to the nearest integer, ties to the even one. *)
Definition round_half_even (x : Q) : Z :=
  let f := Qfloor x in
  match Qcompare (x - inject_Z f) (1 # 2) with
  | Lt => f
  | Gt => f + 1
  | Eq => if Z.even f then f else f + 1
  end.

(** [round(x, 4)]: the double nearest to the value of [x] rounded to
    four decimal places; a zero keeps the sign of [x], and an infinity
    or a NaN is returned as it is. *)
Definition round4 (x : float) : float :=
  match x with
  | S754_finite s _ _ =>
      match round_half_even (to_Q x * 10000) with
      | Z0 => S754_zero s
      | Zpos k => of_decimal false k (-4)
      | Zneg k => of_decimal true k (-4)
      end
  | _ => x
  end.

(** [compute_growth_rate] *)
Definition compute_growth_rate (df : DataFrame) (column : string)
  : result (gmap string tval) :=
  match df !! column with
  | None => Raise ValueError
  | Some col =>
      let series := dropna col in
      if decide (length series < 2)%nat then Raise ValueError
      else
        match head series, last series with
        | Some v0, Some vn =>
            first ← py_float v0;
            last ← py_float vn;
            if eqb first (of_Z 0) then Raise ValueError
            else
              let rate := mul (div (sub last first) first) (of_Z 100) in
              Ok (<["operation" := TStr "growth_rate"]>
                  (<["column" := TStr column]>
                  (<["first" := TFloat (round4 first)]>
                  (<["last" := TFloat (round4 last)]>
                  (<["result_pct" := TFloat (round4 rate)]> ∅)))))
        | _, _ => Raise IndexError
        end
  end.

Section Dispatch.
(** [compute_average] and [compute_sum] hand the column to pandas'
    [mean] and [sum]; they are kept abstract here. *)
Variables compute_average compute_sum :
  DataFrame -> string -> result (gmap string tval).

(** The table [ops] of [execute]. *)
Definition ops : gmap string (DataFrame -> string ->
                              result (gmap string tval)) :=
  <["average" := compute_average]>
  (<["sum" := compute_sum]>
  (<["growth_rate" := compute_growth_rate]> ∅)).

(** [execute] *)
Definition execute (df : DataFrame) (operation column : string)
  : result (gmap string tval) :=
  match ops !! operation with
  | None => Raise ValueError
  | Some f => f df column
  end.
End Dispatch.

End ToolExecutor.

(** ** The chunker *)

Module Chunker.

(** A text is a [string] whose characters are read as code points below
    256; [len] is [String.length]. *)

Definition DEFAULT_CHUNK_SIZE : Z := 400.
Definition APPROX_CHARS_PER_TOKEN : Z := 4.

(** The characters [str.isspace] accepts and the class [\s] matches,
    among the code points below 256. *)
Definition is_space (c : ascii) : bool :=
  let n := nat_of_ascii c in
  ((9 <=? n) && (n <=? 13) || (28 <=? n) && (n <=? 32)
   || (n =? 133) || (n =? 160))%nat.

(** The class [[.!?]] of the look-behind. *)
Definition is_terminator (c : ascii) : bool :=
  (Ascii.eqb c "." || Ascii.eqb c "!" || Ascii.eqb c "?")%char.

(** Puts a character in front of the first piece. *)
Definition cons_piece (c : ascii) (pieces : list string) : list string :=
  match pieces with
  | [] => [String c ""]
  | p :: ps => String c p :: ps
  end.

(** [re.split(r"(?<=[.!?])\s+", text)], read from the left.  [in_sep]
    says that the scan is inside a separator, [prev] that the character
    just read is a terminator. *)
Fixpoint re_split (in_sep prev : bool) (text : string) : list string :=
  match text with
  | EmptyString => [""]
  | String c rest =>
      if in_sep then
        if is_space c then re_split true false rest
        else cons_piece c (re_split false (is_terminator c) rest)
      else if prev && is_space c then "" :: re_split true false rest
      else cons_piece c (re_split false (is_terminator c) rest)
  end.

Fixpoint lstrip (s : string) : string :=
  match s with
  | EmptyString => ""
  | String c rest => if is_space c then lstrip rest else s
  end.

Fixpoint rstrip (s : string) : string :=
  match s with
  | EmptyString => ""
  | String c rest =>
      match rstrip rest with
      | EmptyString => if is_space c then "" else String c ""
      | r => String c r
      end
  end.

(** [s.strip()] *)
Definition strip (s : string) : string := rstrip (lstrip s).

Definition nonempty (s : string) : bool :=
  match s with EmptyString => false | _ => true end.

(** [_split_sentences] *)
Definition _split_sentences (text : string) : list string :=
  let sentences := re_split false false text in
  map strip (List.filter (fun s => nonempty (strip s)) sentences).

(** [_estimate_tokens] *)
Definition _estimate_tokens (text : string) : Z :=
  Z.of_nat (String.length text) / APPROX_CHARS_PER_TOKEN.

(** [" ".join(sentences)] *)
Fixpoint join (sentences : list string) : string :=
  match sentences with
  | [] => ""
  | [s] => s
  | s :: rest => s ++ " " ++ join rest
  end.

(** [_build_chunk] *)
Definition _build_chunk (sentences : list string) (index : nat)
    (source : string) : gmap string pyval :=
  let text := join sentences in
  <["text" := PyStr text]>
  (<["metadata" :=
       PyDict (<["chunk_index" := PyInt (Z.of_nat index)]>
               (<["source" := PyStr source]>
               (<["estimated_tokens" := PyInt (_estimate_tokens text)]> ∅)))]>
   ∅).

(** What the loop of [chunk_text] carries from one sentence to the next. *)
Record loop_state : Type := {
  chunks : list (gmap string pyval);
  current_sentences : list string;
  current_tokens : Z
}.

(** [chunks.append(_build_chunk(current_sentences, len(chunks), source))]
    followed by the reset of the accumulator. *)
Definition flush (source : string) (st : loop_state) : loop_state :=
  {| chunks := chunks st ++ [_build_chunk (current_sentences st)
                                          (length (chunks st)) source];
     current_sentences := [];
     current_tokens := 0 |}.

(** One iteration of the [for sentence in sentences] loop. *)
Definition step (chunk_size : Z) (source : string) (st : loop_state)
    (sentence : string) : loop_state :=
  let sentence_tokens := _estimate_tokens sentence in
  if decide (sentence_tokens >= chunk_size) then
    let st1 := match current_sentences st with
               | [] => st
               | _ => flush source st
               end in
    {| chunks := chunks st1 ++ [_build_chunk [sentence]
                                             (length (chunks st1)) source];
       current_sentences := current_sentences st1;
       current_tokens := current_tokens st1 |}
  else
    let st1 :=
      if decide (current_tokens st + sentence_tokens > chunk_size) then
        match current_sentences st with
        | [] => st
        | _ => flush source st
        end
      else st in
    {| chunks := chunks st1;
       current_sentences := current_sentences st1 ++ [sentence];
       current_tokens := current_tokens st1 + sentence_tokens |}.

(** [chunk_text] *)
Definition chunk_text (text : string) (chunk_size : Z) (source : string)
  : list (gmap string pyval) :=
  let sentences := _split_sentences text in
  let st := fold_left (step chunk_size source) sentences
              {| chunks := []; current_sentences := [];
                 current_tokens := 0 |} in
  match current_sentences st with
  | [] => chunks st
  | _ => chunks (flush source st)
  end.

(** The chunks built from groups of sentences, numbered from [start]. *)
Definition render (source : string) (start : nat)
    (groups : list (list string)) : list (gmap string pyval) :=
  imap (fun i g => _build_chunk g (start + i) source) groups.

(** The end of [chunk_text]: the flush of what is left. *)
Definition finish (source : string) (st : loop_state)
  : list (gmap string pyval) :=
  match current_sentences st with
  | [] => chunks st
  | _ => chunks (flush source st)
  end.

(** A group holds either one sentence or only sentences below the
    budget. *)
Definition within_budget (chunk_size : Z) (g : list string) : Prop :=
  forall s, s ∈ g -> chunk_size <= _estimate_tokens s -> g = [s].

End Chunker.

(** ** The rationals as scalars *)

(** [FLT_MAX], the distance the index pads with. *)
Definition flt_max : Q := 340282346638528859811704183484516925440 # 1.

#[global] Instance Q_scalar : Scalar Q := {|
  fzero := 0%Q;
  fadd := Qplus;
  fsub := Qminus;
  fmul := Qmult;
  fleb := Qle_bool;
  fpad := flt_max
|}.

(** ** [float32] *)

(** The scalars of the source: IEEE 754 binary32 numbers, 24 bits of
    precision, rounding to nearest with ties to even. *)
Module Float32.

Definition float : Type := spec_float.
Definition prec : Z := 24.
Definition emax : Z := 128.

Definition is_nan (x : float) : bool :=
  match x with S754_nan => true | _ => false end.

(** Neither an infinity nor a NaN. *)
Definition is_finite (x : float) : bool :=
  match x with S754_zero _ | S754_finite _ _ _ => true | _ => false end.

(** The float nearest to an integer. *)
Definition of_Z (n : Z) : float := binary_normalize prec emax n 0 false.

#[global] Instance float32_scalar : Scalar float := {|
  fzero := S754_zero false;
  fadd := SFadd prec emax;
  fsub := SFsub prec emax;
  fmul := SFmul prec emax;
  fleb := SFleb;
  fpad := SFmax_float prec emax
|}.

(** A float that is no NaN and whose sign bit is [s]. *)
Definition signed (s : bool) (x : float) : Prop :=
  match x with
  | S754_zero s' | S754_infinity s' | S754_finite s' _ _ => s' = s
  | S754_nan => False
  end.

(** Floats that are no NaN compare as their ranks do in the
    lexicographic order. *)
Definition rank (x : float) : Z * Z * Z :=
  match x with
  | S754_zero _ => (0, 0, 0)
  | S754_infinity s => if s then (-2, 0, 0) else (2, 0, 0)
  | S754_finite s m e => if s then (-1, - e, - Zpos m) else (1, e, Zpos m)
  | S754_nan => (0, 0, 0)
  end.

Definition lex_le (a b : Z * Z * Z) : Prop :=
  let '(a1, a2, a3) := a in
  let '(b1, b2, b3) := b in
  a1 < b1 \/ (a1 = b1 /\ (a2 < b2 \/ (a2 = b2 /\ a3 <= b3))).

End Float32.

(** ** Concrete stores and inputs *)

Module Sample.
Import FAISSStore.

Definition payload (t : string) : gmap string pyval :=
  <["text" := PyStr t]> ∅.

(** The two-dimensional store of the spec's scenario: [[0,0]] with the
    payload "near" and [[10,10]] with the payload "far". *)
Definition vectors2 : ndarray Q := Ndarray 2 [[0%Q; 0%Q]; [10%Q; 10%Q]].
Definition payloads2 : list (gmap string pyval) :=
  [payload "near"; payload "far"].
Definition empty2 : store Q := __init__ 2.
Definition near_far : store Q := snd (add vectors2 payloads2 empty2).

(** The pairs [near_far] was built from, in the order of insertion. *)
Definition log2 : list (list Q * gmap string pyval) :=
  zip (rows vectors2) payloads2.

(** A matrix of the wrong width and a payload list of the wrong length. *)
Definition vectors3 : ndarray Q := Ndarray 3 [[0%Q; 0%Q; 1%Q]].
Definition payloads1 : list (gmap string pyval) := [payload "x"].

(** A store one of whose payloads holds a tuple. *)
Definition tupled : store Q :=
  snd (add (Ndarray 2 [[0%Q; 0%Q]])
           [<["text" := PyStr "a"]>
            (<["metadata" :=
                 PyDict (<["pages" := PyTuple [PyInt 1; PyInt 2]]> ∅)]> ∅)]
           empty2).

(** A file format that keeps the index as it is, an operating system
    that refuses to make a directory with the empty name or with the
    name of a file and refuses nothing else, and a disk with no file. *)
Definition keep (ix : Faiss.IndexFlatL2 Q) : Faiss.IndexFlatL2 Q := ix.
Definition plain_os (call : syscall)
    (fs : filesystem (Faiss.IndexFlatL2 Q)) : option exn :=
  match call with
  | Makedirs directory =>
      if String.eqb directory "" then Some FileNotFoundError
      else if decide (is_Some (files fs !! directory))
           then Some FileExistsError else None
  | _ => None
  end.
Definition empty_fs : filesystem (Faiss.IndexFlatL2 Q) := {| files := ∅ |}.

(** The store of the scenario over [float32], and a query next to its
    second vector. *)
Definition vectors32 : ndarray Float32.float :=
  Ndarray 2 [[Float32.of_Z 0; Float32.of_Z 0];
             [Float32.of_Z 10; Float32.of_Z 10]].
Definition near_far32 : store Float32.float :=
  snd (add vectors32 payloads2 (__init__ 2)).
Definition log32 : list (list Float32.float * gmap string pyval) :=
  zip (rows vectors32) payloads2.
Definition query32 : list Float32.float := [Float32.of_Z 9; Float32.of_Z 9].

(** Tables for the growth-rate tool: the column of the spec's scenario, a
    column whose rate has no finite decimal expansion, a column of
    names, and a column that starts with an integer beyond the range of
    a float. *)
Definition df_growth : ToolExecutor.DataFrame :=
  <["revenue" := [Some (ToolExecutor.VInt 100); None;
                  Some (ToolExecutor.VInt 150)]]> ∅.
Definition df_thirds : ToolExecutor.DataFrame :=
  <["units" := [Some (ToolExecutor.VInt 3); Some (ToolExecutor.VInt 4)]]> ∅.
Definition df_names : ToolExecutor.DataFrame :=
  <["name" := [Some (ToolExecutor.VStr "ada"); Some (ToolExecutor.VStr "bob")]]> ∅.
Definition df_huge : ToolExecutor.DataFrame :=
  <["atoms" := [Some (ToolExecutor.VInt (10 ^ 400));
                Some (ToolExecutor.VInt 1)]]> ∅.

End Sample.

(** ** Measures on the chunker's sentences *)

Module ChunkerMeasures.
Import Chunker.

(** The characters of a text that are not whitespace, in order. *)
Fixpoint non_space (s : string) : string :=
  match s with
  | EmptyString => ""
  | String c rest =>
      if is_space c then non_space rest else String c (non_space rest)
  end.

(** The strings of a list, one after the other. *)
Definition scat (l : list string) : string := foldr String.append "" l.

(** The last character of a text. *)
Fixpoint last_char (s : string) : option ascii :=
  match s with
  | EmptyString => None
  | String c EmptyString => Some c
  | String _ rest => last_char rest
  end.

(** The text of a chunk: [chunk["text"]]. *)
Definition text_of (c : gmap string pyval) : string :=
  match c !! "text" with
  | Some (PyStr t) => t
  | _ => ""
  end.

(** No whitespace character of the text follows a terminator; [prev]
    says whether a terminator stands just before the text. *)
Fixpoint unbroken (prev : bool) (s : string) : bool :=
  match s with
  | EmptyString => true
  | String c rest =>
      negb (prev && is_space c) && unbroken (is_terminator c) rest
  end.

(** What the loop of [chunk_text] counts against the budget: the sum of
    the estimates of the sentences, each estimated on its own. *)
Definition tokens_sum (g : list string) : Z :=
  foldr (fun s acc => _estimate_tokens s + acc) 0 g.

(** A group fits the budget, or is one sentence that reaches it. *)
Definition fits (chunk_size : Z) (g : list string) : Prop :=
  (exists s, g = [s] /\ chunk_size <= _estimate_tokens s) \/
  (tokens_sum g <= chunk_size /\
   Forall (fun s => _estimate_tokens s < chunk_size) g).

(** The cut between two consecutive groups was forced: the sentence that
    opens the second group reaches the budget, or the first group is such
    a sentence, or the first group could not take that sentence. *)
Definition forced_cut (chunk_size : Z) (g1 g2 : list string) : Prop :=
  forall s rest, g2 = s :: rest ->
    chunk_size <= _estimate_tokens s \/
    (exists s1, g1 = [s1] /\ chunk_size <= _estimate_tokens s1) \/
    tokens_sum g1 + _estimate_tokens s > chunk_size.

End ChunkerMeasures.


(** ** ingestion/file_router.py *)

Module FileRouter.
Import Chunker.

(** [os.path] is [posixpath] or [ntpath]. *)
Inductive platform : Type := Posix | Nt.

Definition sep (pf : platform) : ascii :=
  match pf with Posix => "/"%char | Nt => ascii_of_nat 92 end.

Definition altsep (pf : platform) : option ascii :=
  match pf with Posix => None | Nt => Some "/"%char end.

Definition extsep : ascii := ".".

(** [p.rfind(ch)]: the last position of [ch], or -1. *)
Fixpoint rfind (ch : ascii) (p : string) : Z :=
  match p with
  | EmptyString => -1
  | String c rest =>
      let i := rfind ch rest in
      if decide (0 <= i) then i + 1
      else if Ascii.eqb c ch then 0 else -1
  end.

(** [p[:i]] and [p[i:]] for [0 <= i]. *)
Fixpoint slice_to (i : nat) (p : string) : string :=
  match i, p with
  | S j, String c rest => String c (slice_to j rest)
  | _, _ => ""
  end.

Fixpoint slice_from (i : nat) (p : string) : string :=
  match i, p with
  | S j, String _ rest => slice_from j rest
  | _, _ => p
  end.

(** The [while filenameIndex < dotIndex] loop of [_splitext], which
    skips the dots that start the file name: whether it meets a
    character other than [extsep] within [steps] positions. *)
Fixpoint skip_leading_dots (p : string) (filenameIndex steps : nat) : bool :=
  match steps with
  | O => false
  | S steps' =>
      match get filenameIndex p with
      | Some c =>
          if Ascii.eqb c extsep
          then skip_leading_dots p (S filenameIndex) steps'
          else true
      | None => true
      end
  end.

Definition sepIndex (pf : platform) (p : string) : Z :=
  match altsep pf with
  | None => rfind (sep pf) p
  | Some alt => Z.max (rfind (sep pf) p) (rfind alt p)
  end.

(** [os.path.splitext] *)
Definition splitext (pf : platform) (p : string) : string * string :=
  let dotIndex := rfind extsep p in
  if decide (sepIndex pf p < dotIndex) then
    let filenameIndex := sepIndex pf p + 1 in
    if skip_leading_dots p (Z.to_nat filenameIndex)
                         (Z.to_nat (dotIndex - filenameIndex))
    then (slice_to (Z.to_nat dotIndex) p, slice_from (Z.to_nat dotIndex) p)
    else (p, "")
  else (p, "").

(** [ext.lstrip(".")] *)
Fixpoint lstrip_dots (s : string) : string :=
  match s with
  | EmptyString => ""
  | String c rest => if Ascii.eqb c "." then lstrip_dots rest else s
  end.

(** [str.lower] on the code points below 256: the letters A-Z and the
    capital letters of Latin-1. *)
Definition lower_char (c : ascii) : ascii :=
  let n := nat_of_ascii c in
  if ((65 <=? n) && (n <=? 90)
      || (192 <=? n) && (n <=? 222) && negb (n =? 215))%nat
  then ascii_of_nat (n + 32) else c.

Fixpoint lower (s : string) : string :=
  match s with
  | EmptyString => ""
  | String c rest => String (lower_char c) (lower rest)
  end.

Definition SUPPORTED_EXTENSIONS : gset string :=
  {[ "pdf"; "csv"; "json"; "txt"; "docx" ]}.

(** [route_file] *)
Definition route_file (pf : platform) (file_path : string) : result string :=
  let ext := snd (splitext pf file_path) in
  let ext := lower (lstrip_dots ext) in
  if negb (nonempty ext) then Raise ValueError
  else if decide (ext ∉ SUPPORTED_EXTENSIONS) then Raise ValueError
  else Ok ext.

(** Whether every character of a text satisfies [f]. *)
Fixpoint all_chars (f : ascii -> bool) (s : string) : bool :=
  match s with
  | EmptyString => true
  | String c rest => f c && all_chars f rest
  end.

(** The characters that separate the components of a path. *)
Definition is_sep (pf : platform) (c : ascii) : bool :=
  Ascii.eqb c (sep pf)
  || match altsep pf with Some alt => Ascii.eqb c alt | None => false end.

Definition is_dot (c : ascii) : bool := Ascii.eqb c extsep.

End FileRouter.

(** ** ingestion/pdf_parser.py *)

Module PdfParser.
Import Chunker.

Definition newline : ascii := ascii_of_nat 10.

(** The class [[^\S\n]]: the whitespace other than the newline. *)
Definition is_hspace (c : ascii) : bool :=
  is_space c && negb (Ascii.eqb c newline).

(** [re.sub(r"[^\S\n]+", " ", text)], read from the left: a space for
    every maximal run of the class.  [in_run] says that the character
    just read belongs to a run. *)
Fixpoint sub_hspace (in_run : bool) (text : string) : string :=
  match text with
  | EmptyString => ""
  | String c rest =>
      if is_hspace c then
        if in_run then sub_hspace true rest
        else String " " (sub_hspace true rest)
      else String c (sub_hspace false rest)
  end.

(** [re.sub(r"\n{3,}", "\n\n", text)], read from the left: of a run of
    newlines the first two stay.  [run] counts the newlines just read. *)
Fixpoint sub_newlines (run : nat) (text : string) : string :=
  match text with
  | EmptyString => ""
  | String c rest =>
      if Ascii.eqb c newline then
        if (run <? 2)%nat then String c (sub_newlines (S run) rest)
        else sub_newlines (S run) rest
      else String c (sub_newlines 0 rest)
  end.

(** The three cleaning steps of [parse_pdf]. *)
Definition clean (raw_text : string) : string :=
  let cleaned := sub_hspace false raw_text in
  let cleaned := sub_newlines 0 cleaned in
  strip cleaned.

(** ["\n".join(pages_text)] *)
Fixpoint join_lines (pages_text : list string) : string :=
  match pages_text with
  | [] => ""
  | [t] => t
  | t :: rest => (t ++ String newline (join_lines rest))%string
  end.

Section Parse.

(** [fitz.open(file_path)] followed by [page.get_text()] on every page:
    the texts of the pages, or the exception [fitz.open] raises. *)
Variable fitz_open : string -> result (list string).

(** [parse_pdf] *)
Definition parse_pdf (file_path : string) : result string :=
  match fitz_open file_path with
  | Raise _ => Raise ValueError
  | Ok pages_text => Ok (clean (join_lines pages_text))
  end.

End Parse.

(** *** Shapes of a cleaned text *)

Definition starts_hspace (s : string) : bool :=
  match s with
  | EmptyString => false
  | String c _ => is_hspace c
  end.

(** Every whitespace character other than a newline is a space, and the
    character after it is not of that kind. *)
Fixpoint single_spaced (s : string) : bool :=
  match s with
  | EmptyString => true
  | String c rest =>
      (if is_hspace c then Ascii.eqb c " " && negb (starts_hspace rest)
       else true)
      && single_spaced rest
  end.

(** No three newlines in a row; [run] counts the newlines just before
    the text. *)
Fixpoint short_breaks (run : nat) (s : string) : bool :=
  match s with
  | EmptyString => true
  | String c rest =>
      if Ascii.eqb c newline then (run <? 2)%nat && short_breaks (S run) rest
      else short_breaks 0 rest
  end.

(** Neither the first nor the last character is whitespace. *)
Definition stripped (s : string) : bool :=
  match s with
  | EmptyString => true
  | String c _ =>
      negb (is_space c)
      && match ChunkerMeasures.last_char s with
         | Some d => negb (is_space d)
         | None => true
         end
  end.

End PdfParser.

(** ** Python dicts whose order is observed *)

(** [d[k] = v] on a dict kept as the list of its items in insertion
    order: an old key keeps its place, a new key goes to the end. *)
Fixpoint dict_set {A} (k : string) (v : A) (d : list (string * A))
  : list (string * A) :=
  match d with
  | [] => [(k, v)]
  | (k', v') :: rest =>
      if decide (k' = k) then (k, v) :: rest
      else (k', v') :: dict_set k v rest
  end.

(** [dict(items)] *)
Definition dict {A} (items : list (string * A)) : list (string * A) :=
  fold_left (fun d kv => dict_set (fst kv) (snd kv) d) items [].

(** ** ingestion/embedder.py *)

Module Embedder.
Section Model.
Context {F : Type}.

(** [model.encode(texts, show_progress_bar=False)] of the sentence
    transformer. *)
Variable encode : list pyval -> ndarray F.

(** The [for i, chunk in enumerate(chunks)] loop, with [texts] as its
    accumulator. *)
Fixpoint collect_texts (chunks : list (gmap string pyval))
    (texts : list pyval) : result (list pyval) :=
  match chunks with
  | [] => Ok texts
  | chunk :: rest =>
      match chunk !! "text" with
      | None => Raise ValueError
      | Some t => collect_texts rest (texts ++ [t])
      end
  end.

(** [embed_chunks] *)
Definition embed_chunks (chunks : list (gmap string pyval))
  : result (ndarray F) :=
  match chunks with
  | [] => Raise ValueError
  | _ =>
      match collect_texts chunks [] with
      | Raise e => Raise e
      | Ok texts => Ok (encode texts)
      end
  end.

End Model.
End Embedder.

(** ** server.py *)

Module Server.

(** What leaves the body of an endpoint: an exception of the code
    modelled above, a TypeError, or an HTTPException with its status. *)
Inductive error : Type :=
| Exception (e : exn)
| TypeError
| HTTPException (status_code : Z).

Inductive outcome (A : Type) : Type :=
| Return (a : A)
| Raised (e : error).
Arguments Return {A} a.
Arguments Raised {A} e.

Record reply : Type := {
  status : string;
  filename : string;
  chunks_added : nat;
  total_chunks : nat
}.

Section Endpoints.
Context {F : Type} `{Scalar F}.

(** What the endpoint calls outside this repository's pure code.  The
    temporary file an upload is written to is represented by its
    content [tmp]. *)
Variable pf : FileRouter.platform.
Variable fitz_open : string -> result (list string).
Variable parse_csv : string -> result (string * ToolExecutor.DataFrame).
Variable parse_json : string -> result string.
Variable read_text : string -> string.
Variable encode : list pyval -> ndarray F.

(** The module-level state: [_faiss_store], [uploaded_files] and
    [csv_dataframes]. *)
Record state : Type := {
  _faiss_store : option (FAISSStore.store F);
  uploaded_files : list string;
  csv_dataframes : list (string * ToolExecutor.DataFrame)
}.

Definition set_store (s : FAISSStore.store F) (st : state) : state :=
  {| _faiss_store := Some s;
     uploaded_files := uploaded_files st;
     csv_dataframes := csv_dataframes st |}.

(** [get_store]: the store is created on first use. *)
Definition get_store (st : state) : FAISSStore.store F * state :=
  match _faiss_store st with
  | None => let s := FAISSStore.__init__ 384 in (s, set_store s st)
  | Some s => (s, st)
  end.

(** [chunk.setdefault("metadata", {}); chunk["metadata"]["source"] = name];
    a metadata value that is no dict makes the assignment raise
    TypeError. *)
Definition set_source (name : string) (chunk : gmap string pyval)
  : option (gmap string pyval) :=
  match chunk !! "metadata" with
  | None =>
      Some (<["metadata" := PyDict (<["source" := PyStr name]> ∅)]> chunk)
  | Some (PyDict m) =>
      Some (<["metadata" := PyDict (<["source" := PyStr name]> m)]> chunk)
  | Some _ => None
  end.

(** The branches on [ext]: the text of the upload, and the state with
    the dataframe of a CSV registered. *)
Definition parse (ext name tmp : string) (st : state)
  : outcome string * state :=
  if decide (ext = "pdf") then
    match PdfParser.parse_pdf fitz_open tmp with
    | Raise e => (Raised (Exception e), st)
    | Ok text => (Return text, st)
    end
  else if decide (ext = "csv") then
    match parse_csv tmp with
    | Raise e => (Raised (Exception e), st)
    | Ok (text, df) =>
        (Return text,
         {| _faiss_store := _faiss_store st;
            uploaded_files := uploaded_files st;
            csv_dataframes := dict_set name df (csv_dataframes st) |})
    end
  else if decide (ext = "json") then
    match parse_json tmp with
    | Raise e => (Raised (Exception e), st)
    | Ok text => (Return text, st)
    end
  else if decide (ext = "txt" \/ ext = "docx") then
    (Return (read_text tmp), st)
  else (Raised (HTTPException 400), st).

(** From [if not text.strip()] to the [return] of [upload_file]. *)
Definition ingest (name text : string) (st : state) : outcome reply * state :=
  if negb (Chunker.nonempty (Chunker.strip text))
  then (Raised (HTTPException 400), st)
  else
    let chunks := Chunker.chunk_text text Chunker.DEFAULT_CHUNK_SIZE "" in
    match Embedder.embed_chunks encode chunks with
    | Raise e => (Raised (Exception e), st)
    | Ok embeddings =>
        let '(faiss_store, st) := get_store st in
        match mapM (set_source name) chunks with
        | None => (Raised TypeError, st)
        | Some chunks =>
            match FAISSStore.add embeddings chunks faiss_store with
            | (Raise e, faiss_store) =>
                (Raised (Exception e), set_store faiss_store st)
            | (Ok _, faiss_store) =>
                let st :=
                  {| _faiss_store := Some faiss_store;
                     uploaded_files := uploaded_files st ++ [name];
                     csv_dataframes := csv_dataframes st |} in
                (Return
                   {| status := "success";
                      filename := name;
                      chunks_added := length chunks;
                      total_chunks :=
                        Faiss.ntotal (FAISSStore.index faiss_store) |},
                 st)
            end
        end
    end.

(** The [try] block of [upload_file]. *)
Definition upload_body (file_name : option string) (tmp : string)
    (st : state) : outcome reply * state :=
  match file_name with
  | None => (Raised TypeError, st)
  | Some name =>
      match FileRouter.route_file pf name with
      | Raise e => (Raised (Exception e), st)
      | Ok ext =>
          match parse ext name tmp st with
          | (Raised e, st) => (Raised e, st)
          | (Return text, st) => ingest name text st
          end
      end
  end.

(** [upload_file]: an HTTPException passes, any other exception becomes
    the status 500. *)
Definition upload_file (file_name : option string) (tmp : string)
    (st : state) : outcome reply * state :=
  match upload_body file_name tmp st with
  | (Raised (HTTPException status_code), st) =>
      (Raised (HTTPException status_code), st)
  | (Raised _, st) => (Raised (HTTPException 500), st)
  | (Return r, st) => (Return r, st)
  end.

(** The number of vectors the server holds. *)
Definition held (st : state) : nat :=
  match _faiss_store st with
  | None => 0
  | Some s => Faiss.ntotal (FAISSStore.index s)
  end.

(** The payloads the server holds. *)
Definition payloads (st : state) : list (gmap string pyval) :=
  match _faiss_store st with
  | None => []
  | Some s => FAISSStore.chunks s
  end.

End Endpoints.
End Server.

(** ** ingestion/json_parser.py *)

Module JsonParser.

(** What [json.load] returns is read as a [json] value: a dict is the
    list of its items in insertion order, a list the list of its
    elements. *)

(** [isinstance(value, (dict, list))] *)
Definition is_container (value : json) : bool :=
  match value with
  | JArr _ | JObj _ => true
  | _ => false
  end.

(** [f"{parent_key}{sep}{key}" if parent_key else key] *)
Definition member_key (parent_key sep key : string) : string :=
  if Chunker.nonempty parent_key then (parent_key ++ sep ++ key)%string
  else key.

(** [f"{parent_key}[{idx}]"] *)
Definition element_key (parent_key : string) (idx : nat) : string :=
  (parent_key ++ "[" ++ pretty idx ++ "]")%string.

(** [_flatten]; the two inner loops build [items]. *)
Fixpoint _flatten (obj : json) (parent_key sep : string)
  : list (string * json) :=
  match obj with
  | JObj kvs =>
      dict ((fix items (kvs : list (string * json)) : list (string * json) :=
               match kvs with
               | [] => []
               | (key, value) :: rest =>
                   let new_key := member_key parent_key sep key in
                   (if is_container value
                    then _flatten value new_key sep
                    else [(new_key, value)])
                   ++ items rest
               end) kvs)
  | JArr l =>
      dict ((fix items (idx : nat) (l : list json) : list (string * json) :=
               match l with
               | [] => []
               | value :: rest =>
                   let new_key := element_key parent_key idx in
                   (if is_container value
                    then _flatten value new_key sep
                    else [(new_key, value)])
                   ++ items (S idx) rest
               end) 0%nat l)
  | _ => dict []
  end.

(** The [items] the loop over the members of a dict builds. *)
Definition member_items (parent_key sep : string)
    (kvs : list (string * json)) : list (string * json) :=
  flat_map (fun kv =>
              let new_key := member_key parent_key sep (fst kv) in
              if is_container (snd kv)
              then _flatten (snd kv) new_key sep
              else [(new_key, snd kv)]) kvs.

(** A dict none of whose values is a dict or a list. *)
Definition flat (d : list (string * json)) : Prop :=
  Forall (fun kv => is_container (snd kv) = false) d.

End JsonParser.

(** ** More concrete inputs *)

Module Inputs.
Import FAISSStore Sample.

(** A store whose index holds two vectors and whose payload list holds
    one, as a pair of files that do not belong together would load. *)
Definition lopsided : store Q :=
  {| dimension := 2; index := index near_far; chunks := [payload "near"] |}.

(** Two tables whose columns start and end alike. *)
Definition df_rise : ToolExecutor.DataFrame :=
  <["sales" := [Some (ToolExecutor.VInt 2); Some (ToolExecutor.VInt 9);
                Some (ToolExecutor.VInt 3)]]> ∅.
Definition df_gap : ToolExecutor.DataFrame :=
  <["sales" := [None; Some (ToolExecutor.VInt 2); None;
                Some (ToolExecutor.VInt 3)]]> ∅.

(** A server with no store yet, a PDF library that opens nothing, a CSV
    reader and a JSON reader that reject every file, a decoder that
    keeps the bytes, and a model that answers with rows of 384 zeros. *)
Definition fresh : Server.state (F := Q) :=
  {| Server._faiss_store := None;
     Server.uploaded_files := [];
     Server.csv_dataframes := [] |}.
Definition no_pdf (tmp : string) : result (list string) :=
  Raise FileNotFoundError.
Definition no_csv (tmp : string) : result (string * ToolExecutor.DataFrame) :=
  Raise ValueError.
Definition no_json (tmp : string) : result string := Raise ValueError.
Definition as_text (tmp : string) : string := tmp.
Definition zeros (texts : list pyval) : ndarray Q :=
  Ndarray 384 (map (fun _ => replicate 384 0%Q) texts).

(** A model of another width: rows of three zeros. *)
Definition narrow (texts : list pyval) : ndarray Q :=
  Ndarray 3 (map (fun _ => replicate 3 0%Q) texts).

(** The server after the upload of a text of two sentences: its store
    holds one vector. *)
Definition stocked : Server.state (F := Q) :=
  snd (Server.upload_file FileRouter.Posix no_pdf no_csv no_json as_text
         zeros (Some "a.txt"%string) "Hello there. Bye." fresh).

End Inputs.
(** * Properties *)

(** The comparison of the rationals is a total preorder. *)
#[global] Instance Q_scalar_order : ScalarOrder Q.
Proof.
  split; simpl.
  - intros x y. rewrite !Qle_bool_iff.
    destruct (Qlt_le_dec x y) as [Hlt|Hle]; [left; by apply Qlt_le_weak | by right].
  - intros x y z. rewrite !Qle_bool_iff. apply Qle_trans.
Qed.

(** ** The index *)

Module FaissFacts.
Section Facts.
Context {F : Type} `{Scalar F}.

Lemma insert_hit_perm (h : F * Z) l : Faiss.insert_hit h l ≡ₚ h :: l.
Proof.
  induction l as [|h' l IH]; simpl; [done|].
  destruct (fleb (fst h) (fst h')); [done|].
  rewrite IH. apply Permutation_swap.
Qed.

Lemma sort_hits_perm (l : list (F * Z)) : Faiss.sort_hits l ≡ₚ l.
Proof.
  induction l as [|h l IH]; simpl; [done|].
  rewrite insert_hit_perm. by rewrite IH.
Qed.

Lemma sort_hits_length (l : list (F * Z)) :
  length (Faiss.sort_hits l) = length l.
Proof. by rewrite sort_hits_perm. Qed.

Lemma all_hits_length ix (q : list F) :
  length (Faiss.all_hits ix q) = Faiss.ntotal ix.
Proof. unfold Faiss.all_hits, Faiss.ntotal. by rewrite length_imap. Qed.

Lemma all_hits_elem ix (q : list F) (h : F * Z) :
  h ∈ Faiss.all_hits ix q ->
  exists i v, Faiss.xb ix !! i = Some v /\
              h = (Faiss.fvec_L2sqr q v, Z.of_nat i).
Proof.
  unfold Faiss.all_hits. intros Hin.
  apply list_elem_of_lookup in Hin as [i Hi].
  rewrite list_lookup_imap in Hi.
  destruct (Faiss.xb ix !! i) as [v|] eqn:Hv; simpl in Hi; [|done].
  exists i, v. split; [done|]. congruence.
Qed.

Lemma all_hits_intro ix (q : list F) (i : nat) (v : list F) :
  Faiss.xb ix !! i = Some v ->
  (Faiss.fvec_L2sqr q v, Z.of_nat i) ∈ Faiss.all_hits ix q.
Proof.
  intros Hv. apply list_elem_of_lookup. exists i.
  unfold Faiss.all_hits. by rewrite list_lookup_imap, Hv.
Qed.

Section Sorted.

Lemma comparable_subseteq (ds ds' : list F) :
  (forall x, x ∈ ds' -> x ∈ ds) -> comparable ds -> comparable ds'.
Proof.
  intros Hsub [Htot Htrans]. split.
  - intros x y Hx Hy. apply Htot; by apply Hsub.
  - intros x y z Hx Hy Hz. apply Htrans; by apply Hsub.
Qed.

(** A total preorder on the whole type is one on every list. *)
Lemma order_comparable `{!ScalarOrder F} (ds : list F) : comparable ds.
Proof.
  split.
  - intros x y _ _. apply fleb_total.
  - intros x y z _ _ _. apply fleb_trans.
Qed.

Lemma insert_hit_sorted (h : F * Z) l :
  comparable (fst h :: l.*1) ->
  StronglySorted Faiss.hit_le l ->
  StronglySorted Faiss.hit_le (Faiss.insert_hit h l).
Proof.
  intros Hcmp. induction 1 as [|h' l Hs IH Hall]; simpl.
  - constructor; constructor.
  - destruct Hcmp as [Htot Htrans].
    destruct (fleb (fst h) (fst h')) eqn:Hle.
    + constructor; [by constructor|].
      constructor; [done|].
      rewrite Forall_forall in Hall. apply Forall_forall. intros x Hx.
      unfold Faiss.hit_le in *.
      apply (Htrans _ (fst h'));
        [by left | right; by left
        | right; right; by apply list_elem_of_fmap_2
        | done | by apply Hall].
    + constructor.
      * apply IH. apply (comparable_subseteq (fst h :: (h' :: l).*1));
          [|by split].
        intros x [->|Hx]%elem_of_cons; [by left | right; by right].
      * rewrite insert_hit_perm. constructor; [|done].
        unfold Faiss.hit_le.
        destruct (Htot (fst h) (fst h'));
          [by left | right; by left | congruence | done].
Qed.

Lemma sort_hits_sorted (l : list (F * Z)) :
  comparable l.*1 -> StronglySorted Faiss.hit_le (Faiss.sort_hits l).
Proof.
  induction l as [|h l IH]; simpl; intros Hcmp; [constructor|].
  apply insert_hit_sorted.
  - apply (comparable_subseteq ((h :: l).*1)); [|done].
    intros x Hx. rewrite fmap_cons. rewrite sort_hits_perm in Hx. done.
  - apply IH. apply (comparable_subseteq ((h :: l).*1)); [|done].
    intros x Hx. by right.
Qed.

Lemma take_sorted (k : nat) (l : list (F * Z)) :
  StronglySorted Faiss.hit_le l -> StronglySorted Faiss.hit_le (take k l).
Proof.
  intros Hs. revert k.
  induction Hs as [|h l Hs IH Hall]; intros [|k]; simpl; try constructor.
  - apply IH.
  - eapply Forall_take in Hall. exact Hall.
Qed.

(** The first hit of a result row is at least as close as any hit of the
    scan. *)
Lemma sort_hits_head_least (k : nat) (l : list (F * Z)) (h0 h : F * Z) :
  comparable l.*1 ->
  head (take k (Faiss.sort_hits l)) = Some h0 ->
  h ∈ l ->
  Faiss.hit_le h0 h.
Proof.
  intros Hcmp Hhead Hin.
  pose proof (sort_hits_sorted l Hcmp) as Hs.
  assert (Hh0 : h0 ∈ l).
  { rewrite <- sort_hits_perm.
    destruct (Faiss.sort_hits l) as [|h1 rest]; [by destruct k|].
    destruct k as [|k]; [done|]. simpl in Hhead. injection Hhead as ->.
    by left. }
  rewrite <- sort_hits_perm in Hin.
  destruct (Faiss.sort_hits l) as [|h1 rest]; [by destruct k|].
  destruct k as [|k]; [done|]. simpl in Hhead. injection Hhead as ->.
  apply StronglySorted_inv in Hs as [_ Hall].
  apply elem_of_cons in Hin as [->|Hin].
  - unfold Faiss.hit_le. destruct Hcmp as [Htot _].
    assert (Hm : fst h0 ∈ l.*1) by (by apply list_elem_of_fmap_2).
    by destruct (Htot _ _ Hm Hm).
  - rewrite Forall_forall in Hall. by apply Hall.
Qed.

End Sorted.

(** With no more neighbours asked for than the index holds, a result row
    is a prefix of the sorted hits: it needs no padding. *)
Lemma knn_full ix (q : list F) (k : nat) :
  (k <= Faiss.ntotal ix)%nat ->
  Faiss.knn ix q k = take k (Faiss.sort_hits (Faiss.all_hits ix q)).
Proof.
  intros Hk. unfold Faiss.knn.
  replace (k - Faiss.ntotal ix)%nat with 0%nat by lia.
  simpl. by rewrite app_nil_r.
Qed.

Lemma knn_full_length ix (q : list F) (k : nat) :
  (k <= Faiss.ntotal ix)%nat -> length (Faiss.knn ix q k) = k.
Proof.
  intros Hk. rewrite knn_full by done.
  rewrite length_take, sort_hits_length, all_hits_length. lia.
Qed.

Lemma knn_full_elem ix (q : list F) (k : nat) (h : F * Z) :
  (k <= Faiss.ntotal ix)%nat ->
  h ∈ Faiss.knn ix q k ->
  exists i v, Faiss.xb ix !! i = Some v /\
              h = (Faiss.fvec_L2sqr q v, Z.of_nat i).
Proof.
  intros Hk. rewrite knn_full by done. intros Hin.
  apply (all_hits_elem ix q).
  rewrite <- sort_hits_perm. eapply subseteq_take. exact Hin.
Qed.

End Facts.
End FaissFacts.

(** ** Floating-point numbers *)

Module SpecFloatFacts.
Import Float32.
Section Rounding.
Variables prec emax : Z.

Lemma shr_1_nonneg (mrs : shr_record) :
  0 <= shr_m mrs -> 0 <= shr_m (shr_1 mrs).
Proof.
  destruct mrs as [m r s]. simpl.
  destruct m as [|[p|p|]|[p|p|]]; simpl; lia.
Qed.

Lemma iter_shr_1_nonneg (p : positive) (mrs : shr_record) :
  0 <= shr_m mrs -> 0 <= shr_m (SpecFloat.iter_pos shr_1 p mrs).
Proof.
  revert mrs. induction p as [p IH|p IH|]; intros mrs Hm; simpl.
  - apply IH, IH. by apply shr_1_nonneg.
  - by apply IH, IH.
  - by apply shr_1_nonneg.
Qed.

Lemma shr_fexp_nonneg (m e : Z) (l : location) :
  0 <= m -> 0 <= shr_m (fst (shr_fexp prec emax m e l)).
Proof.
  intros Hm. unfold shr_fexp, shr.
  assert (H0 : 0 <= shr_m (shr_record_of_loc m l)).
  { by destruct l as [|[]]. }
  destruct (fexp prec emax (Zdigits2 m + e) - e); simpl; try done.
  by apply iter_shr_1_nonneg.
Qed.

Lemma round_nearest_even_nonneg (m : Z) (l : location) :
  0 <= m -> 0 <= round_nearest_even m l.
Proof.
  intros Hm. destruct l as [|[]]; simpl; try lia.
  destruct (Z.even m); lia.
Qed.

(** Rounding a mantissa that is not negative gives no NaN, and a float
    of the sign asked for. *)
Lemma binary_round_aux_signed (sx : bool) (mx ex : Z) (lx : location) :
  0 <= mx -> signed sx (binary_round_aux prec emax sx mx ex lx).
Proof.
  intros Hm. unfold binary_round_aux.
  pose proof (shr_fexp_nonneg mx ex lx Hm) as H1.
  destruct (shr_fexp prec emax mx ex lx) as [mrs' e']. simpl in H1.
  pose proof (shr_fexp_nonneg
                (round_nearest_even (shr_m mrs') (loc_of_shr_record mrs'))
                e' loc_Exact
                (round_nearest_even_nonneg _ _ H1)) as H2.
  destruct (shr_fexp prec emax _ e' loc_Exact) as [mrs'' e'']. simpl in H2.
  destruct (shr_m mrs'') as [|m|m]; simpl; [done| |lia].
  by destruct (e'' <=? emax - prec)%Z.
Qed.

Lemma binary_round_signed (sx : bool) (mx : positive) (ex : Z) :
  signed sx (binary_round prec emax sx mx ex).
Proof.
  unfold binary_round. destruct (shl_align _ _ _) as [mz ez].
  by apply binary_round_aux_signed.
Qed.

Lemma binary_normalize_not_nan (m e : Z) (szero : bool) :
  binary_normalize prec emax m e szero <> S754_nan.
Proof.
  destruct m as [|p|p]; simpl; [done|..].
  - pose proof (binary_round_signed false p e) as Hs.
    by destruct (binary_round prec emax false p e).
  - pose proof (binary_round_signed true p e) as Hs.
    by destruct (binary_round prec emax true p e).
Qed.

(** The square of a float that is no NaN is no NaN and not negative. *)
Lemma SFmul_square (x : float) :
  is_nan x = false -> signed false (SFmul prec emax x x).
Proof.
  destruct x as [s|s| |s m e]; simpl; try done; intros _.
  - by destruct s.
  - by destruct s.
  - replace (xorb s s) with false by (by destruct s).
    by apply binary_round_aux_signed.
Qed.

(** Subtracting finite floats gives no NaN. *)
Lemma SFsub_finite (x y : float) :
  is_finite x = true -> is_finite y = true ->
  is_nan (SFsub prec emax x y) = false.
Proof.
  destruct x as [sx|sx| |sx mx ex], y as [sy|sy| |sy my ey]; simpl;
    try done; intros _ _.
  - by destruct sx, sy.
  - pose proof (binary_normalize_not_nan
      (cond_Zopp sx (Zpos (fst (shl_align mx ex (Z.min ex ey))))
       - cond_Zopp sy (Zpos (fst (shl_align my ey (Z.min ex ey)))))
      (Z.min ex ey) false) as Hn.
    by destruct (binary_normalize _ _ _ _ _).
Qed.

(** A finite float minus itself is the positive zero. *)
Lemma SFsub_diag (x : float) :
  is_finite x = true -> SFsub prec emax x x = S754_zero false.
Proof.
  destruct x as [s|s| |s m e]; simpl; try done; intros _.
  - by destruct s.
  - by rewrite Z.sub_diag.
Qed.

(** The sum of two floats that are not negative is not negative. *)
Lemma SFadd_nonneg (x y : float) :
  signed false x -> signed false y -> signed false (SFadd prec emax x y).
Proof.
  destruct x as [sx|sx| |sx mx ex], y as [sy|sy| |sy my ey]; simpl;
    try done; intros -> ->; try done.
  simpl.
  destruct (shl_align mx ex (Z.min ex ey)) as [m1 e1].
  destruct (shl_align my ey (Z.min ex ey)) as [m2 e2]. simpl.
  apply binary_round_signed.
Qed.

End Rounding.
End SpecFloatFacts.

Module Float32Facts.
Import Float32.

Lemma compare_cont_refl (m : positive) : Pos.compare_cont Eq m m = Eq.
Proof. apply Pos.compare_refl. Qed.

(** The comparison of two floats, neither of them a NaN, as an order on
    integers: the rank of a float. *)
Lemma SFcompare_some (x y : float) :
  is_nan x = false -> is_nan y = false ->
  exists c, SFcompare x y = Some c /\ SFcompare y x = Some (CompOpp c).
Proof.
  intros Hx Hy.
  destruct x as [sx|sx| |sx mx ex], y as [sy|sy| |sy my ey]; try done;
    simpl; try (destruct sx; try destruct sy; by eexists).
  destruct sx, sy; try (by eexists).
  - rewrite (Z.compare_antisym ey ex).
    destruct (ey ?= ex)%Z eqn:He; simpl; try (by eexists).
    eexists. split; [done|].
    change (Pos.compare_cont Eq mx my) with (mx ?= my)%positive.
    change (Pos.compare_cont Eq my mx) with (my ?= mx)%positive.
    rewrite (Pos.compare_antisym my mx). by destruct (my ?= mx)%positive.
  - rewrite (Z.compare_antisym ey ex).
    destruct (ey ?= ex)%Z eqn:He; simpl; try (by eexists).
    eexists. split; [done|].
    change (Pos.compare_cont Eq mx my) with (mx ?= my)%positive.
    change (Pos.compare_cont Eq my mx) with (my ?= mx)%positive.
    rewrite (Pos.compare_antisym my mx). by destruct (my ?= mx)%positive.
Qed.

Lemma SFleb_total (x y : float) :
  is_nan x = false -> is_nan y = false ->
  SFleb x y = true \/ SFleb y x = true.
Proof.
  intros Hx Hy. unfold SFleb.
  destruct (SFcompare_some x y Hx Hy) as (c & -> & ->).
  destruct c; simpl; auto.
Qed.

Lemma SFleb_rank (x y : float) :
  is_nan x = false -> is_nan y = false ->
  SFleb x y = true <-> lex_le (rank x) (rank y).
Proof.
  intros Hx Hy. unfold SFleb.
  destruct x as [sx|sx| |sx mx ex], y as [sy|sy| |sy my ey]; try done;
    simpl; try (destruct sx; try destruct sy; simpl; split; (done || lia)).
  change (Pos.compare_cont Eq mx my) with (mx ?= my)%positive.
  destruct sx, sy; simpl; try (split; (done || lia)).
  - destruct (Z.compare_spec ex ey) as [->| |];
      [destruct (Pos.compare_spec mx my) as [->| |]|..]; simpl;
      split; (done || lia).
  - destruct (Z.compare_spec ex ey) as [->| |];
      [destruct (Pos.compare_spec mx my) as [->| |]|..]; simpl;
      split; (done || lia).
Qed.

Lemma SFleb_trans (x y z : float) :
  is_nan x = false -> is_nan y = false -> is_nan z = false ->
  SFleb x y = true -> SFleb y z = true -> SFleb x z = true.
Proof.
  intros Hx Hy Hz. rewrite !SFleb_rank by done.
  destruct (rank x) as [[x1 x2] x3], (rank y) as [[y1 y2] y3],
    (rank z) as [[z1 z2] z3]. unfold lex_le. lia.
Qed.

(** Floats none of which is a NaN are comparable. *)
Lemma not_nan_comparable (ds : list float) :
  Forall (fun d => is_nan d = false) ds -> comparable ds.
Proof.
  rewrite Forall_forall. intros Hds. split.
  - intros x y Hx Hy. apply SFleb_total; by apply Hds.
  - intros x y z Hx Hy Hz. apply SFleb_trans; by apply Hds.
Qed.

End Float32Facts.

(** ** JSON *)

Module JsonFacts.

Lemma pyval_size_elem (l : list pyval) (v : pyval) :
  v ∈ l -> (pyval_size v < pyval_size (PyList l))%nat.
Proof.
  simpl. induction 1 as [v l|v w l Hin IH]; simpl; lia.
Qed.

Lemma pyval_size_lookup (m : gmap string pyval) (k : string) (v : pyval) :
  m !! k = Some v -> (pyval_size v < pyval_size (PyDict m))%nat.
Proof.
  simpl. induction m as [|i x m Hi Hfold IH] using map_first_key_ind.
  - by rewrite lookup_empty.
  - rewrite map_fold_insert_first_key by done.
    intros Hl. destruct (decide (i = k)) as [->|Hne].
    + rewrite lookup_insert_eq in Hl. injection Hl as ->. lia.
    + rewrite lookup_insert_ne in Hl by done. specialize (IH Hl). lia.
Qed.

Lemma json_value_lookup (m : gmap string pyval) (k : string) (v : pyval) :
  json_value (PyDict m) = true -> m !! k = Some v -> json_value v = true.
Proof.
  simpl. induction m as [|i x m Hi Hfold IH] using map_first_key_ind.
  - by rewrite lookup_empty.
  - rewrite map_fold_insert_first_key by done.
    intros [Hx Hm]%andb_true_iff Hl.
    destruct (decide (i = k)) as [->|Hne].
    + rewrite lookup_insert_eq in Hl. by injection Hl as <-.
    + rewrite lookup_insert_ne in Hl by done. by apply IH.
Qed.

(** Decoding what the encoder wrote gives the value back, for a value
    that holds no tuple. *)
Lemma of_to_json (v : pyval) : json_value v = true -> of_json (to_json v) = v.
Proof.
  remember (pyval_size v) as n eqn:Hn.
  revert v Hn. induction n as [n IH] using lt_wf_ind. intros v -> Hv.
  destruct v as [| | | | |l|m|l]; simpl; try done.
  - f_equal. rewrite map_map.
    transitivity (id <$> l); [|by rewrite list_fmap_id].
    simpl in Hv. rewrite forallb_forall in Hv.
    apply Forall_fmap_ext, Forall_forall. intros x Hx.
    eapply IH; [|done|].
    + by apply pyval_size_elem.
    + apply Hv. by apply list_elem_of_In.
  - f_equal.
    assert (Hperm :
      reverse (map (fun kv => (fst kv, of_json (snd kv)))
                   (map_to_list (to_json <$> m))) ≡ₚ map_to_list m).
    { rewrite reverse_Permutation, map_to_list_fmap.
      change (map ?f ?l) with (f <$> l).
      rewrite <- list_fmap_compose.
      rewrite <- (list_fmap_id (map_to_list m)) at 2.
      apply reflexive_eq, Forall_fmap_ext, Forall_forall.
      intros [k x] Hx. apply elem_of_map_to_list in Hx. simpl. f_equal.
      eapply IH; [|done|].
      - by eapply pyval_size_lookup.
      - by eapply json_value_lookup. }
    rewrite <- (list_to_map_to_list m) at 2.
    apply list_to_map_proper; [|done].
    rewrite Hperm. apply NoDup_fst_map_to_list.
Qed.

Lemma dict_of_to_json (m : gmap string pyval) :
  json_payload m = true -> dict_of_json (dict_to_json m) = m.
Proof.
  intros Hm. pose proof (of_to_json (PyDict m) Hm) as Heq. simpl in Heq.
  by injection Heq.
Qed.

Lemma chunks_of_to_json (cs : list (gmap string pyval)) :
  Forall (fun c => json_payload c = true) cs ->
  map dict_of_json (map dict_to_json cs) = cs.
Proof.
  induction 1 as [|c cs Hc _ IH]; simpl; [done|].
  by rewrite dict_of_to_json, IH.
Qed.

(** The two artifacts of a store have different paths. *)
Lemma path_join_inj (directory a b : string) :
  path_join directory a = path_join directory b -> a = b.
Proof.
  unfold path_join.
  destruct (get _ directory) as [c|]; [|done].
  destruct (Ascii.eqb c "/"); intros Heq.
  - by apply String.app_inj in Heq.
  - apply String.app_inj in Heq. by apply (String.app_inj "/") in Heq.
Qed.

End JsonFacts.

(** ** The store *)

Module StoreFacts.
Import FAISSStore.
Section Facts.
Context {F : Type} `{Scalar F}.

Lemma py_getitem_head {A} (a : A) (l : list A) : py_getitem (a :: l) 0 = Ok a.
Proof.
  unfold py_getitem. rewrite (decide_False (P := 0 < 0)) by lia.
  rewrite decide_True by (simpl length; lia). done.
Qed.

Lemma py_getitem_valid `{!Inhabited A} (l : list A) (i : Z) :
  0 <= i < Z.of_nat (length l) -> py_getitem l i = Ok (l !!! Z.to_nat i).
Proof.
  intros Hi. unfold py_getitem. rewrite (decide_False (P := i < 0)) by lia.
  rewrite decide_True by lia.
  destruct (l !! Z.to_nat i) as [a|] eqn:Ha.
  - by rewrite (list_lookup_total_correct _ _ _ Ha).
  - apply lookup_ge_None in Ha. lia.
Qed.

(** *** [add] *)

Lemma add_success (e : ndarray F) cs (s : store F) :
  shape0 e = length cs ->
  ncols e = Faiss.d (index s) ->
  add e cs s =
    (Ok tt, {| dimension := dimension s;
               index := {| Faiss.d := Faiss.d (index s);
                           Faiss.xb := Faiss.xb (index s) ++ rows e |};
               chunks := chunks s ++ cs |}).
Proof.
  intros Hn Hd. unfold add.
  rewrite decide_False by (intros Hne; by apply Hne).
  unfold bind, get_index, lift, Faiss.add.
  by rewrite decide_True.
Qed.

Lemma add_count_mismatch (e : ndarray F) cs (s : store F) :
  shape0 e <> length cs -> add e cs s = (Raise ValueError, s).
Proof. intros Hn. unfold add. by rewrite decide_True. Qed.

Lemma add_dimension_mismatch (e : ndarray F) cs (s : store F) :
  shape0 e = length cs ->
  ncols e <> Faiss.d (index s) ->
  add e cs s = (Raise AssertionError, s).
Proof.
  intros Hn Hd. unfold add.
  rewrite decide_False by (intros Hne; by apply Hne).
  unfold bind, get_index, lift, Faiss.add.
  by rewrite decide_False.
Qed.

Lemma count_eq (s : store F) : count s = (Ok (Faiss.ntotal (index s)), s).
Proof. reflexivity. Qed.

(** *** The invariant of reachable stores *)

Lemma init_well_formed (dim : nat) : well_formed (__init__ dim : store F).
Proof. split; reflexivity. Qed.

Lemma add_well_formed (e : ndarray F) cs (s : store F) :
  well_formed s -> well_formed (snd (add e cs s)).
Proof.
  intros [Hd Hlen].
  destruct (decide (shape0 e = length cs)) as [Hn|Hn].
  - destruct (decide (ncols e = Faiss.d (index s))) as [Hc|Hc].
    + rewrite add_success by done. split; simpl; [done|].
      unfold Faiss.ntotal in *. simpl. rewrite !length_app.
      unfold shape0 in Hn. lia.
    + rewrite add_dimension_mismatch by done. by split.
  - rewrite add_count_mismatch by done. by split.
Qed.

Lemma reach_well_formed log (s : store F) : reach log s -> well_formed s.
Proof.
  induction 1; [apply init_well_formed | by apply add_well_formed].
Qed.

Lemma reach_log log (s : store F) :
  reach log s ->
  Faiss.xb (index s) = log.*1 /\ chunks s = log.*2.
Proof.
  induction 1 as [dim|log s e cs Hr [IHx IHc] Hn Hrect Hd].
  - done.
  - pose proof (reach_well_formed _ _ Hr) as [Hwd _].
    rewrite add_success by congruence. simpl.
    rewrite !fmap_app, IHx, IHc.
    unfold shape0 in Hn.
    by rewrite fst_zip, snd_zip by lia.
Qed.

(** *** [search] *)

Lemma search_loop_state (hits : list (F * Z)) acc (s : store F) :
  snd (search_loop hits acc s) = s.
Proof.
  revert acc. induction hits as [|[dist idx] hits IH]; intros acc; simpl.
  - done.
  - case_decide; [apply IH|].
    unfold bind, get_chunks, lift.
    destruct (py_getitem (chunks s) idx); [apply IH | done].
Qed.

Lemma search_loop_valid (hits : list (F * Z)) acc (s : store F) :
  Forall (fun h => 0 <= snd h < Z.of_nat (length (chunks s))) hits ->
  search_loop hits acc s = (Ok (acc ++ map (match_of (chunks s)) hits), s).
Proof.
  intros Hall. revert acc.
  induction Hall as [|[dist idx] hits Hh Hall IH]; intros acc; simpl.
  - by rewrite app_nil_r.
  - simpl in Hh. rewrite decide_False by lia.
    unfold bind, get_chunks, lift.
    rewrite py_getitem_valid by done.
    rewrite IH. by rewrite <- app_assoc.
Qed.

(** On a store that holds vectors, [search] returns the matches of the
    first [min(top_k, ntotal)] hits of the sorted scan. *)
Lemma search_populated (s : store F) (q : query_embedding F) (top_k : Z)
    (qv : list F) (others : list (list F)) :
  well_formed s ->
  Faiss.ntotal (index s) <> 0%nat ->
  0 < top_k ->
  ncols (as_matrix q) = dimension s ->
  rows (as_matrix q) = qv :: others ->
  search q top_k s =
    (Ok (map (match_of (chunks s))
             (take (Z.to_nat (Z.min top_k (Z.of_nat (Faiss.ntotal (index s)))))
                   (Faiss.sort_hits (Faiss.all_hits (index s) qv)))), s).
Proof.
  intros [Hd Hlen] Hne Hk Hcols Hrows.
  unfold search, bind, get_index.
  rewrite decide_False by done.
  unfold lift, Faiss.search.
  rewrite decide_True by congruence.
  rewrite decide_True by lia.
  rewrite Hrows. simpl map. simpl fst. simpl snd.
  rewrite !py_getitem_head, zip_fst_snd.
  set (k := Z.to_nat (Z.min top_k (Z.of_nat (Faiss.ntotal (index s))))).
  assert (Hkn : (k <= Faiss.ntotal (index s))%nat) by lia.
  rewrite search_loop_valid.
  - by rewrite FaissFacts.knn_full.
  - apply Forall_forall. intros h Hin.
    apply FaissFacts.knn_full_elem in Hin as (i & v & Hv & ->); [|done].
    apply lookup_lt_Some in Hv. simpl.
    unfold Faiss.ntotal in Hlen. lia.
Qed.

Lemma search_empty (s : store F) (q : query_embedding F) (top_k : Z) :
  Faiss.ntotal (index s) = 0%nat -> search q top_k s = (Ok [], s).
Proof.
  intros H0. unfold search, bind, get_index. by rewrite decide_True.
Qed.

(** *** [save] *)

(** The two files a [save] that returns has left. *)
Lemma saved_files {image : Type}
    (write_image : Faiss.IndexFlatL2 F -> image)
    (refused : syscall -> filesystem image -> option exn)
    (s : store F) (directory : string) (fs fs' : filesystem image) :
  save write_image refused s directory fs = (Ok tt, fs') ->
  files fs' !! path_join directory "index.faiss"
    = Some (IndexFile (write_image (index s))) /\
  files fs' !! path_join directory "chunks.json"
    = Some (ChunksFile (map dict_to_json (chunks s))).
Proof.
  unfold save, makedirs, write_index, dump_chunks.
  destruct (refused (Makedirs directory) fs); [done|].
  destruct (refused (WriteIndex _) fs); [done|].
  destruct (refused (OpenWrite _) _); [done|].
  intros [= <-]. simpl.
  assert (Hne : path_join directory "chunks.json"
                <> path_join directory "index.faiss").
  { intros Heq. apply JsonFacts.path_join_inj in Heq. discriminate Heq. }
  by rewrite (lookup_insert_ne _ _ _ _ Hne), !lookup_insert_eq.
Qed.

(** The distances of the scan are those from the query to the stored
    vectors, in order. *)
Lemma all_hits_distances ix (q : list F) :
  (Faiss.all_hits ix q).*1 = map (Faiss.fvec_L2sqr q) (Faiss.xb ix).
Proof.
  unfold Faiss.all_hits. apply list_eq. intros i.
  change (map ?f ?l) with (f <$> l).
  rewrite !list_lookup_fmap, list_lookup_imap.
  by destruct (Faiss.xb ix !! i).
Qed.

(** The matches of the whole scan are the pairs that were added, each
    with its distance to the query. *)
Lemma matches_of_all_hits log (s : store F) (qv : list F) :
  reach log s ->
  match_of (chunks s) <$> Faiss.all_hits (index s) qv =
  map (fun vp =>
         {| text := default (PyStr "") (snd vp !! "text");
            metadata := default (PyDict ∅) (snd vp !! "metadata");
            score := Faiss.fvec_L2sqr qv (fst vp) |}) log.
Proof.
  intros Hr. destruct (reach_log _ _ Hr) as [Hx Hc].
  unfold Faiss.all_hits. rewrite Hx, Hc.
  apply list_eq. intros i.
  change (map ?f ?l) with (f <$> l).
  rewrite !list_lookup_fmap, list_lookup_imap, list_lookup_fmap.
  destruct (log !! i) as [[v p]|] eqn:Hi; simpl; [|done].
  unfold match_of. simpl. rewrite Nat2Z.id.
  rewrite (list_lookup_total_correct (log.*2) i p); [done|].
  by rewrite list_lookup_fmap, Hi.
Qed.

End Facts.
End StoreFacts.

Module StoreClaims.
Import FAISSStore StoreFacts.
Section Claims.
Context {F : Type} `{Scalar F}.

(** C1. In every store reached from a fresh one by [add] calls whose
    preconditions hold, the vectors of the index and the payloads stay
    aligned: [count()] is the number of payloads, the i-th vector paired
    with the i-th payload is the i-th pair that was added, and the payload
    of a pair is found in the payload list under the position of its
    vector, which is the label the index reports for it. *)
Theorem payloads_aligned_with_index
    (log : list (list F * gmap string pyval)) (s : store F) :
  reach log s ->
  fst (count s) = Ok (length (chunks s)) /\
  zip (Faiss.xb (index s)) (chunks s) = log /\
  forall (i : nat) v p,
    log !! i = Some (v, p) ->
    Faiss.xb (index s) !! i = Some v /\
    py_getitem (chunks s) (Z.of_nat i) = Ok p.
Proof.
  intros Hr.
  destruct (reach_well_formed _ _ Hr) as [_ Hlen].
  destruct (reach_log _ _ Hr) as [Hx Hc].
  split; [by rewrite count_eq, Hlen|].
  split; [by rewrite Hx, Hc, zip_fst_snd|].
  intros i v p Hi. rewrite Hx, Hc. split.
  - by rewrite list_lookup_fmap, Hi.
  - assert (Hp : log.*2 !! i = Some p) by (by rewrite list_lookup_fmap, Hi).
    rewrite py_getitem_valid.
    + rewrite Nat2Z.id. by rewrite (list_lookup_total_correct _ _ _ Hp).
    + apply lookup_lt_Some in Hp. lia.
Qed.

(** C2. On a well-formed store, an [add] whose matrix has a row count
    other than the number of payloads, or a row whose length is not the
    store's dimension, raises (ValueError for the count, the index's
    AssertionError for the width) and leaves the store as it was: the
    count and the payload list are unchanged. *)
Theorem add_shape_mismatch_leaves_store
    (s : store F) (e : ndarray F) (cs : list (gmap string pyval)) :
  well_formed s ->
  rectangular e ->
  shape0 e <> length cs \/
    Exists (fun v => length v <> dimension s) (rows e) ->
  add e cs s =
    (Raise (if decide (shape0 e = length cs)
            then AssertionError else ValueError), s) /\
  fst (count (snd (add e cs s))) = fst (count s) /\
  chunks (snd (add e cs s)) = chunks s.
Proof.
  intros [Hd _] Hrect Hbad.
  assert (Hadd : add e cs s =
            (Raise (if decide (shape0 e = length cs)
                    then AssertionError else ValueError), s)).
  { destruct (decide (shape0 e = length cs)) as [Hn|Hn].
    - destruct Hbad as [Hbad|Hbad]; [done|].
      apply add_dimension_mismatch; [done|].
      apply Exists_exists in Hbad as (v & Hv & Hlen).
      unfold rectangular in Hrect. rewrite Forall_forall in Hrect.
      specialize (Hrect v Hv). congruence.
    - by apply add_count_mismatch. }
  by rewrite Hadd.
Qed.

(** C5. [count()] is 0 on a fresh store, and a successful [add] of n
    vectors with their n payloads raises it by n. *)
Theorem count_fresh_and_after_add
    (dim : nat) (s s' : store F) (e : ndarray F)
    (cs : list (gmap string pyval)) :
  add e cs s = (Ok tt, s') ->
  fst (count (__init__ dim : store F)) = Ok 0%nat /\
  shape0 e = length cs /\
  exists n : nat,
    fst (count s) = Ok n /\ fst (count s') = Ok (n + shape0 e)%nat.
Proof.
  intros Hadd. split; [done|].
  destruct (decide (shape0 e = length cs)) as [Hn|Hn];
    [|by rewrite add_count_mismatch in Hadd].
  destruct (decide (ncols e = Faiss.d (index s))) as [Hc|Hc];
    [|by rewrite add_dimension_mismatch in Hadd].
  rewrite add_success in Hadd by done.
  split; [done|]. exists (Faiss.ntotal (index s)).
  split; [done|]. injection Hadd as <-.
  rewrite count_eq. unfold Faiss.ntotal, shape0. simpl.
  by rewrite length_app.
Qed.

(** C7. [search] and [count] are reads: whatever they return or raise,
    the store after the call is the store before it, with its dimension,
    its indexed vectors and its payloads. *)
Theorem search_and_count_are_reads
    (s : store F) (q : query_embedding F) (top_k : Z) :
  snd (search q top_k s) = s /\ snd (count s) = s.
Proof.
  split; [|done].
  unfold search, bind, get_index.
  case_decide; [done|].
  unfold lift.
  destruct (Faiss.search _ _ _) as [[ds ls]|]; [|done]. simpl.
  destruct (py_getitem ds 0); [|done].
  destruct (py_getitem ls 0); [|done].
  apply search_loop_state.
Qed.

(** C4. On a well-formed store, for a positive [top_k] and a query of
    the store's dimension, [search] does not raise and returns exactly
    [min(top_k, count())] matches; on an empty store it returns the empty
    list for any query and any [top_k]. *)
Theorem search_returns_min_top_k_count
    (s : store F) (q : query_embedding F) (top_k : Z) :
  well_formed s ->
  0 < top_k ->
  (Faiss.ntotal (index s) <> 0%nat ->
   ncols (as_matrix q) = dimension s /\ rows (as_matrix q) <> []) ->
  (exists (n : nat) (rs : list (Match F)),
      fst (count s) = Ok n /\
      search q top_k s = (Ok rs, s) /\
      Z.of_nat (length rs) = Z.min top_k (Z.of_nat n)) /\
  (Faiss.ntotal (index s) = 0%nat ->
   forall q' top_k', search q' top_k' s = (Ok [], s)).
Proof.
  intros Hwf Hk Hq. split; [|intros H0 q' k'; by apply search_empty].
  exists (Faiss.ntotal (index s)).
  destruct (decide (Faiss.ntotal (index s) = 0%nat)) as [H0|Hne].
  - exists []. rewrite search_empty, count_eq by done. simpl. rewrite H0.
    repeat split. lia.
  - destruct (Hq Hne) as [Hcols Hrows].
    destruct (rows (as_matrix q)) as [|qv others] eqn:Hr; [done|].
    eexists. split; [done|]. split.
    + by eapply search_populated.
    + rewrite length_map, length_take, FaissFacts.sort_hits_length,
        FaissFacts.all_hits_length. lia.
Qed.

(** C3. On a populated store reached by [add] calls, for a positive
    [top_k] and a query of the store's dimension whose distances to the
    stored vectors are comparable (none is a NaN), [search] returns the
    first [min(top_k, count())] of the matches of all the pairs that
    were added, put in non-decreasing order of score: the result is not
    empty, its first match is at least as close as any stored vector,
    the score of a match is the squared L2 distance from the query to
    its vector as the index computed it, and its text and metadata are
    those of the payload added with that vector, the empty string and
    the empty mapping standing in for a missing key. *)
Theorem search_sorted_by_raw_distance
    (log : list (list F * gmap string pyval)) (s : store F)
    (q : query_embedding F) (top_k : Z) (qv : list F)
    (others : list (list F)) :
  reach log s ->
  log <> [] ->
  0 < top_k ->
  ncols (as_matrix q) = dimension s ->
  rows (as_matrix q) = qv :: others ->
  comparable (map (fun vp => Faiss.fvec_L2sqr qv (fst vp)) log) ->
  exists ordered rs : list (Match F),
    ordered ≡ₚ
      map (fun vp =>
             {| text := default (PyStr "") (snd vp !! "text");
                metadata := default (PyDict ∅) (snd vp !! "metadata");
                score := Faiss.fvec_L2sqr qv (fst vp) |}) log /\
    StronglySorted (fun a b => fleb (score a) (score b) = true) ordered /\
    rs = take (Z.to_nat (Z.min top_k (Z.of_nat (length log)))) ordered /\
    search q top_k s = (Ok rs, s) /\
    rs <> [] /\
    (forall r0 (i : nat) v p,
       head rs = Some r0 ->
       log !! i = Some (v, p) ->
       fleb (score r0) (Faiss.fvec_L2sqr qv v) = true).
Proof.
  intros Hr Hlog Hk Hcols Hrows Hcmp.
  pose proof (reach_well_formed _ _ Hr) as Hwf.
  destruct (reach_log _ _ Hr) as [Hx Hc].
  assert (Hn : Faiss.ntotal (index s) = length log).
  { unfold Faiss.ntotal. by rewrite Hx, length_fmap. }
  assert (Hne : Faiss.ntotal (index s) <> 0%nat).
  { rewrite Hn. by destruct log. }
  assert (Hcmp' : comparable (Faiss.all_hits (index s) qv).*1).
  { rewrite all_hits_distances, Hx.
    change (map ?f ?l) with (f <$> l) in *.
    by rewrite <- list_fmap_compose. }
  set (hits := Faiss.sort_hits (Faiss.all_hits (index s) qv)).
  set (k := Z.to_nat (Z.min top_k (Z.of_nat (length log)))).
  assert (Hlen : length hits = length log).
  { unfold hits.
    by rewrite FaissFacts.sort_hits_length, FaissFacts.all_hits_length. }
  exists (match_of (chunks s) <$> hits), (match_of (chunks s) <$> take k hits).
  split.
  { unfold hits. rewrite FaissFacts.sort_hits_perm.
    by rewrite (matches_of_all_hits log). }
  split.
  { apply (StronglySorted_fmap (match_of (chunks s)) Faiss.hit_le);
      [by intros a b Hab|].
    by apply FaissFacts.sort_hits_sorted. }
  split; [by rewrite fmap_take|].
  split.
  { rewrite (search_populated s q top_k qv others) by done.
    unfold k, hits. by rewrite Hn. }
  split.
  { intros Hnil. apply (f_equal length) in Hnil.
    rewrite length_fmap, length_take, Hlen in Hnil. simpl in Hnil.
    assert (length log <> 0%nat) by (by destruct log). lia. }
  intros r0 i v p Hhead Hi.
  destruct (take k hits) as [|h0 rest] eqn:Hh0; simpl in Hhead; [done|].
  injection Hhead as <-. simpl.
  assert (Hh : head (take k hits) = Some h0) by (by rewrite Hh0).
  apply (FaissFacts.sort_hits_head_least _ _ h0
           (Faiss.fvec_L2sqr qv v, Z.of_nat i) Hcmp' Hh).
  apply FaissFacts.all_hits_intro.
  by rewrite Hx, list_lookup_fmap, Hi.
Qed.

(** C6, amended.  When the payloads of a store hold no tuple, [save]
    into a directory returns, and the operating system lets the two
    files be read, loading that directory with the store's dimension
    gives the store back: the count is the same and every search returns
    the same texts, metadata and scores.  The file format of the index
    is the library's: its decoder is taken to return the index its
    encoder was given. *)
Theorem save_load_round_trip {image : Type}
    (write_image : Faiss.IndexFlatL2 F -> image)
    (read_image : image -> result (Faiss.IndexFlatL2 F))
    (refused : syscall -> filesystem image -> option exn)
    (s : store F) (directory : string) (fs fs' : filesystem image) :
  (forall ix, read_image (write_image ix) = Ok ix) ->
  Forall (fun c => json_payload c = true) (chunks s) ->
  save write_image refused s directory fs = (Ok tt, fs') ->
  refused (ReadIndex (path_join directory "index.faiss")) fs' = None ->
  refused (OpenRead (path_join directory "chunks.json")) fs' = None ->
  exists s' : store F,
    load read_image refused directory (dimension s) fs' = Ok s' /\
    s' = s /\
    fst (count s') = fst (count s) /\
    forall q top_k, fst (search q top_k s') = fst (search q top_k s).
Proof.
  intros Hcodec Hjson Hsave Hri Hrc.
  exists s. split; [|done].
  pose proof (saved_files write_image refused s directory fs fs' Hsave)
    as [Hix Hcs].
  unfold load, read_index, read_chunks. rewrite Hri, Hrc, Hix, Hcs. simpl.
  rewrite Hcodec. simpl.
  rewrite JsonFacts.chunks_of_to_json by done. by destruct s.
Qed.

End Claims.
End StoreClaims.

(** ** The store's theorems at a concrete store *)

Module StoreWitnesses.
Import FAISSStore Sample StoreClaims.
#[local] Open Scope Q_scope.

Lemma vectors2_rectangular : rectangular vectors2.
Proof. repeat constructor. Qed.

Lemma near_far_reach : reach log2 near_far.
Proof.
  exact (reach_add [] empty2 vectors2 payloads2 (reach_init 2)
           eq_refl vectors2_rectangular eq_refl).
Qed.

Lemma near_far_well_formed : well_formed near_far.
Proof. split; reflexivity. Qed.

Lemma payloads_aligned_with_index_witness :
  fst (count near_far) = Ok (length (chunks near_far)) /\
  zip (Faiss.xb (index near_far)) (chunks near_far) = log2 /\
  forall (i : nat) v p,
    log2 !! i = Some (v, p) ->
    Faiss.xb (index near_far) !! i = Some v /\
    py_getitem (chunks near_far) (Z.of_nat i) = Ok p.
Proof. exact (payloads_aligned_with_index log2 near_far near_far_reach). Defined.

Lemma add_shape_mismatch_leaves_store_witness :
  add vectors3 payloads1 near_far = (Raise AssertionError, near_far) /\
  fst (count (snd (add vectors3 payloads1 near_far))) = fst (count near_far) /\
  chunks (snd (add vectors3 payloads1 near_far)) = chunks near_far.
Proof.
  apply (add_shape_mismatch_leaves_store near_far vectors3 payloads1).
  - exact near_far_well_formed.
  - repeat constructor.
  - right. constructor. simpl. lia.
Defined.

Lemma count_fresh_and_after_add_witness :
  fst (count (__init__ 2 : store Q)) = Ok 0%nat /\
  shape0 vectors2 = length payloads2 /\
  exists n : nat,
    fst (count empty2) = Ok n /\
    fst (count near_far) = Ok (n + shape0 vectors2)%nat.
Proof.
  apply (count_fresh_and_after_add 2 empty2 near_far vectors2 payloads2).
  reflexivity.
Defined.

Lemma search_returns_min_top_k_count_witness :
  (exists (n : nat) (rs : list (Match Q)),
      fst (count near_far) = Ok n /\
      search (Query1 [1; 1]) 7 near_far = (Ok rs, near_far) /\
      Z.of_nat (length rs) = Z.min 7 (Z.of_nat n)) /\
  (Faiss.ntotal (index near_far) = 0%nat ->
   forall q' top_k', search q' top_k' near_far = (Ok [], near_far)).
Proof.
  apply (search_returns_min_top_k_count near_far (Query1 [1; 1]) 7%Z).
  - exact near_far_well_formed.
  - reflexivity.
  - intros _. split; [reflexivity | discriminate].
Defined.

Lemma near_far32_reach : reach log32 near_far32.
Proof.
  refine (reach_add [] (__init__ 2) vectors32 payloads2 (reach_init 2)
            eq_refl _ eq_refl).
  repeat constructor.
Qed.

Lemma search_sorted_by_raw_distance_witness :
  (exists ordered rs : list (Match Q),
     ordered ≡ₚ
       map (fun vp =>
              {| text := default (PyStr "") (snd vp !! "text");
                 metadata := default (PyDict ∅) (snd vp !! "metadata");
                 score := Faiss.fvec_L2sqr [9; 9] (fst vp) |}) log2 /\
     StronglySorted (fun a b => fleb (score a) (score b) = true) ordered /\
     rs = take (Z.to_nat (Z.min 2 (Z.of_nat (length log2)))) ordered /\
     search (Query1 [9; 9]) 2 near_far = (Ok rs, near_far) /\
     rs <> [] /\
     (forall r0 (i : nat) v p,
        head rs = Some r0 ->
        log2 !! i = Some (v, p) ->
        fleb (score r0) (Faiss.fvec_L2sqr [9; 9] v) = true)) /\
  (exists ordered rs : list (Match Float32.float),
     ordered ≡ₚ
       map (fun vp =>
              {| text := default (PyStr "") (snd vp !! "text");
                 metadata := default (PyDict ∅) (snd vp !! "metadata");
                 score := Faiss.fvec_L2sqr query32 (fst vp) |}) log32 /\
     StronglySorted (fun a b => fleb (score a) (score b) = true) ordered /\
     rs = take (Z.to_nat (Z.min 2 (Z.of_nat (length log32)))) ordered /\
     search (Query1 query32) 2 near_far32 = (Ok rs, near_far32) /\
     rs <> [] /\
     (forall r0 (i : nat) v p,
        head rs = Some r0 ->
        log32 !! i = Some (v, p) ->
        fleb (score r0) (Faiss.fvec_L2sqr query32 v) = true)).
Proof.
  split.
  - apply (search_sorted_by_raw_distance log2 near_far (Query1 [9; 9]) 2%Z
             [9; 9] []).
    + exact near_far_reach.
    + discriminate.
    + reflexivity.
    + reflexivity.
    + reflexivity.
    + apply FaissFacts.order_comparable.
  - apply (search_sorted_by_raw_distance log32 near_far32 (Query1 query32)
             2%Z query32 []).
    + exact near_far32_reach.
    + discriminate.
    + reflexivity.
    + reflexivity.
    + reflexivity.
    + apply Float32Facts.not_nan_comparable.
      repeat (apply Forall_cons; split; [vm_compute; reflexivity|]).
      apply Forall_nil_2.
Defined.

(** C6, as stated, fails on a store whose payload holds a tuple: the
    save and the load return, and the loaded store answers a search with
    a list where the saved store answers with the tuple. *)
Lemma save_load_changes_tuples :
  exists (fs' : filesystem (Faiss.IndexFlatL2 Q)) (s' : store Q),
    save keep plain_os tupled "saved" empty_fs = (Ok tt, fs') /\
    load Ok plain_os "saved" (dimension tupled) fs' = Ok s' /\
    fst (count s') = fst (count tupled) /\
    fst (search (Query1 [0; 0]) 1 s')
      <> fst (search (Query1 [0; 0]) 1 tupled).
Proof.
  eexists _, _. split; [reflexivity|]. split; [reflexivity|].
  split; [reflexivity|].
  vm_compute. intros Heq. discriminate Heq.
Qed.

Lemma save_load_round_trip_witness :
  exists s' : store Q,
    load Ok plain_os "saved" (dimension near_far)
         (snd (save keep plain_os near_far "saved" empty_fs)) = Ok s' /\
    s' = near_far /\
    fst (count s') = fst (count near_far) /\
    forall q top_k,
      fst (search q top_k s') = fst (search q top_k near_far).
Proof.
  apply (save_load_round_trip keep Ok plain_os near_far "saved" empty_fs).
  - reflexivity.
  - repeat constructor.
  - reflexivity.
  - reflexivity.
  - reflexivity.
Defined.

(** The scenarios of the spec's section 8. *)
Example scenario_one_vector :
  let s := snd (add (Ndarray 4 [[1; 0; 0; 0]]) [payload "a"] (__init__ 4)) in
  fst (count s) = Ok 1%nat /\
  fst (search (Query1 [1; 0; 0; 0]) 5 s) =
    Ok [ {| text := PyStr "a"; metadata := PyDict ∅; score := 0 |} ].
Proof. split; reflexivity. Qed.

Example scenario_near_first :
  fst (search (Query1 [1; 1]) 1 near_far) =
    Ok [ {| text := PyStr "near"; metadata := PyDict ∅; score := 2 |} ].
Proof. reflexivity. Qed.

End StoreWitnesses.

(** ** The growth-rate tool *)

Module ToolClaims.
Import Binary64 ToolExecutor Sample.

Lemma dropna_two_ends (series : list value) :
  (2 <= length series)%nat ->
  exists v0 vn, head series = Some v0 /\ last series = Some vn.
Proof.
  destruct series as [|v0 rest]; simpl; [lia|]. intros _.
  exists v0. destruct (last (v0 :: rest)) as [vn|] eqn:Hl; [by eexists|].
  by apply last_None in Hl.
Qed.

(** The dispatcher hands the growth-rate operation to
    [compute_growth_rate]. *)
Lemma execute_growth_rate compute_average compute_sum
    (df : DataFrame) (column : string) :
  execute compute_average compute_sum df "growth_rate" column =
  compute_growth_rate df column.
Proof. reflexivity. Qed.

(** When [float()] raises: OverflowError on an integer whose nearest
    double would be an infinity, ValueError on a string that is no
    float literal, and on nothing else. *)
Lemma py_float_raises (v : value) (e : exn) :
  py_float v = Raise e <->
  (exists n, v = VInt n /\ is_infinite (of_Z n) = true
             /\ e = OverflowError) \/
  (exists s, v = VStr s /\ FloatLiteral.parse s = None /\ e = ValueError).
Proof.
  destruct v as [x|n|b|s]; simpl.
  - split; [done|]. by intros [(n & Hn & _)|(s & Hs & _)].
  - destruct (is_infinite (of_Z n)) eqn:Hinf.
    + split.
      * intros [= <-]. left. by exists n.
      * intros [(n' & [= <-] & _ & ->)|(s & Hs & _)]; done.
    + split; [done|].
      intros [(n' & [= <-] & Hn & _)|(s & Hs & _)]; congruence.
  - split; [done|]. by intros [(n & Hn & _)|(s & Hs & _)].
  - destruct (FloatLiteral.parse s) as [x|] eqn:Hp.
    + split; [done|].
      intros [(n & Hn & _)|(s' & [= <-] & Hs & _)]; congruence.
    + split.
      * intros [= <-]. right. by exists s.
      * intros [(n & Hn & _)|(s' & [= <-] & _ & ->)]; done.
Qed.

(** C8, as stated, fails in three places.  On a column that starts with
    the integer 10^400, and on a column of names, the operation raises
    although the column is present, has two non-null values and its
    first value is not zero; and on the column [3, 4] the [result_pct]
    it returns is the double 33.3333, not ((4 - 3) / 3) * 100. *)
Lemma growth_rate_as_stated_fails :
  (compute_growth_rate df_huge "atoms" = Raise OverflowError /\
   exists col,
     df_huge !! "atoms" = Some col /\
     length (dropna col) = 2%nat /\
     head (dropna col) = Some (VInt (10 ^ 400))) /\
  (compute_growth_rate df_names "name" = Raise ValueError /\
   exists col,
     df_names !! "name" = Some col /\
     length (dropna col) = 2%nat /\
     head (dropna col) = Some (VStr "ada")) /\
  (exists r x,
     compute_growth_rate df_thirds "units" = Ok r /\
     r !! "result_pct" = Some (TFloat x) /\
     x = of_decimal false 333333 (-4) /\
     x <> mul (div (sub (of_Z 4) (of_Z 3)) (of_Z 3)) (of_Z 100)).
Proof.
  split; [|split].
  - split; [by vm_compute|]. eexists. repeat split; by vm_compute.
  - split; [by vm_compute|]. eexists. repeat split; by vm_compute.
  - eexists _, _. split; [by vm_compute|]. split; [by vm_compute|].
    split; [by vm_compute|]. vm_compute. intros Heq. discriminate Heq.
Qed.

(** C8, amended.  The growth-rate operation, called directly or through
    [execute], raises exactly when the column is absent, or has fewer
    than two non-null values, or [float()] raises on its first or on its
    last non-null value, or its first non-null value converts to zero;
    [float()] raises on an integer beyond the range of a double and on a
    string that is no float literal.  Otherwise, with [first] and [last]
    the doubles [float()] returns, the operation reports [round(first,
    4)], [round(last, 4)] and, as [result_pct],
    [round(((last - first) / first) * 100, 4)], each step in binary64
    arithmetic. *)
Theorem growth_rate_rounded_and_failures compute_average compute_sum
    (df : DataFrame) (column : string) :
  execute compute_average compute_sum df "growth_rate" column =
    compute_growth_rate df column /\
  ((exists e, compute_growth_rate df column = Raise e) <->
   (df !! column = None \/
    exists col,
      df !! column = Some col /\
      ((length (dropna col) < 2)%nat \/
       (exists v e, head (dropna col) = Some v /\ py_float v = Raise e) \/
       (exists v e, last (dropna col) = Some v /\ py_float v = Raise e) \/
       (exists v first,
          head (dropna col) = Some v /\ py_float v = Ok first /\
          eqb first (of_Z 0) = true)))) /\
  (forall v e,
     py_float v = Raise e <->
     (exists n, v = VInt n /\ is_infinite (of_Z n) = true
                /\ e = OverflowError) \/
     (exists s, v = VStr s /\ FloatLiteral.parse s = None
                /\ e = ValueError)) /\
  (forall r,
     compute_growth_rate df column = Ok r ->
     exists col v0 vn first last_,
       df !! column = Some col /\
       head (dropna col) = Some v0 /\
       last (dropna col) = Some vn /\
       py_float v0 = Ok first /\
       py_float vn = Ok last_ /\
       r !! "first" = Some (TFloat (round4 first)) /\
       r !! "last" = Some (TFloat (round4 last_)) /\
       r !! "result_pct" =
         Some (TFloat (round4 (mul (div (sub last_ first) first)
                                   (of_Z 100))))).
Proof.
  split; [reflexivity|].
  split; [|split; [apply py_float_raises|]].
  - unfold compute_growth_rate.
    remember (of_Z 0) as zero eqn:Hzero.
    remember (of_Z 100) as hundred eqn:Hhundred.
    destruct (df !! column) as [col|] eqn:Hcol.
    2:{ split; [by left | by eexists]. }
    case_decide as Hlen.
    { split; [|by eexists].
      intros _. right. exists col. split; [done|]. by left. }
    assert (Htwo : (2 <= length (dropna col))%nat) by lia.
    destruct (dropna_two_ends _ Htwo) as (v0 & vn & Hh & Hl).
    rewrite Hh, Hl.
    destruct (py_float v0) as [first|e0] eqn:H0; simpl.
    2:{ split; [|by eexists].
        intros _. right. exists col. split; [done|]. right. left.
        by exists v0, e0. }
    destruct (py_float vn) as [last_|en] eqn:Hn; simpl.
    2:{ split; [|by eexists].
        intros _. right. exists col. split; [done|]. right. right. left.
        by exists vn, en. }
    destruct (eqb first zero) eqn:Hz.
    { split; [|by eexists].
      intros _. right. exists col. split; [done|]. do 3 right.
      by exists v0, first. }
    split; [by intros [e He]|].
    intros [Habs|(col' & Hc & Hbad)]; [done|].
    injection Hc as <-.
    destruct Hbad as [Hbad|[(v & e & Hv & He)|[(v & e & Hv & He)
                     |(v & x & Hv & Hx & Hx0)]]].
    + lia.
    + congruence.
    + congruence.
    + assert (v = v0) as -> by congruence.
      assert (x = first) as -> by congruence. congruence.
  - intros r. unfold compute_growth_rate.
    remember (of_Z 0) as zero eqn:Hzero.
    remember (of_Z 100) as hundred eqn:Hhundred.
    destruct (df !! column) as [col|] eqn:Hcol; [|done].
    case_decide as Hlen; [done|].
    destruct (head (dropna col)) as [v0|] eqn:Hh; [|done].
    destruct (last (dropna col)) as [vn|] eqn:Hl; [|done].
    destruct (py_float v0) as [first|e0] eqn:H0; simpl; [|done].
    destruct (py_float vn) as [last_|en] eqn:Hn; simpl; [|done].
    destruct (eqb first zero) eqn:Hz; [done|].
    intros [= <-]. by exists col, v0, vn, first, last_.
Qed.

(** The scenario of the spec: the column [100, 150] has a growth of 50. *)
Example growth_rate_scenario :
  exists r,
    compute_growth_rate df_growth "revenue" = Ok r /\
    r !! "result_pct" = Some (TFloat (of_Z 50)).
Proof. eexists. split; by vm_compute. Qed.

(** The rate is rounded as a double is: on the column [16000, 16001]
    the rate is the double next above 0.00625, and [round] gives
    0.0063. *)
Example growth_rate_rounds_the_double :
  compute_growth_rate
    (<["v" := [Some (VInt 16000); Some (VInt 16001)]]> ∅) "v"
  = Ok (<["operation" := TStr "growth_rate"]>
        (<["column" := TStr "v"]>
        (<["first" := TFloat (of_Z 16000)]>
        (<["last" := TFloat (of_Z 16001)]>
        (<["result_pct" := TFloat (of_decimal false 63 (-4))]> ∅))))).
Proof. by vm_compute. Qed.

End ToolClaims.

(** ** The chunker *)

Module ChunkerFacts.
Import Chunker.

Lemma render_cons source start g groups :
  render source start (g :: groups) =
  _build_chunk g start source :: render source (S start) groups.
Proof.
  unfold render. rewrite imap_cons. f_equal.
  - f_equal. lia.
  - apply imap_ext. intros i x _. simpl. f_equal. lia.
Qed.

(** Closes an equation between chunk lists that differ in how their
    positions are written. *)
Ltac same_numbering := repeat first [ done | lia | f_equal ].

Lemma render_nil source start : render source start [] = [].
Proof. reflexivity. Qed.

Lemma within_budget_single chunk_size (s : string) :
  within_budget chunk_size [s].
Proof. intros x Hx _. apply list_elem_of_singleton in Hx. by subst. Qed.

Lemma within_budget_small chunk_size (g : list string) :
  Forall (fun s => _estimate_tokens s < chunk_size) g ->
  within_budget chunk_size g.
Proof.
  intros Hg x Hx Hbig. rewrite Forall_forall in Hg.
  specialize (Hg x Hx). lia.
Qed.

(** The loop of [chunk_text] cuts the sentences it is given, after the
    ones it holds, into consecutive non-empty groups and appends one
    chunk per group. *)
Lemma loop_groups (chunk_size : Z) (source : string)
    (sentences : list string) :
  forall (cks : list (gmap string pyval)) (cur : list string) (tok : Z),
  Forall (fun s => _estimate_tokens s < chunk_size) cur ->
  exists groups : list (list string),
    concat groups = cur ++ sentences /\
    Forall (fun g => g <> []) groups /\
    Forall (within_budget chunk_size) groups /\
    finish source
      (fold_left (step chunk_size source) sentences
         {| chunks := cks; current_sentences := cur;
            current_tokens := tok |}) =
      cks ++ render source (length cks) groups /\
    (cur <> [] -> exists g gs, groups = g :: gs /\ cur `prefix_of` g).
Proof.
  induction sentences as [|s rest IH]; intros cks cur tok Hcur.
  - simpl. unfold finish. simpl. destruct cur as [|c cur].
    + exists []. rewrite render_nil, !app_nil_r.
      repeat split; try done; by constructor.
    + exists [c :: cur]. simpl. rewrite !app_nil_r.
      split; [done|]. split; [by repeat constructor|].
      split; [constructor; [by apply within_budget_small | constructor]|].
      split.
      * rewrite render_cons, render_nil. done.
      * intros _. by exists (c :: cur), [].
  - simpl fold_left. unfold step at 2. simpl.
    case_decide as Hbig.
    + (* the sentence is emitted as a chunk of its own *)
      destruct cur as [|c cur]; simpl.
      * destruct (IH (cks ++ [_build_chunk [s] (length cks) source]) [] tok)
          as (groups & Hcat & Hne & Hbud & Hfin & _); [constructor|].
        exists ([s] :: groups). simpl in *.
        split; [by rewrite Hcat|]. split; [by constructor|].
        split; [constructor; [apply within_budget_single | done]|].
        split; [|done].
        rewrite Hfin, render_cons, length_app. simpl.
        rewrite <- app_assoc. simpl. same_numbering.
      * destruct (IH ((cks ++ [_build_chunk (c :: cur) (length cks) source])
                        ++ [_build_chunk [s]
                              (length (cks ++ [_build_chunk (c :: cur)
                                                 (length cks) source]))
                              source]) [] 0)
          as (groups & Hcat & Hne & Hbud & Hfin & _); [constructor|].
        exists ((c :: cur) :: [s] :: groups). simpl in *.
        split; [by rewrite Hcat|].
        split; [by repeat constructor|].
        split.
        { constructor; [by apply within_budget_small|].
          constructor; [apply within_budget_single | done]. }
        split; [|intros _; by eexists _, _].
        rewrite Hfin, !render_cons, !length_app. simpl.
        rewrite <- !app_assoc. simpl. same_numbering.
    + (* the sentence joins the accumulator, flushed first if it is full *)
      assert (Hs : _estimate_tokens s < chunk_size) by lia.
      case_decide as Hover.
      * destruct cur as [|c cur]; simpl.
        -- destruct (IH cks [s] (tok + _estimate_tokens s))
             as (groups & Hcat & Hne & Hbud & Hfin & Hpre);
             [by repeat constructor|].
           exists groups. by repeat split.
        -- destruct (IH (cks ++ [_build_chunk (c :: cur) (length cks) source])
                        [s] (0 + _estimate_tokens s))
             as (groups & Hcat & Hne & Hbud & Hfin & Hpre);
             [by repeat constructor|].
           exists ((c :: cur) :: groups). simpl in *.
           split; [by rewrite Hcat|].
           split; [by constructor|].
           split; [constructor; [by apply within_budget_small | done]|].
           split; [|intros _; by eexists _, _].
           rewrite Hfin, render_cons, length_app. simpl.
           rewrite <- app_assoc. simpl. same_numbering.
      * destruct (IH cks (cur ++ [s]) (tok + _estimate_tokens s))
          as (groups & Hcat & Hne & Hbud & Hfin & Hpre).
        { apply Forall_app. by repeat constructor. }
        exists groups. rewrite <- app_assoc in Hcat.
        split; [done|]. split; [done|]. split; [done|]. split; [done|].
        intros _. destruct Hpre as (g & gs & -> & Hp).
        { by destruct cur. }
        exists g, gs. split; [done|].
        etransitivity; [|exact Hp]. by apply prefix_app_r.
Qed.

(** [chunk_text] turns the sentences of the text, cut into consecutive
    non-empty groups, into one chunk per group, numbered from 0. *)
Lemma chunk_text_groups (text : string) (chunk_size : Z) (source : string) :
  exists groups : list (list string),
    concat groups = _split_sentences text /\
    Forall (fun g => g <> []) groups /\
    Forall (within_budget chunk_size) groups /\
    chunk_text text chunk_size source =
      imap (fun i g => _build_chunk g i source) groups.
Proof.
  destruct (loop_groups chunk_size source (_split_sentences text) [] [] 0)
    as (groups & Hcat & Hne & Hbud & Hfin & _); [constructor|].
  exists groups. repeat split; try done.
Qed.

(** A whitespace character is not a sentence terminator. *)
Lemma space_not_terminator (c : ascii) :
  is_space c = true -> is_terminator c = false.
Proof.
  destruct c as [[] [] [] [] [] [] [] []]; vm_compute; congruence.
Qed.

Lemma re_split_spaces (text : string) :
  forallb is_space (list_ascii_of_string text) = true ->
  re_split false false text = [text].
Proof.
  induction text as [|c rest IH]; simpl; [done|].
  intros Hall. apply andb_prop in Hall as [Hc Hrest].
  rewrite (space_not_terminator c Hc), IH by done. done.
Qed.

Lemma lstrip_spaces (text : string) :
  forallb is_space (list_ascii_of_string text) = true -> lstrip text = "".
Proof.
  induction text as [|c rest IH]; simpl; [done|].
  intros Hall. apply andb_prop in Hall as [Hc Hrest].
  by rewrite Hc, IH.
Qed.

Lemma split_sentences_spaces (text : string) :
  forallb is_space (list_ascii_of_string text) = true ->
  _split_sentences text = [].
Proof.
  intros Hall. unfold _split_sentences, strip.
  rewrite re_split_spaces by done. simpl.
  by rewrite lstrip_spaces.
Qed.

Lemma build_chunk_text g i source :
  _build_chunk g i source !! "text" = Some (PyStr (join g)).
Proof. reflexivity. Qed.

Lemma build_chunk_metadata g i source :
  _build_chunk g i source !! "metadata" =
  Some (PyDict (<["chunk_index" := PyInt (Z.of_nat i)]>
               (<["source" := PyStr source]>
               (<["estimated_tokens" := PyInt (_estimate_tokens (join g))]>
                ∅)))).
Proof. reflexivity. Qed.

End ChunkerFacts.

Module ChunkerClaims.
Import Chunker ChunkerFacts.

(** C9. For every text, [chunk_text] returns a list of records with the
    keys text and metadata, the metadata holding chunk_index, source and
    estimated_tokens, and the text of each chunk is the sentences of one
    group joined by a space, where the groups cut the sentence list of the
    text into consecutive non-empty runs: no sentence is divided between
    two chunks, and a sentence that reaches the budget is a chunk of its
    own. *)
Theorem chunks_hold_whole_sentences
    (text : string) (chunk_size : Z) (source : string) :
  exists groups : list (list string),
    concat groups = _split_sentences text /\
    Forall (fun g => g <> []) groups /\
    Forall (fun g => forall s, s ∈ g -> chunk_size <= _estimate_tokens s ->
                     g = [s]) groups /\
    Forall2 (fun g c =>
      c !! "text" = Some (PyStr (join g)) /\
      dom c = {[ "text"; "metadata" ]} /\
      exists md,
        c !! "metadata" = Some (PyDict md) /\
        dom md = {[ "chunk_index"; "source"; "estimated_tokens" ]} /\
        md !! "source" = Some (PyStr source) /\
        md !! "estimated_tokens" = Some (PyInt (_estimate_tokens (join g))))
      groups (chunk_text text chunk_size source).
Proof.
  destruct (chunk_text_groups text chunk_size source)
    as (groups & Hcat & Hne & Hbud & ->).
  exists groups. split; [done|]. split; [done|]. split; [done|].
  apply Forall2_same_length_lookup. split; [by rewrite length_imap|].
  intros i g c Hg Hc. rewrite list_lookup_imap, Hg in Hc.
  injection Hc as <-.
  split; [reflexivity|]. split.
  { unfold _build_chunk. rewrite !dom_insert_L, dom_empty_L. set_solver. }
  eexists. split; [apply build_chunk_metadata|].
  split; [|split; reflexivity].
  rewrite !dom_insert_L, dom_empty_L. set_solver.
Qed.

(** C10. The chunk at position i of the list [chunk_text] returns has
    chunk_index i, and a text that is empty or holds only whitespace
    yields no chunk. *)
Theorem chunk_index_is_position
    (text : string) (chunk_size : Z) (source : string) :
  (forall (i : nat) c,
     chunk_text text chunk_size source !! i = Some c ->
     exists md,
       c !! "metadata" = Some (PyDict md) /\
       md !! "chunk_index" = Some (PyInt (Z.of_nat i))) /\
  (forallb is_space (list_ascii_of_string text) = true ->
   chunk_text text chunk_size source = []).
Proof.
  split.
  - destruct (chunk_text_groups text chunk_size source)
      as (groups & _ & _ & _ & ->).
    intros i c Hc. rewrite list_lookup_imap in Hc.
    destruct (groups !! i) as [g|]; simpl in Hc; [|done].
    injection Hc as <-.
    eexists. split; [apply build_chunk_metadata | reflexivity].
  - intros Hall. unfold chunk_text.
    by rewrite split_sentences_spaces.
Qed.

(** [chunk_text] on a short text with a budget of five tokens. *)
Example chunk_text_scenario :
  map (fun c => c !! "text")
      (chunk_text "Hello world one. Second sentence here. Tiny. The last."
                  5 "notes.txt")
  = [ Some (PyStr "Hello world one.");
      Some (PyStr "Second sentence here.");
      Some (PyStr "Tiny. The last.") ].
Proof. reflexivity. Qed.

Example chunk_text_blank : chunk_text "  " 400 "notes.txt" = [].
Proof. reflexivity. Qed.

End ChunkerClaims.

(** ** More on the chunker *)

Module ChunkerMore.
Import Chunker ChunkerMeasures ChunkerFacts.

(** *** Strings *)

Lemma sapp_cons (x : ascii) (a b : string) :
  (String x a ++ b)%string = String x (a ++ b).
Proof. reflexivity. Qed.

Lemma sapp_nil_l (a : string) : ("" ++ a)%string = a.
Proof. reflexivity. Qed.

Lemma sapp_nil_r (a : string) : (a ++ "")%string = a.
Proof. induction a as [|c a IH]; [done|]. by rewrite sapp_cons, IH. Qed.

Lemma sapp_assoc (a b c : string) :
  (a ++ (b ++ c))%string = ((a ++ b) ++ c)%string.
Proof. induction a as [|x a IH]; [done|]. by rewrite !sapp_cons, IH. Qed.

Lemma sapp_length (a b : string) :
  String.length (a ++ b) = (String.length a + String.length b)%nat.
Proof.
  induction a as [|x a IH]; [done|]. rewrite sapp_cons. simpl. by rewrite IH.
Qed.

(** *** Whitespace and the sentence splitter *)

Lemma non_space_app (a b : string) :
  non_space (a ++ b) = (non_space a ++ non_space b)%string.
Proof.
  induction a as [|c a IH]; [done|]. rewrite sapp_cons. simpl.
  destruct (is_space c); by rewrite ?sapp_cons, IH.
Qed.

Lemma scat_cons_piece (c : ascii) (pieces : list string) :
  scat (cons_piece c pieces) = String c (scat pieces).
Proof. by destruct pieces. Qed.

Lemma re_split_non_space (in_sep prev : bool) (text : string) :
  non_space (scat (re_split in_sep prev text)) = non_space text.
Proof.
  revert in_sep prev. induction text as [|c rest IH]; intros in_sep prev.
  - done.
  - simpl. destruct in_sep.
    + destruct (is_space c) eqn:Hc.
      * apply IH.
      * rewrite scat_cons_piece. simpl. by rewrite Hc, IH.
    + destruct (prev && is_space c) eqn:Hsep.
      * apply andb_prop in Hsep as [_ Hc]. rewrite Hc.
        change (scat ("" :: ?l)) with (scat l). apply IH.
      * rewrite scat_cons_piece. simpl.
        destruct (is_space c); by rewrite IH.
Qed.

Lemma lstrip_non_space (s : string) : non_space (lstrip s) = non_space s.
Proof.
  induction s as [|c s IH]; simpl; [done|].
  destruct (is_space c) eqn:Hc; [done|]. simpl. by rewrite Hc.
Qed.

Lemma rstrip_non_space (s : string) : non_space (rstrip s) = non_space s.
Proof.
  induction s as [|c s IH]; simpl; [done|].
  destruct (rstrip s) as [|c' r] eqn:Hr.
  - destruct (is_space c) eqn:Hc; simpl; rewrite ?Hc, <- IH; done.
  - simpl in *. destruct (is_space c); by rewrite IH.
Qed.

Lemma strip_non_space (s : string) : non_space (strip s) = non_space s.
Proof. unfold strip. by rewrite rstrip_non_space, lstrip_non_space. Qed.

Lemma scat_app (l1 l2 : list string) :
  scat (l1 ++ l2) = (scat l1 ++ scat l2)%string.
Proof.
  induction l1 as [|s l1 IH]; simpl; [done|].
  by rewrite IH, sapp_assoc.
Qed.

Lemma split_sentences_non_space (text : string) :
  non_space (scat (_split_sentences text)) = non_space text.
Proof.
  unfold _split_sentences.
  rewrite <- (re_split_non_space false false text).
  induction (re_split false false text) as [|p ps IH]; simpl; [done|].
  rewrite non_space_app, <- IH.
  destruct (nonempty (strip p)) eqn:Hp; simpl.
  - by rewrite non_space_app, strip_non_space.
  - rewrite <- (strip_non_space p). by destruct (strip p).
Qed.

Lemma join_non_space (g : list string) :
  non_space (join g) = non_space (scat g).
Proof.
  induction g as [|s g IH]; [done|].
  destruct g as [|s' g].
  - simpl. by rewrite sapp_nil_r.
  - change (join (s :: s' :: g)) with (s ++ " " ++ join (s' :: g))%string.
    change (scat (s :: s' :: g)) with (s ++ scat (s' :: g))%string.
    rewrite !non_space_app, IH. done.
Qed.

(** *** The ends of a sentence *)

Lemma lstrip_head (s : string) :
  lstrip s = "" \/ exists c r, lstrip s = String c r /\ is_space c = false.
Proof.
  induction s as [|c s IH]; simpl; [by left|].
  destruct (is_space c) eqn:Hc; [done|]. right. by exists c, s.
Qed.

Lemma rstrip_head (c : ascii) (r : string) :
  is_space c = false -> exists r', rstrip (String c r) = String c r'.
Proof.
  intros Hc. simpl. destruct (rstrip r); rewrite ?Hc; by eexists.
Qed.

Lemma rstrip_last (s : string) :
  rstrip s = "" \/
  exists c, last_char (rstrip s) = Some c /\ is_space c = false.
Proof.
  induction s as [|c s IH]; simpl; [by left|].
  destruct (rstrip s) as [|c' r] eqn:Hr.
  - destruct (is_space c) eqn:Hc; [by left|]. right. by exists c.
  - right. destruct IH as [|IH]; [done|]. exact IH.
Qed.

Lemma strip_ends (s : string) :
  strip s = "" \/
  ((exists c r, strip s = String c r /\ is_space c = false) /\
   (exists c, last_char (strip s) = Some c /\ is_space c = false)).
Proof.
  unfold strip.
  destruct (lstrip_head s) as [->|(c & r & -> & Hc)]; [by left|].
  destruct (rstrip_head c r Hc) as [r' Hr']. right. split.
  - by exists c, r'.
  - destruct (rstrip_last (String c r)) as [Hnil|Hlast]; [congruence|done].
Qed.

Lemma split_sentences_elem (text s : string) :
  s ∈ _split_sentences text ->
  exists p, p ∈ re_split false false text /\ s = strip p /\ strip p <> "".
Proof.
  unfold _split_sentences. intros Hin.
  apply list_elem_of_In, in_map_iff in Hin as (p & <- & Hp).
  apply filter_In in Hp as [Hp Hne].
  exists p. split; [by apply list_elem_of_In|]. split; [done|].
  by destruct (strip p).
Qed.

(** *** Text that cannot be split *)

Lemma unbroken_weaken (prev : bool) (s : string) :
  unbroken prev s = true -> unbroken false s = true.
Proof. destruct s as [|c s]; simpl; [done|]. by intros [_ ?]%andb_prop. Qed.

Lemma unbroken_lstrip (prev : bool) (s : string) :
  unbroken prev s = true -> unbroken false (lstrip s) = true.
Proof.
  revert prev. induction s as [|c s IH]; intros prev; [done|].
  simpl lstrip. destruct (is_space c) eqn:Hc.
  - simpl. intros [_ Hs]%andb_prop. by eapply IH.
  - apply unbroken_weaken.
Qed.

Lemma unbroken_rstrip (prev : bool) (s : string) :
  unbroken prev s = true -> unbroken prev (rstrip s) = true.
Proof.
  revert prev. induction s as [|c s IH]; intros prev; [done|].
  simpl. intros [Hc Hs]%andb_prop. specialize (IH _ Hs).
  destruct (rstrip s) as [|c' r].
  - destruct (is_space c) eqn:Hsp; [done|]. simpl.
    rewrite Hsp in *. by rewrite Hc.
  - simpl in *. by rewrite Hc, IH.
Qed.

Lemma all_unbroken_cons_piece (prev : bool) (c : ascii) (ps : list string) :
  negb (prev && is_space c) = true ->
  match ps with
  | [] => True
  | p :: ps' => unbroken (is_terminator c) p = true /\
                Forall (fun q => unbroken false q = true) ps'
  end ->
  match cons_piece c ps with
  | [] => True
  | p :: ps' => unbroken prev p = true /\
                Forall (fun q => unbroken false q = true) ps'
  end.
Proof.
  intros Hc. destruct ps as [|p ps']; simpl.
  - intros _. by rewrite Hc.
  - intros [Hp Hps]. by rewrite Hc, Hp.
Qed.

(** The pieces [re.split] returns hold no place where it could split. *)
Lemma re_split_unbroken (in_sep prev : bool) (text : string) :
  match re_split in_sep prev text with
  | [] => True
  | p :: ps => unbroken (if in_sep then false else prev) p = true /\
               Forall (fun q => unbroken false q = true) ps
  end.
Proof.
  revert in_sep prev. induction text as [|c rest IH]; intros in_sep prev.
  - simpl. by destruct in_sep.
  - simpl. destruct in_sep.
    + destruct (is_space c) eqn:Hc.
      * apply (IH true false).
      * apply (all_unbroken_cons_piece false c); [done|].
        apply (IH false (is_terminator c)).
    + destruct (prev && is_space c) eqn:Hsep.
      * split; [done|].
        specialize (IH true false).
        destruct (re_split true false rest) as [|p ps]; [done|].
        destruct IH as [Hp Hps]. by constructor.
      * apply (all_unbroken_cons_piece prev c); [by rewrite Hsep|].
        apply (IH false (is_terminator c)).
Qed.

Lemma re_split_pieces_unbroken (text p : string) :
  p ∈ re_split false false text -> unbroken false p = true.
Proof.
  intros Hin. pose proof (re_split_unbroken false false text) as H.
  destruct (re_split false false text) as [|q qs]; [by apply elem_of_nil in Hin|].
  destruct H as [Hq Hqs]. apply elem_of_cons in Hin as [->|Hin]; [done|].
  rewrite Forall_forall in Hqs. by apply Hqs.
Qed.

Lemma re_split_of_unbroken (prev : bool) (s : string) :
  unbroken prev s = true -> re_split false prev s = [s].
Proof.
  revert prev. induction s as [|c s IH]; intros prev; [done|].
  simpl. intros [Hc Hs]%andb_prop.
  apply negb_true_iff in Hc. rewrite Hc. by rewrite (IH _ Hs).
Qed.

Lemma lstrip_fixed (c : ascii) (r : string) :
  is_space c = false -> lstrip (String c r) = String c r.
Proof. intros Hc. simpl. by rewrite Hc. Qed.

Lemma rstrip_fixed (s : string) (c : ascii) :
  last_char s = Some c -> is_space c = false -> rstrip s = s.
Proof.
  intros Hl Hc. induction s as [|x s IH]; [done|].
  simpl in *. destruct s as [|y s].
  - injection Hl as ->. simpl. by rewrite Hc.
  - rewrite (IH Hl). done.
Qed.

(** *** The budget of the loop *)

Lemma estimate_tokens_nonneg (s : string) : 0 <= _estimate_tokens s.
Proof.
  unfold _estimate_tokens, APPROX_CHARS_PER_TOKEN.
  apply Z.div_pos; lia.
Qed.

Lemma tokens_sum_nonneg (g : list string) : 0 <= tokens_sum g.
Proof.
  induction g as [|s g IH]; simpl; [lia|].
  pose proof (estimate_tokens_nonneg s). lia.
Qed.

Lemma tokens_sum_app (g1 g2 : list string) :
  tokens_sum (g1 ++ g2) = tokens_sum g1 + tokens_sum g2.
Proof. induction g1 as [|s g1 IH]; simpl; lia. Qed.

Lemma fits_single_big chunk_size (s : string) :
  chunk_size <= _estimate_tokens s -> fits chunk_size [s].
Proof. intros Hs. left. by exists s. Qed.

Lemma forced_cut_hd chunk_size (g : list string) (groups : list (list string)) :
  (forall g', head groups = Some g' -> forced_cut chunk_size g g') ->
  HdRel (forced_cut chunk_size) g groups.
Proof. destruct groups as [|g' gs]; constructor; auto. Qed.

(** The loop of [chunk_text], with what it counts: every group fits the
    budget, and every cut between two groups was forced. *)
Lemma loop_cuts (chunk_size : Z) (source : string) (sentences : list string) :
  forall (cks : list (gmap string pyval)) (cur : list string) (tok : Z),
  tok = tokens_sum cur ->
  Forall (fun s => _estimate_tokens s < chunk_size) cur ->
  (cur <> [] -> tokens_sum cur <= chunk_size) ->
  exists groups : list (list string),
    concat groups = cur ++ sentences /\
    Forall (fits chunk_size) groups /\
    Sorted (forced_cut chunk_size) groups /\
    finish source
      (fold_left (step chunk_size source) sentences
         {| chunks := cks; current_sentences := cur;
            current_tokens := tok |}) =
      cks ++ render source (length cks) groups /\
    (cur <> [] -> exists g gs, groups = g :: gs /\ cur `prefix_of` g).
Proof.
  induction sentences as [|s rest IH]; intros cks cur tok Htok Hcur Hsum.
  - simpl. unfold finish. simpl. destruct cur as [|c cur].
    + exists []. rewrite render_nil, !app_nil_r.
      repeat split; try done; by constructor.
    + exists [c :: cur]. simpl. rewrite !app_nil_r.
      split; [done|].
      split; [constructor; [right; split; [by apply Hsum | done] | constructor]|].
      split; [by repeat constructor|].
      split; [by rewrite render_cons, render_nil|].
      intros _. by exists (c :: cur), [].
  - simpl fold_left. unfold step at 2. simpl.
    case_decide as Hbig.
    + destruct cur as [|c cur]; simpl.
      * destruct (IH (cks ++ [_build_chunk [s] (length cks) source]) [] tok)
          as (groups & Hcat & Hfit & Hcut & Hfin & _);
          [done | constructor | done |].
        exists ([s] :: groups). simpl in *.
        split; [by rewrite Hcat|].
        split; [constructor; [apply fits_single_big; lia | done]|].
        split.
        { constructor; [done|]. apply forced_cut_hd.
          intros g' _ s' rest' _. right. left. exists s. split; [done|lia]. }
        split; [|done].
        rewrite Hfin, render_cons, length_app. simpl.
        rewrite <- app_assoc. simpl. same_numbering.
      * destruct (IH ((cks ++ [_build_chunk (c :: cur) (length cks) source])
                        ++ [_build_chunk [s]
                              (length (cks ++ [_build_chunk (c :: cur)
                                                 (length cks) source]))
                              source]) [] 0)
          as (groups & Hcat & Hfit & Hcut & Hfin & _);
          [done | constructor | done |].
        exists ((c :: cur) :: [s] :: groups). simpl in *.
        split; [by rewrite Hcat|].
        split.
        { constructor; [right; split; [by apply Hsum | done]|].
          constructor; [apply fits_single_big; lia | done]. }
        split.
        { constructor.
          - constructor; [done|]. apply forced_cut_hd.
            intros g' _ s' rest' _. right. left. exists s. split; [done|lia].
          - constructor. intros s' rest' Heq. injection Heq as <- <-.
            left. lia. }
        split; [|intros _; by eexists _, _].
        rewrite Hfin, !render_cons, !length_app. simpl.
        rewrite <- !app_assoc. simpl. same_numbering.
    + assert (Hs : _estimate_tokens s < chunk_size) by lia.
      case_decide as Hover.
      * destruct cur as [|c cur]; simpl.
        -- simpl in Htok. subst tok.
           destruct (IH cks [s] (0 + _estimate_tokens s))
             as (groups & Hcat & Hfit & Hcut & Hfin & Hpre);
             [simpl; lia | by repeat constructor | simpl; lia |].
           exists groups. by repeat split.
        -- destruct (IH (cks ++ [_build_chunk (c :: cur) (length cks) source])
                        [s] (0 + _estimate_tokens s))
             as (groups & Hcat & Hfit & Hcut & Hfin & Hpre);
             [simpl; lia | by repeat constructor | simpl; lia |].
           destruct Hpre as (g & gs & -> & [more ->]); [done|].
           exists ((c :: cur) :: ([s] ++ more) :: gs). simpl in *.
           split; [by rewrite Hcat|].
           split; [constructor; [right; split; [by apply Hsum | done] | done]|].
           split.
           { constructor; [done|]. constructor.
             intros s' rest' Heq. injection Heq as <- <-.
             right. right. subst tok. simpl. lia. }
           split; [|intros _; by eexists _, _].
           rewrite Hfin, !render_cons, length_app. simpl.
           rewrite <- app_assoc. simpl. same_numbering.
      * destruct (IH cks (cur ++ [s]) (tok + _estimate_tokens s))
          as (groups & Hcat & Hfit & Hcut & Hfin & Hpre).
        { rewrite tokens_sum_app. simpl. lia. }
        { apply Forall_app. by repeat constructor. }
        { intros _. rewrite tokens_sum_app. simpl. lia. }
        exists groups. rewrite <- app_assoc in Hcat.
        split; [done|]. split; [done|]. split; [done|]. split; [done|].
        intros _. destruct Hpre as (g & gs & -> & Hp).
        { by destruct cur. }
        exists g, gs. split; [done|].
        etransitivity; [|exact Hp]. by apply prefix_app_r.
Qed.

Lemma chunk_text_cuts (text : string) (chunk_size : Z) (source : string) :
  exists groups : list (list string),
    concat groups = _split_sentences text /\
    Forall (fits chunk_size) groups /\
    Sorted (forced_cut chunk_size) groups /\
    chunk_text text chunk_size source =
      imap (fun i g => _build_chunk g i source) groups.
Proof.
  destruct (loop_cuts chunk_size source (_split_sentences text) [] [] 0)
    as (groups & Hcat & Hfit & Hcut & Hfin & _); [done | constructor | done |].
  exists groups. repeat split; try done.
Qed.

Lemma split_sentences_ends (text s : string) :
  s ∈ _split_sentences text ->
  (exists c r, s = String c r /\ is_space c = false) /\
  (exists c, last_char s = Some c /\ is_space c = false).
Proof.
  intros Hin. apply split_sentences_elem in Hin as (p & _ & -> & Hne).
  by destruct (strip_ends p) as [?|?].
Qed.

Lemma join_nonempty (g : list string) (c : ascii) (r : string)
    (rest : list string) :
  g = String c r :: rest -> join g <> "".
Proof. intros ->. simpl. by destruct rest. Qed.

Lemma text_of_build_chunk g i source :
  text_of (_build_chunk g i source) = join g.
Proof. reflexivity. Qed.

Lemma texts_of_render_from (source : string) (start : nat)
    (groups : list (list string)) :
  map text_of (render source start groups) = map join groups.
Proof.
  revert start. induction groups as [|g groups IH]; intros start; [done|].
  rewrite render_cons. simpl. by rewrite IH.
Qed.

Lemma texts_of_render (source : string) (groups : list (list string)) :
  map text_of (imap (fun i g => _build_chunk g i source) groups) =
  map join groups.
Proof. apply (texts_of_render_from source 0). Qed.

Lemma step_big_each (chunk_size : Z) (source : string)
    (sentences : list string) (cks : list (gmap string pyval)) (tok : Z) :
  Forall (fun s => chunk_size <= _estimate_tokens s) sentences ->
  fold_left (step chunk_size source) sentences
    {| chunks := cks; current_sentences := []; current_tokens := tok |} =
  {| chunks := cks ++ imap (fun i s => _build_chunk [s] (length cks + i) source)
                           sentences;
     current_sentences := []; current_tokens := tok |}.
Proof.
  intros Hall. revert cks.
  induction Hall as [|s rest Hs Hall IH]; intros cks; simpl.
  - by rewrite app_nil_r.
  - unfold step at 2. simpl. rewrite decide_True by lia. simpl.
    rewrite IH, <- app_assoc. simpl. do 2 f_equal.
    f_equal; [f_equal; lia|].
    apply imap_ext. intros i x _. simpl. rewrite length_app. simpl.
    f_equal. lia.
Qed.

Lemma step_all_fit (chunk_size : Z) (source : string) (rest : list string) :
  forall (cks : list (gmap string pyval)) (cur : list string) (tok : Z),
  tok = tokens_sum cur ->
  Forall (fun s => _estimate_tokens s < chunk_size) rest ->
  tokens_sum cur + tokens_sum rest <= chunk_size ->
  fold_left (step chunk_size source) rest
    {| chunks := cks; current_sentences := cur; current_tokens := tok |} =
  {| chunks := cks; current_sentences := cur ++ rest;
     current_tokens := tok + tokens_sum rest |}.
Proof.
  induction rest as [|s rest IH]; intros cks cur tok Htok Hall Hsum; simpl.
  - rewrite app_nil_r. f_equal. lia.
  - apply Forall_cons in Hall as [Hs Hall]. simpl in Hsum.
    pose proof (tokens_sum_nonneg rest).
    unfold step at 2. simpl.
    rewrite decide_False by lia. rewrite decide_False by lia. simpl.
    rewrite IH; [| |done|].
    + rewrite <- app_assoc. simpl. f_equal. lia.
    + rewrite tokens_sum_app. simpl. lia.
    + rewrite tokens_sum_app. simpl. lia.
Qed.

End ChunkerMore.

Module ChunkerExtras.
Import Chunker ChunkerMeasures ChunkerFacts ChunkerMore.

(** X1. Every sentence [_split_sentences] returns is non-empty and
    neither starts nor ends with a whitespace character. *)
Theorem split_sentences_stripped (text : string) :
  Forall (fun s =>
    (exists c r, s = String c r /\ is_space c = false) /\
    (exists c, last_char s = Some c /\ is_space c = false))
    (_split_sentences text).
Proof.
  apply Forall_forall. intros s Hs. by apply (split_sentences_ends text).
Qed.

(** X2. Splitting is idempotent: a sentence [_split_sentences] returned
    is split into itself and nothing else. *)
Theorem split_sentences_atomic (text : string) :
  Forall (fun s => _split_sentences s = [s]) (_split_sentences text).
Proof.
  apply Forall_forall. intros s Hs.
  destruct (split_sentences_ends _ _ Hs)
    as [(c & r & Hhead & Hc) (c' & Hlast & Hc')].
  apply split_sentences_elem in Hs as (p & Hp & Hsp & _).
  assert (Hun : unbroken false s = true).
  { rewrite Hsp. unfold strip.
    apply unbroken_rstrip, (unbroken_lstrip false).
    by apply (re_split_pieces_unbroken text). }
  assert (Hfix : strip s = s).
  { unfold strip. rewrite Hhead, lstrip_fixed, <- Hhead by done.
    by eapply rstrip_fixed. }
  assert (Hn : nonempty s = true) by (by rewrite Hhead).
  unfold _split_sentences. rewrite re_split_of_unbroken by done.
  simpl. rewrite Hfix, Hn. simpl. by rewrite Hfix.
Qed.

(** X3. Chunking loses and adds nothing but whitespace: the characters
    of the chunk texts that are not whitespace, read in order, are those
    of the input text. *)
Theorem chunk_text_keeps_non_space
    (text : string) (chunk_size : Z) (source : string) :
  non_space (scat (map text_of (chunk_text text chunk_size source))) =
  non_space text.
Proof.
  destruct (chunk_text_groups text chunk_size source)
    as (groups & Hcat & _ & _ & ->).
  rewrite texts_of_render, <- (split_sentences_non_space text), <- Hcat.
  clear Hcat. induction groups as [|g groups IH]; simpl; [done|].
  by rewrite scat_app, !non_space_app, join_non_space, IH.
Qed.

(** X4. Every chunk is built from a group of sentences that fits the
    budget: the estimates of its sentences, each taken on its own, sum to
    at most [chunk_size], unless the group is one sentence that reaches
    [chunk_size] alone. *)
Theorem chunks_fit_budget
    (text : string) (chunk_size : Z) (source : string) :
  exists groups : list (list string),
    concat groups = _split_sentences text /\
    map text_of (chunk_text text chunk_size source) = map join groups /\
    Forall (fun g =>
      (exists s, g = [s] /\ chunk_size <= _estimate_tokens s) \/
      (tokens_sum g <= chunk_size /\
       Forall (fun s => _estimate_tokens s < chunk_size) g)) groups.
Proof.
  destruct (chunk_text_cuts text chunk_size source)
    as (groups & Hcat & Hfit & _ & ->).
  exists groups. split; [done|]. split; [apply texts_of_render | done].
Qed.

(** X5. The chunks are packed greedily: where one chunk ends and the next
    begins, the sentence that opens the next chunk reaches the budget
    alone, or the chunk before it is such a sentence, or the estimates of
    the chunk before it and of that sentence exceed [chunk_size]
    together. *)
Theorem chunk_cuts_are_forced
    (text : string) (chunk_size : Z) (source : string) :
  exists groups : list (list string),
    concat groups = _split_sentences text /\
    map text_of (chunk_text text chunk_size source) = map join groups /\
    forall (i : nat) g1 s rest,
      groups !! i = Some g1 ->
      groups !! S i = Some (s :: rest) ->
      chunk_size <= _estimate_tokens s \/
      (exists s1, g1 = [s1] /\ chunk_size <= _estimate_tokens s1) \/
      tokens_sum g1 + _estimate_tokens s > chunk_size.
Proof.
  destruct (chunk_text_cuts text chunk_size source)
    as (groups & Hcat & _ & Hcut & ->).
  exists groups. split; [done|]. split; [apply texts_of_render|].
  clear Hcat. induction Hcut as [|g groups Hs IH Hhd]; intros i g1 s rest H1 H2.
  - by rewrite lookup_nil in H1.
  - destruct i as [|i]; simpl in *.
    + injection H1 as <-. destruct Hhd as [|g' gs Hgg']; [done|].
      simpl in H2. injection H2 as ->. by eapply Hgg'.
    + by eapply IH.
Qed.

(** X6. No chunk is empty, there are at most as many chunks as
    sentences, and there is no chunk only when there is no sentence. *)
Theorem chunks_are_not_empty
    (text : string) (chunk_size : Z) (source : string) :
  Forall (fun c => text_of c <> "") (chunk_text text chunk_size source) /\
  (length (chunk_text text chunk_size source)
     <= length (_split_sentences text))%nat /\
  (chunk_text text chunk_size source = [] <-> _split_sentences text = []).
Proof.
  destruct (chunk_text_groups text chunk_size source)
    as (groups & Hcat & Hne & _ & ->).
  split; [|split].
  - apply Forall_forall. intros c Hc.
    apply list_elem_of_lookup in Hc as [i Hi].
    rewrite list_lookup_imap in Hi.
    destruct (groups !! i) as [g|] eqn:Hg; simpl in Hi; [|done].
    injection Hi as <-. rewrite text_of_build_chunk.
    assert (Hgne : g <> []).
    { rewrite Forall_forall in Hne. apply Hne.
      apply list_elem_of_lookup. by exists i. }
    destruct g as [|s rest]; [done|].
    assert (Hs : s ∈ _split_sentences text).
    { rewrite <- Hcat. apply list_elem_of_In, in_concat.
      exists (s :: rest). split; [|by left].
      apply list_elem_of_In, list_elem_of_lookup. by exists i. }
    destruct (split_sentences_ends _ _ Hs) as [(c' & r & -> & _) _].
    by eapply join_nonempty.
  - rewrite length_imap, <- Hcat. clear Hcat.
    induction Hne as [|g groups Hg Hne IH]; simpl; [lia|].
    rewrite length_app. destruct g; [done|]. simpl. lia.
  - rewrite <- Hcat. split.
    + intros Hnil. destruct groups; [done|]. by rewrite imap_cons in Hnil.
    + intros Hnil. destruct groups as [|g groups]; [done|].
      apply Forall_cons in Hne as [Hg _]. destruct g; [done|].
      simpl in Hnil. done.
Qed.

(** X7. When the budget is zero or negative, or every sentence reaches
    it alone, each sentence is a chunk of its own, in order. *)
Theorem one_chunk_per_sentence
    (text : string) (chunk_size : Z) (source : string) :
  chunk_size <= 0 \/
    Forall (fun s => chunk_size <= _estimate_tokens s)
           (_split_sentences text) ->
  chunk_text text chunk_size source =
    imap (fun i s => _build_chunk [s] i source) (_split_sentences text).
Proof.
  intros Hbig.
  assert (Hall : Forall (fun s => chunk_size <= _estimate_tokens s)
                        (_split_sentences text)).
  { destruct Hbig as [Hneg|Hall]; [|done].
    apply Forall_forall. intros s _.
    pose proof (estimate_tokens_nonneg s). lia. }
  unfold chunk_text. by rewrite step_big_each.
Qed.

(** X8. When every sentence is below the budget and the estimates of
    all sentences sum to at most [chunk_size], the whole text is one
    chunk: its sentences joined by single spaces, with index 0. *)
Theorem single_chunk_when_all_fits
    (text : string) (chunk_size : Z) (source : string) :
  _split_sentences text <> [] ->
  Forall (fun s => _estimate_tokens s < chunk_size) (_split_sentences text) ->
  tokens_sum (_split_sentences text) <= chunk_size ->
  chunk_text text chunk_size source =
    [_build_chunk (_split_sentences text) 0 source].
Proof.
  intros Hne Hall Hsum. unfold chunk_text.
  rewrite (step_all_fit _ _ _ [] [] 0) by done. simpl.
  by destruct (_split_sentences text).
Qed.

End ChunkerExtras.

(** ** More on the numeric tool *)

Module ToolExtras.
Import ToolExecutor.

(** X10. The growth rate looks at the first and the last non-null value
    of the column and at nothing else: two tables whose columns agree on
    these two values, with two non-null values or more each, get the
    same answer, whatever lies in between. *)
Theorem growth_rate_reads_two_values (df1 df2 : DataFrame) (column : string)
    (col1 col2 : list cell) :
  df1 !! column = Some col1 ->
  df2 !! column = Some col2 ->
  (2 <= length (dropna col1))%nat ->
  (2 <= length (dropna col2))%nat ->
  head (dropna col1) = head (dropna col2) ->
  last (dropna col1) = last (dropna col2) ->
  compute_growth_rate df1 column = compute_growth_rate df2 column.
Proof.
  intros H1 H2 Hn1 Hn2 Hh Hl. unfold compute_growth_rate.
  rewrite H1, H2, Hh, Hl.
  rewrite !decide_False by lia. done.
Qed.

End ToolExtras.

(** ** More on the store *)

Module StoreMore.
Import FAISSStore StoreFacts.
Section Facts.
Context {F : Type} `{Scalar F}.

Lemma py_getitem_beyond {A} (l : list A) (i : Z) :
  Z.of_nat (length l) <= i -> py_getitem l i = Raise IndexError.
Proof.
  intros Hi. unfold py_getitem.
  rewrite (decide_False (P := i < 0)) by lia.
  by rewrite decide_False by lia.
Qed.

(** The loop of [search] reads the payload list and nothing else of the
    store. *)
Lemma search_loop_reads_chunks (hits : list (F * Z)) acc (s s' : store F) :
  chunks s' = chunks s ->
  fst (search_loop hits acc s') = fst (search_loop hits acc s).
Proof.
  intros Hc. revert acc.
  induction hits as [|[dist idx] hits IH]; intros acc; simpl; [done|].
  case_decide; [apply IH|].
  unfold bind, get_chunks, lift. rewrite Hc.
  destruct (py_getitem (chunks s) idx); [apply IH | done].
Qed.

Lemma search_reads_index_and_chunks (q : query_embedding F) (top_k : Z)
    (s s' : store F) :
  index s' = index s -> chunks s' = chunks s ->
  fst (search q top_k s') = fst (search q top_k s).
Proof.
  intros Hi Hc. unfold search, bind, get_index. rewrite Hi.
  case_decide; [done|].
  unfold lift.
  destruct (Faiss.search _ _ _) as [[ds ls]|]; [|done]. simpl.
  destruct (py_getitem ds 0); [|done].
  destruct (py_getitem ls 0); [|done].
  by apply search_loop_reads_chunks.
Qed.

Lemma add_reads_index (e : ndarray F) cs (s s' : store F) :
  index s' = index s ->
  fst (add e cs s') = fst (add e cs s).
Proof.
  intros Hi. unfold add. case_decide; [done|].
  unfold bind, get_index, lift. rewrite Hi.
  by destruct (Faiss.add (index s) e).
Qed.

(** A label past the end of the payload list stops the loop with
    IndexError. *)
Lemma search_loop_beyond (hits : list (F * Z)) acc (s : store F) :
  Forall (fun h => 0 <= snd h) hits ->
  Exists (fun h => Z.of_nat (length (chunks s)) <= snd h) hits ->
  search_loop hits acc s = (Raise IndexError, s).
Proof.
  intros Hpos Hbad. revert acc.
  induction hits as [|[dist idx] hits IH]; intros acc.
  - by apply Exists_nil in Hbad.
  - apply Forall_cons in Hpos as [Hidx Hpos]. simpl in Hidx. simpl.
    rewrite decide_False by lia.
    unfold bind, get_chunks, lift.
    destruct (decide (Z.of_nat (length (chunks s)) <= idx)) as [Hout|Hin].
    + by rewrite py_getitem_beyond.
    + rewrite py_getitem_valid by lia.
      apply Exists_cons in Hbad as [Hbad|Hbad]; [simpl in Hbad; lia|].
      by apply IH.
Qed.

End Facts.
End StoreMore.

Module StoreExtras.
Import FAISSStore StoreFacts StoreMore.
Section Extras.
Context {F : Type} `{Scalar F}.

(** X11. Two [add] calls in a row, both with matrices of the index's
    width and as many payloads as rows, leave the store that one [add]
    of the rows and of the payloads put end to end would leave. *)
Theorem add_batches_compose (s : store F) (e1 e2 : ndarray F)
    (cs1 cs2 : list (gmap string pyval)) :
  shape0 e1 = length cs1 ->
  shape0 e2 = length cs2 ->
  ncols e1 = Faiss.d (index s) ->
  ncols e2 = Faiss.d (index s) ->
  bind (add e1 cs1) (fun _ => add e2 cs2) s =
  add (Ndarray (Faiss.d (index s)) (rows e1 ++ rows e2)) (cs1 ++ cs2) s.
Proof.
  intros Hn1 Hn2 Hd1 Hd2. unfold bind at 1.
  rewrite (add_success e1) by done.
  rewrite (add_success e2) by done.
  rewrite add_success; simpl.
  - by rewrite !app_assoc.
  - unfold shape0 in *. simpl. rewrite !length_app. lia.
  - done.
Qed.

(** X12. [load] does not check its [dimension] argument, and nothing
    reads it afterwards: when [save] has returned and the two files can
    be read back, loading with any dimension succeeds and gives a store
    with the saved index and payloads, on which [count], [search] and
    [add] answer as on the saved store.  The payloads hold no tuple, and
    the library's decoder is taken to return the index its encoder was
    given. *)
Theorem load_ignores_dimension {image : Type}
    (write_image : Faiss.IndexFlatL2 F -> image)
    (read_image : image -> result (Faiss.IndexFlatL2 F))
    (refused : syscall -> filesystem image -> option exn)
    (s : store F) (directory : string) (dim : nat)
    (fs fs' : filesystem image) :
  (forall ix, read_image (write_image ix) = Ok ix) ->
  Forall (fun c => json_payload c = true) (chunks s) ->
  save write_image refused s directory fs = (Ok tt, fs') ->
  refused (ReadIndex (path_join directory "index.faiss")) fs' = None ->
  refused (OpenRead (path_join directory "chunks.json")) fs' = None ->
  exists s' : store F,
    load read_image refused directory dim fs' = Ok s' /\
    dimension s' = dim /\ index s' = index s /\ chunks s' = chunks s /\
    fst (count s') = fst (count s) /\
    (forall q top_k, fst (search q top_k s') = fst (search q top_k s)) /\
    (forall e cs, fst (add e cs s') = fst (add e cs s)).
Proof.
  intros Hcodec Hjson Hsave Hri Hrc.
  exists {| dimension := dim; index := index s; chunks := chunks s |}.
  pose proof (saved_files write_image refused s directory fs fs' Hsave)
    as [Hix Hcs].
  split.
  - unfold load, read_index, read_chunks. rewrite Hri, Hrc, Hix, Hcs. simpl.
    rewrite Hcodec. simpl.
    by rewrite JsonFacts.chunks_of_to_json by done.
  - repeat split; try done.
    + intros q top_k. by apply search_reads_index_and_chunks.
    + intros e cs. by apply add_reads_index.
Qed.

(** X14. Of a two-dimensional query [search] reads the first row only:
    the rows after it change neither the result nor the error. *)
Theorem search_reads_first_row
    (s : store F) (qv : list F) (others : list (list F)) (top_k : Z) :
  search (Query2 (Ndarray (length qv) (qv :: others))) top_k s =
  search (Query1 qv) top_k s.
Proof.
  unfold search, bind, get_index. case_decide; [done|].
  unfold lift, Faiss.search. simpl.
  case_decide; [|done]. by case_decide.
Qed.

(** X15. On a store that holds vectors, [search] raises AssertionError
    and leaves the store alone when [top_k] is zero or negative or when
    the query has another width than the index; the clamp to [count()]
    does not turn such a call into an empty answer. *)
Theorem search_rejects_bad_arguments
    (s : store F) (q : query_embedding F) (top_k : Z) :
  Faiss.ntotal (index s) <> 0%nat ->
  top_k <= 0 \/ ncols (as_matrix q) <> Faiss.d (index s) ->
  search q top_k s = (Raise AssertionError, s).
Proof.
  intros Hne Hbad. unfold search, bind, get_index.
  rewrite decide_False by done. unfold lift, Faiss.search.
  case_decide as Hw; [|done].
  destruct Hbad as [Hk|Hbad]; [|done].
  by rewrite decide_False by lia.
Qed.

(** X16. When the index holds more vectors than the store has payloads,
    a [search] that asks for every vector raises IndexError and leaves
    the store alone. *)
Theorem search_misaligned_raises
    (s : store F) (q : query_embedding F) (top_k : Z) (qv : list F)
    (others : list (list F)) :
  (length (chunks s) < Faiss.ntotal (index s))%nat ->
  Z.of_nat (Faiss.ntotal (index s)) <= top_k ->
  ncols (as_matrix q) = Faiss.d (index s) ->
  rows (as_matrix q) = qv :: others ->
  search q top_k s = (Raise IndexError, s).
Proof.
  intros Hshort Hk Hcols Hrows.
  unfold search, bind, get_index.
  rewrite decide_False by lia.
  unfold lift, Faiss.search.
  rewrite decide_True by done. rewrite decide_True by lia.
  rewrite Hrows. simpl map. simpl fst. simpl snd.
  rewrite !py_getitem_head, zip_fst_snd.
  rewrite Z.min_r by lia. rewrite Nat2Z.id.
  rewrite FaissFacts.knn_full by done.
  rewrite take_ge
    by (rewrite FaissFacts.sort_hits_length, FaissFacts.all_hits_length; lia).
  apply search_loop_beyond.
  - apply Forall_forall. intros h Hin.
    rewrite FaissFacts.sort_hits_perm in Hin.
    apply FaissFacts.all_hits_elem in Hin as (i & v & _ & ->). simpl. lia.
  - apply Exists_exists.
    destruct (lookup_lt_is_Some_2 (Faiss.xb (index s)) (length (chunks s)))
      as [v Hv]; [done|].
    exists (Faiss.fvec_L2sqr qv v, Z.of_nat (length (chunks s))).
    split; [|simpl; lia].
    rewrite FaissFacts.sort_hits_perm.
    by apply FaissFacts.all_hits_intro.
Qed.

(** X17. A [search] that asks for at least [count()] matches returns one
    match for every pair that was added, up to order: the pair's payload
    text and metadata, and the distance from the query to the pair's
    vector. *)
Theorem search_all_is_exhaustive
    (log : list (list F * gmap string pyval)) (s : store F)
    (q : query_embedding F) (top_k : Z) (qv : list F)
    (others : list (list F)) :
  reach log s ->
  log <> [] ->
  Z.of_nat (length log) <= top_k ->
  ncols (as_matrix q) = dimension s ->
  rows (as_matrix q) = qv :: others ->
  exists rs : list (Match F),
    search q top_k s = (Ok rs, s) /\
    rs ≡ₚ map (fun vp =>
                 {| text := default (PyStr "") (snd vp !! "text");
                    metadata := default (PyDict ∅) (snd vp !! "metadata");
                    score := Faiss.fvec_L2sqr qv (fst vp) |}) log.
Proof.
  intros Hr Hlog Hk Hcols Hrows.
  pose proof (reach_well_formed _ _ Hr) as Hwf.
  destruct (reach_log _ _ Hr) as [Hx Hc].
  assert (Hn : Faiss.ntotal (index s) = length log).
  { unfold Faiss.ntotal. by rewrite Hx, length_fmap. }
  assert (Hne : Faiss.ntotal (index s) <> 0%nat).
  { rewrite Hn. by destruct log. }
  eexists. split; [eapply search_populated; try done; lia|].
  rewrite Z.min_r by lia. rewrite Nat2Z.id.
  rewrite take_ge
    by (rewrite FaissFacts.sort_hits_length, FaissFacts.all_hits_length; lia).
  change (map ?f ?l) with (f <$> l).
  rewrite FaissFacts.sort_hits_perm.
  apply reflexive_eq. unfold Faiss.all_hits. rewrite Hx, Hc.
  apply list_eq. intros i.
  rewrite !list_lookup_fmap, list_lookup_imap, list_lookup_fmap.
  destruct (log !! i) as [[v p]|] eqn:Hi; simpl; [|done].
  unfold match_of. simpl. rewrite Nat2Z.id.
  rewrite (list_lookup_total_correct (log.*2) i p); [done|].
  by rewrite list_lookup_fmap, Hi.
Qed.

End Extras.
End StoreExtras.

(** ** The store over single-precision floats *)

Module StoreFloat32.
Import FAISSStore StoreFacts Float32.

Lemma signed_not_nan (x : float) : signed false x -> is_nan x = false.
Proof. by destruct x. Qed.

Lemma reach_dimension log (s : store float) :
  reach log s -> Forall (fun vp => length (fst vp) = dimension s) log.
Proof.
  induction 1 as [dim|log s e cs Hr IH Hn Hrect Hd]; [by constructor|].
  pose proof (reach_well_formed _ _ Hr) as [Hwd _].
  rewrite add_success by congruence. simpl.
  apply Forall_app. split; [done|].
  apply Forall_forall. intros [v p] Hin. simpl.
  apply elem_of_zip_l in Hin. simpl in Hin.
  unfold rectangular in Hrect. rewrite Forall_forall in Hrect.
  rewrite <- Hd. by apply Hrect.
Qed.

(** The squared distance of finite vectors is no NaN and not negative:
    a difference may overflow to an infinity, and its square is then the
    positive infinity. *)
Lemma L2sqr_fold_signed (l : list (float * float)) (acc : float) :
  signed false acc ->
  Forall (fun ab => is_finite (fst ab) = true /\ is_finite (snd ab) = true) l ->
  signed false
    (fold_left (fun acc ab => fadd acc (fmul (fsub (fst ab) (snd ab))
                                             (fsub (fst ab) (snd ab))))
               l acc).
Proof.
  revert acc. induction l as [|[a b] l IH]; intros acc Hacc Hl; [done|].
  apply Forall_cons in Hl as [[Ha Hb] Hl]. simpl in Ha, Hb.
  cbn [fold_left fst snd]. apply IH; [|done].
  apply SpecFloatFacts.SFadd_nonneg; [done|].
  apply SpecFloatFacts.SFmul_square.
  by apply SpecFloatFacts.SFsub_finite.
Qed.

Lemma L2sqr_signed (x y : list float) :
  Forall (fun a => is_finite a = true) x ->
  Forall (fun b => is_finite b = true) y ->
  signed false (Faiss.fvec_L2sqr x y).
Proof.
  intros Hx Hy. apply L2sqr_fold_signed; [done|].
  apply Forall_forall. intros [a b] Hin. simpl.
  rewrite Forall_forall in Hx. rewrite Forall_forall in Hy.
  split; [apply Hx | apply Hy].
  - by apply elem_of_zip_l in Hin.
  - by apply elem_of_zip_r in Hin.
Qed.

(** The squared distance of a finite vector to itself is the positive
    zero. *)
Lemma L2sqr_fold_self (v : list float) :
  Forall (fun a => is_finite a = true) v ->
  fold_left (fun acc ab => fadd acc (fmul (fsub (fst ab) (snd ab))
                                          (fsub (fst ab) (snd ab))))
            (zip v v) (S754_zero false) = S754_zero false.
Proof.
  induction v as [|a v IH]; intros Hv; [done|].
  apply Forall_cons in Hv as [Ha Hv].
  cbn [zip zip_with fold_left fst snd].
  change (fsub a a) with (SFsub prec emax a a).
  rewrite (SpecFloatFacts.SFsub_diag prec emax a Ha).
  by apply IH.
Qed.

Lemma L2sqr_self (v : list float) :
  Forall (fun a => is_finite a = true) v ->
  Faiss.fvec_L2sqr v v = S754_zero false.
Proof. apply L2sqr_fold_self. Qed.

(** Nothing that is not negative lies below the positive zero but the
    zero itself. *)
Lemma SFleb_zero (x : float) :
  signed false x -> SFleb x (S754_zero false) = true -> x = S754_zero false.
Proof. destruct x as [s|s| |s m e]; simpl; try done; by intros ->. Qed.

(** X18. In single precision, a [search] for a vector that was added
    returns first a match of score zero, when the components of the
    stored vectors are finite: nothing is closer to the query than the
    stored copy of it, whatever the rounding and the overflow of the
    other distances. *)
Theorem search_finds_stored_vector
    (log : list (list float * gmap string pyval)) (s : store float)
    (v : list float) (p : gmap string pyval) (top_k : Z) :
  reach log s ->
  Forall (fun vp => Forall (fun x => is_finite x = true) (fst vp)) log ->
  (v, p) ∈ log ->
  0 < top_k ->
  exists (r : Match float) (rs : list (Match float)),
    search (Query1 v) top_k s = (Ok (r :: rs), s) /\
    score r = S754_zero false.
Proof.
  intros Hr Hfin Hin Hk.
  pose proof (reach_well_formed _ _ Hr) as Hwf.
  destruct (reach_log _ _ Hr) as [Hx Hc].
  pose proof (reach_dimension _ _ Hr) as Hdim.
  rewrite Forall_forall in Hdim. specialize (Hdim _ Hin). simpl in Hdim.
  rewrite Forall_forall in Hfin.
  pose proof (Hfin _ Hin) as Hv. simpl in Hv.
  apply list_elem_of_lookup in Hin as [i Hi].
  assert (Hxi : Faiss.xb (index s) !! i = Some v).
  { by rewrite Hx, list_lookup_fmap, Hi. }
  assert (Hne : Faiss.ntotal (index s) <> 0%nat).
  { unfold Faiss.ntotal. apply lookup_lt_Some in Hxi. lia. }
  assert (Hsigned : forall h, h ∈ Faiss.all_hits (index s) v ->
                              signed false (fst h)).
  { intros h Hh.
    apply FaissFacts.all_hits_elem in Hh as (j & w & Hw & ->). simpl.
    apply L2sqr_signed; [done|].
    rewrite Hx, list_lookup_fmap in Hw.
    destruct (log !! j) as [[w' q]|] eqn:Hj; [|done].
    injection Hw as <-.
    apply (Hfin (w', q)). by apply list_elem_of_lookup_2 in Hj. }
  rewrite (search_populated s (Query1 v) top_k v []) by done.
  set (k := Z.to_nat (Z.min top_k (Z.of_nat (Faiss.ntotal (index s))))).
  destruct (take k (Faiss.sort_hits (Faiss.all_hits (index s) v)))
    as [|h0 rest] eqn:Htake.
  { exfalso. apply (f_equal length) in Htake.
    rewrite length_take, FaissFacts.sort_hits_length,
      FaissFacts.all_hits_length in Htake. simpl in Htake. lia. }
  simpl. eexists _, _. split; [done|]. simpl.
  assert (Hle : Faiss.hit_le h0 (Faiss.fvec_L2sqr v v, Z.of_nat i)).
  { apply (FaissFacts.sort_hits_head_least k (Faiss.all_hits (index s) v)).
    - apply Float32Facts.not_nan_comparable.
      apply Forall_forall. intros d Hd.
      apply list_elem_of_fmap in Hd as (h & -> & Hh).
      by apply signed_not_nan, Hsigned.
    - by rewrite Htake.
    - by apply FaissFacts.all_hits_intro. }
  unfold Faiss.hit_le in Hle. simpl in Hle.
  rewrite (L2sqr_self v Hv) in Hle.
  assert (Hh0 : h0 ∈ Faiss.all_hits (index s) v).
  { rewrite <- FaissFacts.sort_hits_perm.
    rewrite <- (take_drop k (Faiss.sort_hits _)), Htake. by left. }
  by apply SFleb_zero; [apply Hsigned|].
Qed.

End StoreFloat32.

(** ** The file router *)

Module RouterFacts.
Import Chunker ChunkerMeasures FileRouter ChunkerMore.

Lemma rfind_bounds (ch : ascii) (p : string) :
  -1 <= rfind ch p < Z.of_nat (String.length p).
Proof.
  induction p as [|c p IH]; simpl; [lia|].
  case_decide; [lia|]. destruct (Ascii.eqb c ch); lia.
Qed.

Lemma rfind_absent (ch : ascii) (p : string) :
  all_chars (fun x => negb (Ascii.eqb x ch)) p = true -> rfind ch p = -1.
Proof.
  induction p as [|c p IH]; simpl; [done|].
  intros [Hc Hp]%andb_true_iff. rewrite (IH Hp).
  rewrite decide_False by lia.
  by destruct (Ascii.eqb c ch).
Qed.

Lemma rfind_app (ch : ascii) (a b : string) :
  rfind ch (a ++ b) =
    if decide (0 <= rfind ch b)
    then Z.of_nat (String.length a) + rfind ch b
    else rfind ch a.
Proof.
  induction a as [|c a IH].
  - rewrite sapp_nil_l. simpl. case_decide; [lia|].
    pose proof (rfind_bounds ch b). lia.
  - rewrite sapp_cons. simpl rfind. rewrite IH.
    pose proof (rfind_bounds ch a).
    destruct (decide (0 <= rfind ch b)).
    + rewrite decide_True by lia. simpl String.length. lia.
    + done.
Qed.

Lemma rfind_app_absent (ch : ascii) (a b : string) :
  all_chars (fun x => negb (Ascii.eqb x ch)) b = true ->
  rfind ch (a ++ b) = rfind ch a.
Proof.
  intros Hb. rewrite rfind_app, (rfind_absent _ _ Hb).
  by rewrite decide_False by lia.
Qed.

Lemma rfind_last (ch : ascii) (a b : string) :
  all_chars (fun x => negb (Ascii.eqb x ch)) b = true ->
  rfind ch (a ++ String ch b) = Z.of_nat (String.length a).
Proof.
  intros Hb. rewrite rfind_app. simpl rfind.
  rewrite (rfind_absent _ _ Hb).
  rewrite (decide_False (P := 0 <= -1)) by lia.
  rewrite Ascii.eqb_refl. rewrite decide_True by lia. lia.
Qed.

Lemma rfind_ge (ch : ascii) (p : string) (j : nat) :
  get j p = Some ch -> Z.of_nat j <= rfind ch p.
Proof.
  revert j. induction p as [|c p IH]; intros j Hj; [done|].
  simpl. destruct j as [|j]; simpl in Hj.
  - injection Hj as ->. rewrite Ascii.eqb_refl.
    pose proof (rfind_bounds ch p). case_decide; lia.
  - specialize (IH _ Hj). rewrite decide_True by lia. lia.
Qed.

Lemma get_app_l (a b : string) (j : nat) :
  (j < String.length a)%nat -> get j (a ++ b) = get j a.
Proof.
  revert j. induction a as [|c a IH]; intros j Hj; simpl in Hj; [lia|].
  rewrite sapp_cons. destruct j as [|j]; simpl; [done|]. apply IH. lia.
Qed.

Lemma get_app_r (a b : string) (j : nat) :
  get (String.length a + j) (a ++ b) = get j b.
Proof.
  induction a as [|c a IH]; [by rewrite sapp_nil_l|].
  rewrite sapp_cons. simpl. apply IH.
Qed.

Lemma get_all_chars (f : ascii -> bool) (s : string) (j : nat) (c : ascii) :
  all_chars f s = true -> get j s = Some c -> f c = true.
Proof.
  revert j. induction s as [|x s IH]; intros j Hall Hj; [done|].
  simpl in Hall. apply andb_true_iff in Hall as [Hx Hs].
  destruct j as [|j]; simpl in Hj; [by injection Hj as <-|].
  by apply (IH j).
Qed.

Lemma slice_from_app (a b : string) :
  slice_from (String.length a) (a ++ b) = b.
Proof.
  induction a as [|c a IH]; [rewrite sapp_nil_l; by destruct b|].
  rewrite sapp_cons. simpl. apply IH.
Qed.

Lemma slice_to_app (a b : string) :
  slice_to (String.length a) (a ++ b) = a.
Proof.
  induction a as [|c a IH]; [rewrite sapp_nil_l; by destruct b|].
  rewrite sapp_cons. simpl. by rewrite IH.
Qed.

Lemma skip_meets (p : string) (i steps j : nat) (c : ascii) :
  (i <= j < i + steps)%nat ->
  get j p = Some c -> Ascii.eqb c extsep = false ->
  skip_leading_dots p i steps = true.
Proof.
  revert i. induction steps as [|steps IH]; intros i Hij Hj Hc; [lia|].
  simpl. destruct (get i p) as [x|] eqn:Hx; [|done].
  destruct (Ascii.eqb x extsep) eqn:Hxd; [|done].
  destruct (decide (i = j)) as [->|Hne]; [congruence|].
  apply IH; [lia|done..].
Qed.

Lemma skip_only_dots (p : string) (i steps : nat) :
  (forall j, (i <= j < i + steps)%nat -> get j p = Some extsep) ->
  skip_leading_dots p i steps = false.
Proof.
  revert i. induction steps as [|steps IH]; intros i Hall; [done|].
  simpl. rewrite (Hall i) by lia. rewrite Ascii.eqb_refl.
  apply IH. intros j Hj. apply Hall. lia.
Qed.

Lemma all_chars_app (f : ascii -> bool) (a b : string) :
  all_chars f (a ++ b) = all_chars f a && all_chars f b.
Proof.
  induction a as [|c a IH]; [by rewrite sapp_nil_l|].
  rewrite sapp_cons. simpl. by rewrite IH, andb_assoc.
Qed.

Lemma all_chars_weaken (f g : ascii -> bool) (s : string) :
  (forall c, f c = true -> g c = true) ->
  all_chars f s = true -> all_chars g s = true.
Proof.
  intros Hfg. induction s as [|c s IH]; [done|]. simpl.
  intros [Hc Hs]%andb_true_iff. by rewrite (Hfg _ Hc), IH.
Qed.

(** Past the last separator no separator is left. *)
Lemma sepIndex_app_absent (pf : platform) (a b : string) :
  all_chars (fun x => negb (is_sep pf x)) b = true ->
  sepIndex pf (a ++ b) = sepIndex pf a.
Proof.
  intros Hb. unfold sepIndex.
  assert (Hsep : all_chars (fun x => negb (Ascii.eqb x (sep pf))) b = true).
  { revert Hb. apply all_chars_weaken. intros c. unfold is_sep.
    destruct (Ascii.eqb c (sep pf)); [done|]. by destruct (altsep pf). }
  destruct (altsep pf) as [alt|] eqn:Halt.
  - assert (Halt' : all_chars (fun x => negb (Ascii.eqb x alt)) b = true).
    { revert Hb. apply all_chars_weaken. intros c. unfold is_sep.
      rewrite Halt. destruct (Ascii.eqb c alt); [|done].
      by rewrite orb_true_r. }
    by rewrite !rfind_app_absent.
  - by rewrite rfind_app_absent.
Qed.

Lemma sepIndex_bounds (pf : platform) (p : string) :
  -1 <= sepIndex pf p < Z.of_nat (String.length p).
Proof.
  unfold sepIndex. pose proof (rfind_bounds (sep pf) p).
  destruct (altsep pf) as [alt|]; [|done].
  pose proof (rfind_bounds alt p). lia.
Qed.

Lemma sepIndex_ge (pf : platform) (p : string) (j : nat) (c : ascii) :
  get j p = Some c -> is_sep pf c = true -> Z.of_nat j <= sepIndex pf p.
Proof.
  intros Hj Hc. unfold is_sep in Hc. unfold sepIndex.
  destruct (Ascii.eqb c (sep pf)) eqn:Hs.
  - apply Ascii.eqb_eq in Hs as ->. pose proof (rfind_ge _ _ _ Hj).
    destruct (altsep pf); lia.
  - destruct (altsep pf) as [alt|]; [|done]. simpl in Hc.
    apply Ascii.eqb_eq in Hc as ->. pose proof (rfind_ge _ _ _ Hj). lia.
Qed.

Lemma lstrip_dots_fixed (s : string) :
  all_chars (fun x => negb (is_dot x)) s = true -> lstrip_dots s = s.
Proof.
  destruct s as [|c s]; [done|]. simpl. unfold is_dot, extsep.
  intros [Hc _]%andb_true_iff. by destruct (Ascii.eqb c ".").
Qed.

Lemma empty_unsupported : ""%string ∉ SUPPORTED_EXTENSIONS.
Proof. apply (bool_decide_unpack _). by vm_compute. Qed.

Lemma lower_nonempty (s : string) : nonempty (lower s) = nonempty s.
Proof. by destruct s. Qed.

Lemma last_char_split (s : string) (c : ascii) :
  last_char s = Some c -> exists d : string, s = (d ++ String c "")%string.
Proof.
  induction s as [|x s IH]; [done|]. simpl.
  destruct s as [|y s].
  - intros [= ->]. by exists ""%string.
  - intros Hl. destruct (IH Hl) as [d Hd]. exists (String x d).
    by rewrite sapp_cons, <- Hd.
Qed.

Lemma get_last (a : string) (c : ascii) :
  get (String.length a) (a ++ String c "") = Some c.
Proof.
  rewrite <- (Nat.add_0_r (String.length a)). by rewrite get_app_r.
Qed.

End RouterFacts.

Module RouterExtras.
Import Chunker ChunkerMeasures FileRouter ChunkerMore RouterFacts.

(** X19. [route_file] decides by what follows the last dot of the last
    path component, whatever its case, when a character other than a dot
    stands before that dot in the component: the lower-cased extension
    is returned when it is one of the five supported ones, and
    ValueError is raised otherwise, also when nothing follows the dot. *)
Theorem route_file_by_last_extension
    (pf : platform) (pre : string) (c : ascii) (mid e : string) :
  is_sep pf c = false ->
  is_dot c = false ->
  all_chars (fun x => negb (is_sep pf x)) mid = true ->
  all_chars (fun x => negb (is_sep pf x)) e = true ->
  all_chars (fun x => negb (is_dot x)) e = true ->
  route_file pf (pre ++ String c (mid ++ String extsep e)) =
    if decide (lower e ∈ SUPPORTED_EXTENSIONS)
    then Ok (lower e) else Raise ValueError.
Proof.
  intros Hc Hcd Hmid He Hed.
  set (p := (pre ++ String c (mid ++ String extsep e))%string).
  assert (Hp : p = ((pre ++ String c mid) ++ String extsep e)%string).
  { unfold p. by rewrite <- (sapp_cons c mid), sapp_assoc. }
  assert (Hdot : rfind extsep p
                 = Z.of_nat (String.length (pre ++ String c mid))).
  { rewrite Hp. by apply rfind_last. }
  assert (Hext : is_sep pf extsep = false).
  { by destruct pf. }
  assert (Hsep : sepIndex pf p = sepIndex pf pre).
  { unfold p. apply sepIndex_app_absent. simpl. rewrite Hc. simpl.
    rewrite all_chars_app, Hmid. simpl. by rewrite Hext, He. }
  pose proof (sepIndex_bounds pf pre) as Hb.
  rewrite sapp_length in Hdot. simpl String.length in Hdot.
  unfold route_file, splitext. fold p. rewrite Hsep, Hdot.
  rewrite decide_True by lia.
  rewrite (skip_meets p _ _ (String.length pre) c); [|lia| |done].
  2:{ unfold p. rewrite <- (Nat.add_0_r (String.length pre)).
      by rewrite get_app_r. }
  replace (Z.to_nat (Z.of_nat (String.length pre + S (String.length mid))))
    with (String.length (pre ++ String c mid))
    by (rewrite sapp_length; simpl; lia).
  rewrite Hp, slice_from_app. simpl snd.
  change (lstrip_dots (String extsep e)) with (lstrip_dots e).
  rewrite lstrip_dots_fixed by done.
  rewrite lower_nonempty.
  destruct e as [|x e]; simpl negb; cbv iota.
  - rewrite decide_False; [done|]. apply empty_unsupported.
  - destruct (decide (lower (String x e) ∈ SUPPORTED_EXTENSIONS)) as [Hin|Hin].
    + by rewrite decide_False by (intros Hn; by apply Hn).
    + by rewrite decide_True.
Qed.

(** X20. A path whose last component holds no dot, or dots at its start
    only (a hidden file such as [.csv]), has no extension for
    [route_file]: it raises ValueError. *)
Theorem route_file_without_extension
    (pf : platform) (dir dots e : string) :
  match last_char dir with
  | Some c => is_sep pf c = true
  | None => True
  end ->
  all_chars is_dot dots = true ->
  all_chars (fun x => negb (is_dot x)) e = true ->
  route_file pf (dir ++ dots ++ e) = Raise ValueError.
Proof.
  intros Hdir Hdots He.
  set (p := (dir ++ dots ++ e)%string).
  assert (Hnone : snd (splitext pf p) = "").
  { unfold splitext. case_decide as Hlt; [|done].
    rewrite skip_only_dots; [done|].
    intros j Hj.
    assert (Hlow : Z.of_nat (String.length dir) - 1 <= sepIndex pf p).
    { pose proof (sepIndex_bounds pf p).
      destruct (last_char dir) as [c|] eqn:Hlast.
      - destruct (last_char_split _ _ Hlast) as [d ->].
        rewrite sapp_length. simpl String.length.
        assert (Hget : get (String.length d) p = Some c).
        { unfold p. rewrite get_app_l
            by (rewrite sapp_length; simpl; lia).
          apply get_last. }
        pose proof (sepIndex_ge pf p _ _ Hget Hdir). lia.
      - destruct dir; [simpl; lia|].
        exfalso. revert Hlast. clear. revert a.
        induction dir as [|b dir IH]; intros a; [done|]. apply IH. }
    assert (Hhigh : rfind extsep p
                    < Z.of_nat (String.length dir + String.length dots)).
    { unfold p. rewrite sapp_assoc, rfind_app_absent by done.
      pose proof (rfind_bounds extsep (dir ++ dots)) as Hb.
      rewrite sapp_length in Hb. lia. }
    assert (Hj' : exists k, (k < String.length dots)%nat
                            /\ j = (String.length dir + k)%nat).
    { exists (j - String.length dir)%nat. lia. }
    destruct Hj' as (k & Hk & ->).
    unfold p. rewrite get_app_r, get_app_l by done.
    destruct (get k dots) as [x|] eqn:Hx.
    - pose proof (get_all_chars _ _ _ _ Hdots Hx) as Hxd.
      unfold is_dot in Hxd. by apply Ascii.eqb_eq in Hxd as ->.
    - exfalso. clear -Hk Hx. revert k Hk Hx.
      induction dots as [|y dots IH]; intros k Hk Hx; simpl in Hk; [lia|].
      destruct k as [|k]; [done|]. simpl in Hx. apply (IH k); [lia|done]. }
  unfold route_file. fold p. by rewrite Hnone.
Qed.

End RouterExtras.

(** ** The PDF parser *)

Module PdfFacts.
Import Chunker ChunkerMeasures ChunkerMore PdfParser.

Lemma newline_not_hspace : is_hspace newline = false.
Proof. reflexivity. Qed.

Lemma hspace_is_space (c : ascii) : is_hspace c = true -> is_space c = true.
Proof. unfold is_hspace. by intros [? _]%andb_true_iff. Qed.

Lemma eqb_newline (c : ascii) :
  Ascii.eqb c newline = true -> is_hspace c = false.
Proof. intros ->%Ascii.eqb_eq. reflexivity. Qed.

(** *** The first substitution *)

Lemma sub_hspace_shape (in_run : bool) (s : string) :
  single_spaced (sub_hspace in_run s) = true
  /\ (in_run = true -> starts_hspace (sub_hspace in_run s) = false).
Proof.
  revert in_run. induction s as [|c s IH]; intros in_run; simpl; [done|].
  destruct (is_hspace c) eqn:Hc.
  - destruct in_run.
    + apply IH.
    + destruct (IH true) as [IH1 IH2]. split; [|done].
      simpl. by rewrite IH1, IH2.
  - destruct (IH false) as [IH1 _]. simpl. by rewrite Hc, IH1.
Qed.

Lemma sub_hspace_fixed (in_run : bool) (s : string) :
  single_spaced s = true ->
  in_run && starts_hspace s = false ->
  sub_hspace in_run s = s.
Proof.
  revert in_run. induction s as [|c s IH]; intros in_run Hs Hrun; [done|].
  simpl in *. destruct (is_hspace c) eqn:Hc.
  - rewrite andb_false_iff in Hrun. destruct Hrun as [->|]; [|done].
    apply andb_true_iff in Hs as [[Hsp Hnext]%andb_true_iff Hs].
    apply Ascii.eqb_eq in Hsp as ->.
    rewrite IH; [done..|]. by apply negb_true_iff in Hnext as ->.
  - rewrite IH; done.
Qed.

Lemma sub_hspace_non_space (in_run : bool) (s : string) :
  non_space (sub_hspace in_run s) = non_space s.
Proof.
  revert in_run. induction s as [|c s IH]; intros in_run; simpl; [done|].
  destruct (is_hspace c) eqn:Hc.
  - rewrite (hspace_is_space _ Hc). destruct in_run; simpl; apply IH.
  - simpl. by rewrite IH.
Qed.

(** *** The second substitution *)

Lemma sub_newlines_head (run : nat) (s : string) :
  (run < 2)%nat -> starts_hspace (sub_newlines run s) = starts_hspace s.
Proof.
  intros Hrun. destruct s as [|c s]; simpl; [done|].
  destruct (Ascii.eqb c newline); [|done].
  by rewrite (proj2 (Nat.ltb_lt _ _) Hrun).
Qed.

Lemma sub_newlines_single (run : nat) (s : string) :
  single_spaced s = true -> single_spaced (sub_newlines run s) = true.
Proof.
  revert run. induction s as [|c s IH]; intros run Hs; simpl; [done|].
  simpl in Hs. apply andb_true_iff in Hs as [Hc Hs].
  destruct (Ascii.eqb c newline) eqn:Hnl.
  - destruct (run <? 2)%nat; [|by apply IH].
    simpl. rewrite (eqb_newline _ Hnl). by apply IH.
  - simpl. rewrite sub_newlines_head by lia. by rewrite Hc, IH.
Qed.

Lemma sub_newlines_short (run k : nat) (s : string) :
  ((run < 2)%nat -> (k <= run)%nat) ->
  short_breaks k (sub_newlines run s) = true.
Proof.
  revert run k. induction s as [|c s IH]; intros run k Hk; simpl; [done|].
  destruct (Ascii.eqb c newline) eqn:Hnl.
  - destruct (run <? 2)%nat eqn:Hrun.
    + apply Nat.ltb_lt in Hrun. simpl. rewrite Hnl.
      rewrite (proj2 (Nat.ltb_lt k 2)) by lia. apply IH. lia.
    + apply Nat.ltb_ge in Hrun. apply IH. lia.
  - simpl. rewrite Hnl. apply IH. lia.
Qed.

Lemma sub_newlines_fixed (run : nat) (s : string) :
  short_breaks run s = true -> sub_newlines run s = s.
Proof.
  revert run. induction s as [|c s IH]; intros run Hs; simpl in *; [done|].
  destruct (Ascii.eqb c newline).
  - apply andb_true_iff in Hs as [-> Hs]. by rewrite IH.
  - by rewrite IH.
Qed.

Lemma sub_newlines_non_space (run : nat) (s : string) :
  non_space (sub_newlines run s) = non_space s.
Proof.
  revert run. induction s as [|c s IH]; intros run; simpl; [done|].
  destruct (Ascii.eqb c newline) eqn:Hnl.
  - apply Ascii.eqb_eq in Hnl as ->.
    change (is_space newline) with true. cbv iota.
    destruct (run <? 2)%nat; simpl; apply IH.
  - simpl. by rewrite IH.
Qed.

(** *** Parts of a text *)

Lemma single_spaced_app (a b : string) :
  single_spaced (a ++ b) = true ->
  single_spaced a = true /\ single_spaced b = true.
Proof.
  induction a as [|c a IH]; [by rewrite sapp_nil_l|].
  rewrite sapp_cons. simpl.
  intros [Hc Hab]%andb_true_iff. destruct (IH Hab) as [Ha Hb].
  split; [|done]. rewrite Ha, andb_true_r.
  destruct (is_hspace c); [|done].
  apply andb_true_iff in Hc as [-> Hnext]. simpl.
  destruct a; [done|]. by rewrite sapp_cons in Hnext.
Qed.

Lemma short_breaks_le (j k : nat) (s : string) :
  (j <= k)%nat -> short_breaks k s = true -> short_breaks j s = true.
Proof.
  revert j k. induction s as [|c s IH]; intros j k Hjk; simpl; [done|].
  destruct (Ascii.eqb c newline); [|done].
  intros [Hk Hs]%andb_true_iff. apply Nat.ltb_lt in Hk.
  rewrite (proj2 (Nat.ltb_lt j 2)) by lia. simpl.
  apply (IH (S j) (S k)); [lia|done].
Qed.

Lemma short_breaks_app (k : nat) (a b : string) :
  short_breaks k (a ++ b) = true ->
  short_breaks k a = true /\ short_breaks 0 b = true.
Proof.
  revert k. induction a as [|c a IH]; intros k.
  - rewrite sapp_nil_l. intros Hb. split; [done|].
    by apply (short_breaks_le 0 k); [lia|].
  - rewrite sapp_cons. simpl. destruct (Ascii.eqb c newline).
    + intros [-> Hab]%andb_true_iff. by apply IH.
    + apply IH.
Qed.

Lemma lstrip_suffix (s : string) :
  exists t : string, s = (t ++ lstrip s)%string.
Proof.
  induction s as [|c s [t IH]]; [by exists ""%string|]. simpl.
  destruct (is_space c).
  - exists (String c t). by rewrite sapp_cons, <- IH.
  - by exists ""%string.
Qed.

Lemma rstrip_prefix (s : string) :
  exists t : string, s = (rstrip s ++ t)%string.
Proof.
  induction s as [|c s [t IH]]; [by exists ""%string|]. simpl.
  destruct (rstrip s) as [|c' r] eqn:Hr.
  - rewrite sapp_nil_l in IH. subst t.
    destruct (is_space c); [by exists (String c s)|by exists s].
  - exists t. by rewrite sapp_cons, <- IH.
Qed.

Lemma stripped_strip (s : string) : stripped (strip s) = true.
Proof.
  destruct (strip_ends s) as [->|[(c & r & Hs & Hc) (d & Hl & Hd)]]; [done|].
  rewrite Hs in *. unfold stripped. by rewrite Hl, Hc, Hd.
Qed.

Lemma strip_fixed (s : string) : stripped s = true -> strip s = s.
Proof.
  destruct s as [|c s]; [done|]. unfold stripped, strip.
  intros [Hc Hl]%andb_true_iff. apply negb_true_iff in Hc.
  rewrite lstrip_fixed by done.
  destruct (last_char (String c s)) as [d|] eqn:Hd.
  - apply negb_true_iff in Hl. by apply (rstrip_fixed _ d).
  - exfalso. revert Hd. clear. revert c.
    induction s as [|x s IH]; intros c; [done|]. apply IH.
Qed.

(** *** The cleaning steps together *)

Lemma clean_shape (raw : string) :
  stripped (clean raw) = true
  /\ single_spaced (clean raw) = true
  /\ short_breaks 0 (clean raw) = true.
Proof.
  unfold clean. split; [apply stripped_strip|].
  set (t := sub_newlines 0 (sub_hspace false raw)).
  assert (Hsingle : single_spaced t = true).
  { apply sub_newlines_single, sub_hspace_shape. }
  assert (Hshort : short_breaks 0 t = true).
  { apply sub_newlines_short. lia. }
  unfold strip.
  destruct (lstrip_suffix t) as [a Ha].
  destruct (rstrip_prefix (lstrip t)) as [b Hb].
  rewrite Ha in Hsingle, Hshort.
  apply single_spaced_app in Hsingle as [_ Hsingle].
  apply short_breaks_app in Hshort as [_ Hshort].
  rewrite Hb in Hsingle, Hshort.
  apply single_spaced_app in Hsingle as [Hsingle _].
  by apply short_breaks_app in Hshort as [Hshort _].
Qed.

End PdfFacts.

Module PdfExtras.
Import Chunker ChunkerMeasures ChunkerMore PdfParser PdfFacts.

(** X21. [parse_pdf] raises ValueError whatever exception opening the
    document raises, and otherwise returns a text with no whitespace at
    either end, in which the only whitespace besides newlines is single
    spaces, and in which no three newlines follow one another. *)
Theorem parse_pdf_shape
    (fitz_open : string -> result (list string)) (file_path : string) :
  match parse_pdf fitz_open file_path with
  | Ok text =>
      stripped text = true
      /\ single_spaced text = true
      /\ short_breaks 0 text = true
  | Raise e => e = ValueError
  end.
Proof.
  unfold parse_pdf. destruct (fitz_open file_path); [|done].
  apply clean_shape.
Qed.

(** X22. Cleaning a cleaned text changes nothing. *)
Theorem clean_idempotent (raw_text : string) :
  clean (clean raw_text) = clean raw_text.
Proof.
  destruct (clean_shape raw_text) as (Hstrip & Hsingle & Hshort).
  unfold clean at 1.
  rewrite sub_hspace_fixed by done.
  rewrite sub_newlines_fixed by done.
  by apply strip_fixed.
Qed.

(** X23. Cleaning removes and replaces whitespace only: the characters
    that are not whitespace are those of the raw text, in order. *)
Theorem clean_keeps_non_space (raw_text : string) :
  non_space (clean raw_text) = non_space raw_text.
Proof.
  unfold clean.
  by rewrite strip_non_space, sub_newlines_non_space, sub_hspace_non_space.
Qed.

End PdfExtras.

(** ** The embedder *)

Module EmbedderFacts.
Import Chunker ChunkerMeasures ChunkerFacts ChunkerMore Embedder.

Lemma collect_texts_built (source : string) (start : nat)
    (groups : list (list string)) (texts : list pyval) :
  collect_texts (render source start groups) texts =
  Ok (texts ++ map (fun c => PyStr (text_of c)) (render source start groups)).
Proof.
  revert start texts.
  induction groups as [|g groups IH]; intros start texts.
  - simpl. by rewrite app_nil_r.
  - rewrite render_cons. simpl collect_texts.
    unfold _build_chunk at 1. rewrite lookup_insert_eq.
    rewrite IH. simpl. by rewrite <- app_assoc.
Qed.

(** A text with a character that is not whitespace has a sentence. *)
Lemma sentences_of_non_blank (text : string) :
  nonempty (strip text) = true -> _split_sentences text <> [].
Proof.
  intros Hne Hnil.
  pose proof (split_sentences_non_space text) as Hns.
  rewrite Hnil in Hns. simpl in Hns.
  rewrite <- (strip_non_space text) in Hns.
  destruct (strip_ends text) as [Hs|[(c & r & Hs & Hc) _]];
    rewrite Hs in *; [done|].
  simpl in Hns. by rewrite Hc in Hns.
Qed.

Lemma chunk_text_nil (text : string) (chunk_size : Z) (source : string) :
  chunk_text text chunk_size source = [] <-> _split_sentences text = [].
Proof.
  destruct (chunk_text_groups text chunk_size source)
    as (groups & Hcat & Hne & _ & ->).
  rewrite <- Hcat. destruct groups as [|g groups]; [done|].
  apply Forall_cons in Hne as [Hg _]. split; [done|].
  simpl. by destruct g.
Qed.

Lemma embed_chunks_built {F : Type} (encode : list pyval -> ndarray F)
    (text : string) (chunk_size : Z) (source : string) :
  _split_sentences text <> [] ->
  embed_chunks encode (chunk_text text chunk_size source) =
  Ok (encode (map (fun c => PyStr (text_of c))
                  (chunk_text text chunk_size source))).
Proof.
  intros Hne.
  pose proof (chunk_text_nil text chunk_size source) as Hnil.
  destruct (chunk_text_groups text chunk_size source)
    as (groups & _ & _ & _ & Hchunks).
  destruct (chunk_text text chunk_size source) as [|c cs] eqn:Hc.
  { by destruct Hne, (proj1 Hnil). }
  unfold embed_chunks. rewrite Hchunks.
  change (imap _ groups) with (render source 0 groups).
  by rewrite collect_texts_built.
Qed.

Lemma chunk_text_has_metadata (text : string) (chunk_size : Z)
    (source : string) :
  Forall (fun c => exists m, c !! "metadata" = Some (PyDict m))
         (chunk_text text chunk_size source).
Proof.
  destruct (chunk_text_groups text chunk_size source)
    as (groups & _ & _ & _ & ->).
  apply Forall_forall. intros c Hc.
  apply elem_of_lookup_imap in Hc as (i & g & -> & _).
  rewrite build_chunk_metadata. by eexists.
Qed.

End EmbedderFacts.

Module EmbedderExtras.
Import Chunker ChunkerMeasures ChunkerFacts ChunkerMore Embedder EmbedderFacts.

(** X24. On the chunks of [chunk_text], [embed_chunks] raises ValueError
    exactly when the text has no sentence, and otherwise hands the model
    the texts of the chunks, in order, and returns what the model
    returns: no chunk of [chunk_text] lacks its text. *)
Theorem embed_chunks_of_chunk_text {F : Type}
    (encode : list pyval -> ndarray F)
    (text : string) (chunk_size : Z) (source : string) :
  embed_chunks encode (chunk_text text chunk_size source) =
    match _split_sentences text with
    | [] => Raise ValueError
    | _ => Ok (encode (map (fun c => PyStr (text_of c))
                           (chunk_text text chunk_size source)))
    end.
Proof.
  pose proof (chunk_text_nil text chunk_size source) as Hnil.
  pose proof (embed_chunks_built encode text chunk_size source) as Hbuilt.
  destruct (_split_sentences text) as [|s sentences].
  - by rewrite (proj2 Hnil).
  - by apply Hbuilt.
Qed.

End EmbedderExtras.

(** ** The upload endpoint *)

Module ServerFacts.
Import Chunker ChunkerMeasures ChunkerFacts ChunkerMore.
Import Embedder EmbedderFacts Server.
Section Facts.
Context {F : Type} `{Scalar F}.
Variable pf : FileRouter.platform.
Variable fitz_open : string -> result (list string).
Variable parse_csv : string -> result (string * ToolExecutor.DataFrame).
Variable parse_json : string -> result string.
Variable read_text : string -> string.
Variable encode : list pyval -> ndarray F.

Lemma add_raise_state (e : ndarray F) cs (s s' : FAISSStore.store F)
    (x : exn) :
  FAISSStore.add e cs s = (Raise x, s') -> s' = s.
Proof.
  destruct (decide (shape0 e = length cs)) as [Hn|Hn].
  - destruct (decide (ncols e = Faiss.d (FAISSStore.index s))) as [Hd|Hd].
    + by rewrite StoreFacts.add_success.
    + rewrite StoreFacts.add_dimension_mismatch by done. congruence.
  - rewrite StoreFacts.add_count_mismatch by done. congruence.
Qed.

Lemma held_get_store (st : state (F := F)) :
  held (snd (get_store st)) = held st
  /\ Faiss.ntotal (FAISSStore.index (fst (get_store st))) = held st
  /\ uploaded_files (snd (get_store st)) = uploaded_files st
  /\ _faiss_store (snd (get_store st)) = Some (fst (get_store st)).
Proof.
  unfold get_store, held.
  destruct (_faiss_store st) as [s|] eqn:Hs; simpl; rewrite ?Hs; done.
Qed.

Lemma parse_keeps (ext name tmp : string) (st st1 : state (F := F))
    (o : outcome string) :
  parse fitz_open parse_csv parse_json read_text ext name tmp st = (o, st1) ->
  _faiss_store st1 = _faiss_store st
  /\ uploaded_files st1 = uploaded_files st.
Proof.
  unfold parse. intros Hp.
  repeat case_decide;
    repeat match type of Hp with
    | context [match ?x with _ => _ end] => destruct x
    end; by injection Hp as <- <-.
Qed.

(** [parse] raises no HTTPException on an extension [route_file]
    returns. *)
Lemma parse_supported (ext name tmp : string) (st st1 : state (F := F))
    (status_code : Z) :
  ext ∈ FileRouter.SUPPORTED_EXTENSIONS ->
  parse fitz_open parse_csv parse_json read_text ext name tmp st
    <> (Raised (HTTPException status_code), st1).
Proof.
  unfold parse, FileRouter.SUPPORTED_EXTENSIONS. intros Hin Hp.
  rewrite !elem_of_union, !elem_of_singleton in Hin.
  repeat case_decide;
    repeat match type of Hp with
    | context [match ?x with _ => _ end] => destruct x
    end; try done.
  tauto.
Qed.

Lemma route_file_supported (name ext : string) :
  FileRouter.route_file pf name = Ok ext ->
  ext ∈ FileRouter.SUPPORTED_EXTENSIONS.
Proof.
  unfold FileRouter.route_file. cbv zeta.
  destruct (negb _); [done|]. case_decide as Hin; [done|].
  by intros [= <-].
Qed.

Lemma set_source_sets (name : string) (c y : gmap string pyval) :
  set_source name c = Some y ->
  (exists m, y !! "metadata" = Some (PyDict m)
             /\ m !! "source" = Some (PyStr name))
  /\ text_of y = text_of c.
Proof.
  unfold set_source, text_of.
  destruct (c !! "metadata") as [[| | | | | |m|]|]; try done;
    intros [= <-]; rewrite lookup_insert_eq, lookup_insert_ne by done;
    (split; [|done]); eexists; (split; [done|]); by rewrite lookup_insert_eq.
Qed.

Lemma set_sources_built (name text : string) (chunk_size : Z)
    (source : string) :
  exists stored : list (gmap string pyval),
    mapM (set_source name) (chunk_text text chunk_size source) = Some stored
    /\ length stored = length (chunk_text text chunk_size source)
    /\ Forall (fun c => exists m, c !! "metadata" = Some (PyDict m)
                                   /\ m !! "source" = Some (PyStr name))
               stored
    /\ map text_of stored = map text_of (chunk_text text chunk_size source).
Proof.
  pose proof (chunk_text_has_metadata text chunk_size source) as Hmeta.
  induction Hmeta as [|c cs [m Hm] _ (stored & Hs & Hlen & Hall & Htexts)].
  - by exists [].
  - destruct (set_source name c) as [y|] eqn:Hy.
    2:{ unfold set_source in Hy. by rewrite Hm in Hy. }
    destruct (set_source_sets _ _ _ Hy) as [Hsrc Htext].
    exists (y :: stored). simpl. rewrite Hy. simpl. rewrite Hs. simpl.
    repeat split; [by rewrite Hlen|by constructor|by rewrite Htext, Htexts].
Qed.

Lemma ingest_raised (name text : string) (st st' : state (F := F))
    (e : error) :
  ingest encode name text st = (Raised e, st') ->
  held st' = held st /\ uploaded_files st' = uploaded_files st
  /\ (forall status_code, e = HTTPException status_code ->
        status_code = 400 /\ strip text = "").
Proof.
  unfold ingest.
  destruct (nonempty (strip text)) eqn:Hne; simpl.
  { destruct (embed_chunks encode _) as [embeddings|x].
    - destruct (held_get_store st) as (Hheld & Hn & Hup & Hst).
      destruct (get_store st) as [s st1]. simpl in *.
      destruct (mapM _ _) as [chunks|].
      + destruct (FAISSStore.add embeddings chunks s) as [[u|x] s'] eqn:Hadd;
          [done|].
        apply add_raise_state in Hadd as ->.
        intros [= <- <-]. unfold held in *. simpl. by rewrite Hn.
      + by intros [= <- <-].
    - by intros [= <- <-]. }
  intros [= <- <-]. split; [done|]. split; [done|].
  intros status_code [= <-]. split; [done|]. by destruct (strip text).
Qed.

End Facts.
End ServerFacts.

Module ServerExtras.
Import Chunker ChunkerMeasures ChunkerFacts ChunkerMore.
Import Embedder EmbedderFacts Server ServerFacts.
Section Extras.
Context {F : Type} `{Scalar F}.
Variable pf : FileRouter.platform.
Variable fitz_open : string -> result (list string).
Variable parse_csv : string -> result (string * ToolExecutor.DataFrame).
Variable parse_json : string -> result string.
Variable read_text : string -> string.
Variable encode : list pyval -> ndarray F.

(** X25. An upload that fails adds nothing: the store holds as many
    vectors as before, and the list of uploaded files is the same. *)
Theorem failed_upload_adds_nothing
    (file_name : option string) (tmp : string) (st st' : state (F := F))
    (e : error) :
  upload_file pf fitz_open parse_csv parse_json read_text encode
    file_name tmp st = (Raised e, st') ->
  held st' = held st /\ uploaded_files st' = uploaded_files st.
Proof.
  unfold upload_file.
  destruct (upload_body _ _ _ _ _ _ _ _ _) as [[r|e0] st0] eqn:Hbody; [done|].
  intros Hst.
  assert (st0 = st') as -> by (destruct e0; by injection Hst).
  clear Hst. revert Hbody. unfold upload_body.
  destruct file_name as [name|]; [|by intros [= <- <-]].
  destruct (FileRouter.route_file pf name) as [ext|x]; [|by intros [= <- <-]].
  destruct (parse _ _ _ _ _ _ _ _) as [[text|e1] st1] eqn:Hparse;
    apply parse_keeps in Hparse as [Hs Hu].
  - intros (Hh & Hup & _)%ingest_raised.
    unfold held in *. rewrite Hh, Hup, Hs. done.
  - intros [= <- <-]. unfold held. by rewrite Hs.
Qed.

(** X26. A failed upload answers 400 or 500, and 400 only when the file
    name has a supported extension and the text read from the file is
    empty or whitespace: a name [route_file] rejects gives 500, and the
    endpoint's own 400 for an unsupported type is never sent. *)
Theorem upload_failure_status
    (file_name : option string) (tmp : string) (st st' : state (F := F))
    (e : error) :
  upload_file pf fitz_open parse_csv parse_json read_text encode
    file_name tmp st = (Raised e, st') ->
  e = HTTPException 500
  \/ (e = HTTPException 400
      /\ exists (name ext text : string) (st1 : state),
           file_name = Some name
           /\ FileRouter.route_file pf name = Ok ext
           /\ parse fitz_open parse_csv parse_json read_text ext name tmp st
              = (Return text, st1)
           /\ strip text = "").
Proof.
  unfold upload_file.
  destruct (upload_body _ _ _ _ _ _ _ _ _) as [[r|e0] st0] eqn:Hbody; [done|].
  destruct e0 as [x| |status_code]; try (intros [= <- _]; by left).
  intros [= <- <-]. right. revert Hbody. unfold upload_body.
  destruct file_name as [name|]; [|done].
  destruct (FileRouter.route_file pf name) as [ext|x] eqn:Hroute; [|done].
  destruct (parse _ _ _ _ _ _ _ _) as [[text|e1] st1] eqn:Hparse.
  - intros (_ & _ & Hstatus)%ingest_raised.
    destruct (Hstatus _ eq_refl) as [-> Hblank].
    split; [done|]. by exists name, ext, text, st1.
  - intros [= -> <-]. exfalso.
    by apply (parse_supported fitz_open parse_csv parse_json read_text
                _ _ _ _ _ _ (route_file_supported pf _ _ Hroute)) in Hparse.
Qed.

(** X27. When the file name has a supported extension, the text read
    from the file holds a character that is not whitespace, the model
    returns one row of 384 numbers per text and the index of the store is
    384 wide, the upload succeeds: it adds one vector per chunk of the
    text and at least one, reports the new total, records the file name,
    and stores every chunk with the file name as the source of its
    metadata. *)
Theorem upload_success
    (name tmp ext text : string) (st st1 : state (F := F)) :
  FileRouter.route_file pf name = Ok ext ->
  parse fitz_open parse_csv parse_json read_text ext name tmp st
    = (Return text, st1) ->
  strip text <> "" ->
  (forall texts, shape0 (encode texts) = length texts
                 /\ ncols (encode texts) = 384%nat) ->
  (forall s, _faiss_store st = Some s ->
             Faiss.d (FAISSStore.index s) = 384%nat) ->
  exists (r : reply) (st' : state) (stored : list (gmap string pyval)),
    upload_file pf fitz_open parse_csv parse_json read_text encode
      (Some name) tmp st = (Return r, st')
    /\ chunks_added r = length (chunk_text text DEFAULT_CHUNK_SIZE "")
    /\ (0 < chunks_added r)%nat
    /\ total_chunks r = (held st + chunks_added r)%nat
    /\ held st' = total_chunks r
    /\ uploaded_files st' = uploaded_files st ++ [name]
    /\ payloads st' = payloads st ++ stored
    /\ map text_of stored
       = map text_of (chunk_text text DEFAULT_CHUNK_SIZE "")
    /\ Forall (fun c => exists m, c !! "metadata" = Some (PyDict m)
                                  /\ m !! "source" = Some (PyStr name))
              stored
    /\ (forall s', _faiss_store st' = Some s' ->
                   Faiss.d (FAISSStore.index s') = 384%nat).
Proof.
  intros Hroute Hparse Hblank Hshape Hwidth.
  destruct (parse_keeps fitz_open parse_csv parse_json read_text
              _ _ _ _ _ _ Hparse) as [Hs1 Hu1].
  assert (Hne : nonempty (strip text) = true) by (by destruct (strip text)).
  pose proof (sentences_of_non_blank _ Hne) as Hsent.
  destruct (set_sources_built name text DEFAULT_CHUNK_SIZE "")
    as (stored & Hmap & Hlen & Hsrc & Htexts).
  destruct (held_get_store st1) as (Hheld & Hn & Hup & Hst).
  assert (Hd : Faiss.d (FAISSStore.index (fst (get_store st1))) = 384%nat).
  { unfold get_store. destruct (_faiss_store st1) as [s|] eqn:Hs; [|done].
    apply Hwidth. by rewrite <- Hs1. }
  assert (Hheld1 : held st1 = held st) by (unfold held; by rewrite Hs1).
  assert (Hpay : FAISSStore.chunks (fst (get_store st1)) = payloads st).
  { unfold get_store, payloads. rewrite <- Hs1.
    by destruct (_faiss_store st1). }
  assert (Hpos : (0 < length (chunk_text text DEFAULT_CHUNK_SIZE ""))%nat).
  { destruct (chunk_text text DEFAULT_CHUNK_SIZE "") eqn:Hc; simpl; [|lia].
    by apply chunk_text_nil in Hc. }
  unfold upload_file, upload_body. rewrite Hroute, Hparse.
  unfold ingest. rewrite Hne. simpl negb. cbv iota.
  rewrite embed_chunks_built by done.
  destruct (get_store st1) as [s0 st2]. simpl in *.
  rewrite Hmap.
  destruct (Hshape (map (fun c => PyStr (text_of c))
                        (chunk_text text DEFAULT_CHUNK_SIZE "")))
    as [Hrows Hcols].
  rewrite length_map in Hrows.
  rewrite StoreFacts.add_success by congruence.
  eexists _, _, stored. split; [done|]. simpl.
  unfold held, payloads, Faiss.ntotal in *. simpl.
  rewrite length_app. unfold shape0 in Hrows.
  repeat split; try done; try lia; try congruence.
  intros s' [= <-]. done.
Qed.

End Extras.
End ServerExtras.

(** ** The JSON flattener *)

Module JsonParserFacts.
Import JsonParser.

Lemma dict_set_keys {A} (k : string) (v : A) (d : list (string * A)) :
  k ∉ d.*1 -> dict_set k v d = d ++ [(k, v)].
Proof.
  induction d as [|[k' v'] d IH]; simpl; [done|].
  intros Hk. apply not_elem_of_cons in Hk as [Hne Hk].
  rewrite decide_False by done. by rewrite IH.
Qed.

Lemma dict_set_elem {A} (P : string * A -> Prop) (k : string) (v : A)
    (d : list (string * A)) :
  P (k, v) -> Forall P d -> Forall P (dict_set k v d).
Proof.
  intros Hkv. induction 1 as [|[k' v'] d Hx Hd IH]; simpl.
  - by constructor.
  - case_decide; by constructor.
Qed.

Lemma fold_dict_set_elem {A} (P : string * A -> Prop)
    (items acc : list (string * A)) :
  Forall P items -> Forall P acc ->
  Forall P (fold_left (fun d kv => dict_set (fst kv) (snd kv) d) items acc).
Proof.
  intros Hitems. revert acc.
  induction Hitems as [|[k v] items Hkv _ IH]; intros acc Hacc; simpl;
    [done|].
  apply IH. by apply dict_set_elem.
Qed.

Lemma dict_elem {A} (P : string * A -> Prop) (items : list (string * A)) :
  Forall P items -> Forall P (dict items).
Proof. intros Hitems. by apply fold_dict_set_elem. Qed.

Lemma dict_set_keys_nodup {A} (k : string) (v : A) (d : list (string * A)) :
  NoDup d.*1 -> NoDup (dict_set k v d).*1.
Proof.
  induction d as [|[k' v'] d IH]; simpl; intros Hd.
  - apply NoDup_singleton.
  - apply NoDup_cons in Hd as [Hk' Hd]. case_decide as Hk.
    + subst. simpl. by apply NoDup_cons.
    + simpl. apply NoDup_cons. split; [|by apply IH].
      clear IH Hd. induction d as [|[k'' v''] d IH]; simpl.
      * by apply not_elem_of_cons.
      * simpl in Hk'. apply not_elem_of_cons in Hk' as [Hne Hk'].
        case_decide; simpl; apply not_elem_of_cons; split; try done.
        by apply IH.
Qed.

Lemma fold_dict_set_nodup {A} (items acc : list (string * A)) :
  NoDup acc.*1 ->
  NoDup (fold_left (fun d kv => dict_set (fst kv) (snd kv) d) items acc).*1.
Proof.
  revert acc. induction items as [|[k v] items IH]; intros acc Hacc; simpl;
    [done|].
  apply IH. by apply dict_set_keys_nodup.
Qed.

(** The keys of a dict differ from one another. *)
Lemma dict_nodup {A} (items : list (string * A)) : NoDup (dict items).*1.
Proof. apply fold_dict_set_nodup. constructor. Qed.

Lemma fold_dict_set_fresh {A} (items acc : list (string * A)) :
  NoDup (acc ++ items).*1 ->
  fold_left (fun d kv => dict_set (fst kv) (snd kv) d) items acc
  = acc ++ items.
Proof.
  revert acc. induction items as [|[k v] items IH]; intros acc Hnd; simpl.
  - by rewrite app_nil_r.
  - rewrite dict_set_keys.
    + rewrite IH; rewrite <- app_assoc; done.
    + rewrite fmap_app in Hnd. apply NoDup_app in Hnd as (_ & Hdis & _).
      intros Hk. apply (Hdis _ Hk). simpl. by left.
Qed.

(** Items with different keys make the dict that lists them. *)
Lemma dict_fresh {A} (items : list (string * A)) :
  NoDup items.*1 -> dict items = items.
Proof. intros Hnd. by apply (fold_dict_set_fresh items []). Qed.

Lemma json_induction (P : json -> Prop) :
  P JNull ->
  (forall b, P (JBool b)) ->
  (forall z, P (JInt z)) ->
  (forall x, P (JFloat x)) ->
  (forall s, P (JStr s)) ->
  (forall l, Forall P l -> P (JArr l)) ->
  (forall kvs, Forall (fun kv => P (snd kv)) kvs -> P (JObj kvs)) ->
  forall j, P j.
Proof.
  intros Hnull Hbool Hint Hfloat Hstr Harr Hobj.
  fix IH 1. intros [|b|z|x|s|l|kvs].
  - apply Hnull.
  - apply Hbool.
  - apply Hint.
  - apply Hfloat.
  - apply Hstr.
  - apply Harr. induction l as [|j l IHl]; constructor; [apply IH|done].
  - apply Hobj. induction kvs as [|[k j] kvs IHl]; constructor;
      [apply IH|done].
Qed.

Lemma flatten_flat (obj : json) (parent_key sep : string) :
  flat (_flatten obj parent_key sep).
Proof.
  revert parent_key.
  induction obj as [| | | | |l IH|kvs IH] using json_induction;
    intros parent_key; try by constructor.
  - simpl. apply dict_elem. generalize 0%nat.
    induction IH as [|value l Hv _ IHl]; intros idx; [constructor|].
    apply Forall_app. split; [|apply IHl].
    destruct (is_container value) eqn:Hc; [apply Hv|].
    by constructor.
  - simpl. apply dict_elem.
    induction IH as [|[key value] kvs Hv _ IHl]; [constructor|].
    apply Forall_app. split; [|apply IHl].
    destruct (is_container value) eqn:Hc; [apply Hv|].
    by constructor.
Qed.

Lemma flatten_nodup (obj : json) (parent_key sep : string) :
  NoDup (_flatten obj parent_key sep).*1.
Proof. destruct obj; apply dict_nodup. Qed.

Lemma flatten_members (kvs : list (string * json))
    (parent_key sep : string) :
  _flatten (JObj kvs) parent_key sep
  = dict (member_items parent_key sep kvs).
Proof.
  simpl. f_equal. unfold member_items.
  induction kvs as [|[key value] kvs IH]; [done|]. simpl. by rewrite IH.
Qed.

(** The items of a flat dict at the top level are its own. *)
Lemma flat_items (sep : string) (kvs : list (string * json)) :
  flat kvs -> member_items "" sep kvs = kvs.
Proof.
  unfold member_items.
  induction 1 as [|[key value] kvs Hv _ IH]; [done|].
  simpl in *. by rewrite Hv, IH.
Qed.

Lemma sapp_inv_tail (a b c : string) :
  (a ++ c)%string = (b ++ c)%string -> a = b.
Proof.
  revert b. induction a as [|x a IH]; intros b Heq.
  - destruct b as [|y b]; [done|]. exfalso.
    apply (f_equal String.length) in Heq.
    rewrite !ChunkerMore.sapp_length in Heq. simpl in Heq. lia.
  - destruct b as [|y b].
    + exfalso. apply (f_equal String.length) in Heq.
      rewrite !ChunkerMore.sapp_length in Heq. simpl in Heq. lia.
    + rewrite !ChunkerMore.sapp_cons in Heq. injection Heq as -> Heq.
      by rewrite (IH b Heq).
Qed.

Lemma element_key_inj (parent_key : string) :
  Inj (=) (=) (element_key parent_key).
Proof.
  intros i j Heq. unfold element_key in Heq.
  apply (inj (String.app parent_key)) in Heq.
  apply (inj (String.app "[")) in Heq.
  apply sapp_inv_tail in Heq. by apply (inj pretty).
Qed.

(** The items of a list of scalars, numbered from [start]. *)
Lemma scalar_items (parent_key sep : string) (l : list json) (start : nat) :
  Forall (fun value => is_container value = false) l ->
  (fix items (idx : nat) (l : list json) : list (string * json) :=
     match l with
     | [] => []
     | value :: rest =>
         let new_key := element_key parent_key idx in
         (if is_container value
          then _flatten value new_key sep
          else [(new_key, value)])
         ++ items (S idx) rest
     end) start l
  = imap (fun idx value => (element_key parent_key (start + idx), value)) l.
Proof.
  intros Hl. revert start.
  induction Hl as [|value l Hv _ IH]; intros start; [done|].
  rewrite Hv, IH. simpl. rewrite Nat.add_0_r. f_equal.
  apply imap_ext. intros i x _. simpl. f_equal. f_equal. lia.
Qed.

End JsonParserFacts.

Module JsonParserExtras.
Import JsonParser JsonParserFacts.

(** X28. [_flatten] returns a flat dict: none of its values is a dict or
    a list, and flattening it again returns it unchanged.  More
    generally a dict without nested values is returned as it is. *)
Theorem flatten_is_flat (obj : json) (parent_key sep : string) :
  flat (_flatten obj parent_key sep)
  /\ _flatten (JObj (_flatten obj parent_key sep)) "" sep
     = _flatten obj parent_key sep
  /\ (forall kvs, flat kvs -> NoDup kvs.*1 ->
        _flatten (JObj kvs) "" sep = kvs).
Proof.
  assert (Hfixed : forall kvs, flat kvs -> NoDup kvs.*1 ->
                     _flatten (JObj kvs) "" sep = kvs).
  { intros kvs Hflat Hnd. rewrite flatten_members.
    rewrite flat_items by done. by apply dict_fresh. }
  split; [apply flatten_flat|]. split; [|done].
  apply Hfixed; [apply flatten_flat|apply flatten_nodup].
Qed.

(** X29. [_flatten] can lose a value: a member nested under [outer] and
    a top-level member named by the same dotted path get one key, and of
    the two values the later one stays. *)
Theorem flatten_key_collision
    (outer inner : string) (nested top : json) :
  outer <> "" ->
  is_container nested = false ->
  is_container top = false ->
  _flatten (JObj [(outer, JObj [(inner, nested)]);
                  ((outer ++ "." ++ inner)%string, top)]) "" "."
  = [((outer ++ "." ++ inner)%string, top)].
Proof.
  intros Houter Hnested Htop.
  rewrite flatten_members. unfold member_items. simpl.
  rewrite Hnested, Htop.
  change (member_key "" "." outer) with outer.
  change (member_key "" "." (outer ++ "." ++ inner))
    with (outer ++ "." ++ inner)%string.
  assert (Hin : member_key outer "." inner = (outer ++ "." ++ inner)%string).
  { unfold member_key. by destruct outer. }
  rewrite Hin. unfold dict. simpl. by rewrite decide_True.
Qed.

(** X30. A list of scalars is flattened to one entry per element, in
    order, under the key [parent_key[idx]] with [idx] counted from 0 in
    decimal. *)
Theorem flatten_scalar_list (l : list json) (parent_key sep : string) :
  Forall (fun value => is_container value = false) l ->
  _flatten (JArr l) parent_key sep
  = imap (fun idx value => (element_key parent_key idx, value)) l.
Proof.
  intros Hl.
  transitivity
    (dict (imap (fun idx value => (element_key parent_key idx, value)) l)).
  { pose proof (scalar_items parent_key sep l 0 Hl) as Hitems.
    change (fun idx value => (element_key parent_key (0 + idx), value))
      with (fun idx (value : json) => (element_key parent_key idx, value))
      in Hitems.
    rewrite <- Hitems. reflexivity. }
  apply dict_fresh.
  rewrite fmap_imap.
  replace (imap (fun idx value => _) l)
    with (element_key parent_key <$> seq 0 (length l)).
  - apply NoDup_fmap_2; [apply element_key_inj|apply NoDup_seq].
  - clear. apply list_eq. intros i.
    rewrite list_lookup_fmap, list_lookup_imap.
    destruct (l !! i) eqn:Hi; simpl.
    + rewrite lookup_seq_lt; [done|]. by apply lookup_lt_Some in Hi.
    + rewrite lookup_seq_ge; [done|]. by apply lookup_ge_None in Hi.
Qed.

End JsonParserExtras.

(** ** The theorems above at concrete inputs *)

Module MoreWitnesses.
Import Sample Inputs.

Lemma one_chunk_per_sentence_witness :
  Chunker.chunk_text "One. Two." 0 "doc" =
    imap (fun i s => Chunker._build_chunk [s] i "doc")
         (Chunker._split_sentences "One. Two.").
Proof.
  apply (ChunkerExtras.one_chunk_per_sentence "One. Two." 0 "doc").
  left. lia.
Defined.

Lemma single_chunk_when_all_fits_witness :
  Chunker.chunk_text "One. Two." 400 "doc" =
    [Chunker._build_chunk (Chunker._split_sentences "One. Two.") 0 "doc"].
Proof.
  apply (ChunkerExtras.single_chunk_when_all_fits "One. Two." 400 "doc").
  - vm_compute. discriminate.
  - apply (bool_decide_unpack _). vm_compute. reflexivity.
  - vm_compute. discriminate.
Defined.

Lemma growth_rate_reads_two_values_witness :
  ToolExecutor.compute_growth_rate df_rise "sales"
  = ToolExecutor.compute_growth_rate df_gap "sales".
Proof.
  apply (ToolExtras.growth_rate_reads_two_values df_rise df_gap "sales"
           [Some (ToolExecutor.VInt 2); Some (ToolExecutor.VInt 9);
            Some (ToolExecutor.VInt 3)]
           [None; Some (ToolExecutor.VInt 2); None;
            Some (ToolExecutor.VInt 3)]);
    try reflexivity; simpl; lia.
Defined.

Lemma add_batches_compose_witness :
  FAISSStore.bind (FAISSStore.add vectors2 payloads2)
                  (fun _ => FAISSStore.add vectors2 payloads2) empty2 =
  FAISSStore.add
    (Ndarray (Faiss.d (FAISSStore.index empty2))
             (rows vectors2 ++ rows vectors2))
    (payloads2 ++ payloads2) empty2.
Proof.
  apply (StoreExtras.add_batches_compose empty2 vectors2 vectors2
           payloads2 payloads2); reflexivity.
Defined.

Lemma load_ignores_dimension_witness :
  exists s' : FAISSStore.store Q,
    FAISSStore.load Ok plain_os "idx" 7
      (snd (FAISSStore.save keep plain_os near_far "idx" empty_fs)) = Ok s' /\
    FAISSStore.dimension s' = 7%nat /\
    FAISSStore.index s' = FAISSStore.index near_far /\
    FAISSStore.chunks s' = FAISSStore.chunks near_far /\
    fst (FAISSStore.count s') = fst (FAISSStore.count near_far) /\
    (forall q top_k, fst (FAISSStore.search q top_k s')
                     = fst (FAISSStore.search q top_k near_far)) /\
    (forall e cs, fst (FAISSStore.add e cs s')
                  = fst (FAISSStore.add e cs near_far)).
Proof.
  apply (StoreExtras.load_ignores_dimension keep Ok plain_os near_far "idx" 7
           empty_fs).
  - reflexivity.
  - repeat constructor.
  - reflexivity.
  - reflexivity.
  - reflexivity.
Defined.

Lemma search_rejects_bad_arguments_witness :
  FAISSStore.search (FAISSStore.Query1 [1%Q; 1%Q]) 0 near_far
  = (Raise AssertionError, near_far).
Proof.
  apply (StoreExtras.search_rejects_bad_arguments near_far
           (FAISSStore.Query1 [1%Q; 1%Q]) 0).
  - vm_compute. discriminate.
  - left. lia.
Defined.

Lemma search_misaligned_raises_witness :
  FAISSStore.search (FAISSStore.Query1 [1%Q; 1%Q]) 2 lopsided
  = (Raise IndexError, lopsided).
Proof.
  apply (StoreExtras.search_misaligned_raises lopsided
           (FAISSStore.Query1 [1%Q; 1%Q]) 2 [1%Q; 1%Q] []).
  - vm_compute. lia.
  - vm_compute. discriminate.
  - reflexivity.
  - reflexivity.
Defined.

Lemma search_all_is_exhaustive_witness :
  exists rs : list (FAISSStore.Match Q),
    FAISSStore.search (FAISSStore.Query1 [1%Q; 1%Q]) 5 near_far
    = (Ok rs, near_far) /\
    rs ≡ₚ map (fun vp =>
                 {| FAISSStore.text := default (PyStr "") (snd vp !! "text");
                    FAISSStore.metadata :=
                      default (PyDict ∅) (snd vp !! "metadata");
                    FAISSStore.score := Faiss.fvec_L2sqr [1%Q; 1%Q] (fst vp) |})
              log2.
Proof.
  apply (StoreExtras.search_all_is_exhaustive log2 near_far
           (FAISSStore.Query1 [1%Q; 1%Q]) 5 [1%Q; 1%Q] []).
  - exact StoreWitnesses.near_far_reach.
  - discriminate.
  - vm_compute. discriminate.
  - reflexivity.
  - reflexivity.
Defined.

Lemma search_finds_stored_vector_witness :
  exists (r : FAISSStore.Match Float32.float)
         (rs : list (FAISSStore.Match Float32.float)),
    FAISSStore.search
      (FAISSStore.Query1 [Float32.of_Z 10; Float32.of_Z 10]) 2 near_far32
    = (Ok (r :: rs), near_far32) /\
    FAISSStore.score r = S754_zero false.
Proof.
  apply (StoreFloat32.search_finds_stored_vector log32 near_far32
           [Float32.of_Z 10; Float32.of_Z 10] (payload "far") 2).
  - exact StoreWitnesses.near_far32_reach.
  - repeat constructor.
  - right. left.
  - lia.
Defined.

Lemma route_file_by_last_extension_witness :
  FileRouter.route_file FileRouter.Posix
    ("data/" ++ String "r" ("eport.v2" ++ String FileRouter.extsep "PDF")) =
    if decide (FileRouter.lower "PDF" ∈ FileRouter.SUPPORTED_EXTENSIONS)
    then Ok (FileRouter.lower "PDF") else Raise ValueError.
Proof.
  apply (RouterExtras.route_file_by_last_extension FileRouter.Posix
           "data/" "r" "eport.v2" "PDF"); reflexivity.
Defined.

Lemma route_file_without_extension_witness :
  FileRouter.route_file FileRouter.Nt ("docs/" ++ "." ++ "csv")
  = Raise ValueError.
Proof.
  apply (RouterExtras.route_file_without_extension FileRouter.Nt
           "docs/" "." "csv"); reflexivity.
Defined.

Lemma failed_upload_adds_nothing_witness :
  (fst (Server.upload_file FileRouter.Posix no_pdf no_csv no_json as_text
          zeros (Some "b.txt"%string) "   " stocked)
     = Server.Raised (Server.HTTPException 400)
   /\ fst (Server.upload_file FileRouter.Posix no_pdf no_csv no_json as_text
             narrow (Some "c.txt"%string) "More text." stocked)
     = Server.Raised (Server.HTTPException 500)
   /\ Server.held stocked = 1%nat
   /\ Server.uploaded_files stocked = ["a.txt"%string])
  /\ (Server.held
        (snd (Server.upload_file FileRouter.Posix no_pdf no_csv no_json
                as_text zeros (Some "b.txt"%string) "   " stocked))
      = Server.held stocked
      /\ Server.uploaded_files
           (snd (Server.upload_file FileRouter.Posix no_pdf no_csv no_json
                   as_text zeros (Some "b.txt"%string) "   " stocked))
         = Server.uploaded_files stocked)
  /\ (Server.held
        (snd (Server.upload_file FileRouter.Posix no_pdf no_csv no_json
                as_text narrow (Some "c.txt"%string) "More text." stocked))
      = Server.held stocked
      /\ Server.uploaded_files
           (snd (Server.upload_file FileRouter.Posix no_pdf no_csv no_json
                   as_text narrow (Some "c.txt"%string) "More text." stocked))
         = Server.uploaded_files stocked).
Proof.
  split; [by vm_compute|]. split.
  - apply (ServerExtras.failed_upload_adds_nothing FileRouter.Posix
             no_pdf no_csv no_json as_text zeros
             (Some "b.txt"%string) "   " stocked _
             (Server.HTTPException 400)).
    vm_compute. reflexivity.
  - apply (ServerExtras.failed_upload_adds_nothing FileRouter.Posix
             no_pdf no_csv no_json as_text narrow
             (Some "c.txt"%string) "More text." stocked _
             (Server.HTTPException 500)).
    vm_compute. reflexivity.
Defined.

Lemma upload_failure_status_witness :
  Server.HTTPException 500 = Server.HTTPException 500
  \/ (Server.HTTPException 500 = Server.HTTPException 400
      /\ exists (name ext text : string) (st1 : Server.state),
           Some "notes"%string = Some name
           /\ FileRouter.route_file FileRouter.Posix name = Ok ext
           /\ Server.parse no_pdf no_csv no_json as_text ext name "x" fresh
              = (Server.Return text, st1)
           /\ Chunker.strip text = ""%string).
Proof.
  apply (ServerExtras.upload_failure_status FileRouter.Posix
           no_pdf no_csv no_json as_text zeros
           (Some "notes"%string) "x" fresh fresh (Server.HTTPException 500)).
  vm_compute. reflexivity.
Defined.

Lemma upload_success_witness :
  exists (r : Server.reply) (st' : Server.state)
         (stored : list (gmap string pyval)),
    Server.upload_file FileRouter.Posix no_pdf no_csv no_json as_text zeros
      (Some "a.txt"%string) "Hello there. Bye." fresh = (Server.Return r, st')
    /\ Server.chunks_added r
       = length (Chunker.chunk_text "Hello there. Bye."
                                    Chunker.DEFAULT_CHUNK_SIZE "")
    /\ (0 < Server.chunks_added r)%nat
    /\ Server.total_chunks r = (Server.held fresh + Server.chunks_added r)%nat
    /\ Server.held st' = Server.total_chunks r
    /\ Server.uploaded_files st' = Server.uploaded_files fresh ++ ["a.txt"%string]
    /\ Server.payloads st' = Server.payloads fresh ++ stored
    /\ map ChunkerMeasures.text_of stored
       = map ChunkerMeasures.text_of
           (Chunker.chunk_text "Hello there. Bye."
                               Chunker.DEFAULT_CHUNK_SIZE "")
    /\ Forall (fun c => exists m, c !! "metadata" = Some (PyDict m)
                                  /\ m !! "source" = Some (PyStr "a.txt"))
              stored
    /\ (forall s', Server._faiss_store st' = Some s' ->
                   Faiss.d (FAISSStore.index s') = 384%nat).
Proof.
  apply (ServerExtras.upload_success FileRouter.Posix
           no_pdf no_csv no_json as_text zeros
           "a.txt" "Hello there. Bye." "txt" "Hello there. Bye." fresh fresh).
  - vm_compute. reflexivity.
  - vm_compute. reflexivity.
  - vm_compute. discriminate.
  - intros texts. split; [|reflexivity].
    unfold shape0, zeros. simpl. by rewrite length_map.
  - intros s. discriminate.
Defined.

Lemma flatten_key_collision_witness :
  JsonParser._flatten
    (JObj [("a"%string, JObj [("b"%string, JInt 1)]);
           (("a" ++ "." ++ "b")%string, JInt 2)]) "" "."
  = [(("a" ++ "." ++ "b")%string, JInt 2)].
Proof.
  apply (JsonParserExtras.flatten_key_collision "a" "b" (JInt 1) (JInt 2));
    [discriminate|reflexivity|reflexivity].
Defined.

Lemma flatten_scalar_list_witness :
  JsonParser._flatten (JArr [JInt 1; JStr "x"]) "k" "."
  = imap (fun idx value => (JsonParser.element_key "k" idx, value))
         [JInt 1; JStr "x"].
Proof.
  apply (JsonParserExtras.flatten_scalar_list [JInt 1; JStr "x"] "k" ".").
  repeat constructor.
Defined.

End MoreWitnesses.
